(** * py-cooklang: a shallow embedding of [cooklang.py] and its specification

    The parser of [cooklang.py] is a pipeline of regular-expression passes
    over Python strings.  Each pattern of the source is embedded as a
    deterministic matcher written out by hand; the comment above each
    matcher quotes the pattern and says why the backtracking search of
    Python's [re] module reduces to it.  Patterns are quoted in the
    verbose style of [re.VERBOSE]: a blank outside a character class
    separates two parts of the pattern and stands for nothing.

    Text is a list of characters.  A character is a code point below 256
    (Rocq's [ascii]); the character classes [\w] and Python's notion of
    white space are given for that range. *)

From stdpp Require Import base list sorting gmap strings.
From Stdlib Require Import ZArith QArith Qreduction Ascii Lia.

Open Scope list_scope.
Open Scope nat_scope.

Abbreviation str := (list ascii).

Coercion String.list_ascii_of_string : String.string >-> list.

(** ** Characters *)

Definition chr_is (c d : ascii) : bool := Ascii.eqb c d.

Definition in_range (lo hi : nat) (c : ascii) : bool :=
  (lo <=? nat_of_ascii c) && (nat_of_ascii c <=? hi).

Definition is_digit (c : ascii) : bool := in_range 48 57 c.

(** [\w] on a [str] pattern: letters, digits (in the sense of
    [str.isalnum]) and the underscore. *)
Definition is_word (c : ascii) : bool :=
  is_digit c || in_range 65 90 c || in_range 97 122 c || chr_is c "_"
  || chr_is c "170" || in_range 178 179 c || chr_is c "181"
  || in_range 185 186 c || in_range 188 190 c
  || in_range 192 214 c || in_range 216 246 c || in_range 248 255 c.

(** The class [[\w ]] of the annotation patterns. *)
Definition is_name_char (c : ascii) : bool := is_word c || chr_is c " ".

(** White space as [str.strip], [int] and the [\s] of [fractions] see it. *)
Definition is_space (c : ascii) : bool :=
  in_range 9 13 c || in_range 28 32 c || chr_is c "133" || chr_is c "160".

Definition not_chr (d : ascii) (c : ascii) : bool := negb (chr_is c d).

Definition newline : ascii := "010".

(** ** Runs of characters *)

Fixpoint take_while (p : ascii -> bool) (s : str) : str :=
  match s with
  | c :: t => if p c then c :: take_while p t else []
  | [] => []
  end.

Fixpoint drop_while (p : ascii -> bool) (s : str) : str :=
  match s with
  | c :: t => if p c then drop_while p t else s
  | [] => []
  end.

Fixpoint starts_with (p s : str) : bool :=
  match p, s with
  | [], _ => true
  | a :: p', b :: s' => chr_is a b && starts_with p' s'
  | _ :: _, [] => false
  end.

Definition contains_chr (d : ascii) (s : str) : bool := existsb (chr_is d) s.

(** [str.strip()] *)
Definition lstrip (s : str) : str := drop_while is_space s.
Definition rstrip (s : str) : str := rev (drop_while is_space (rev s)).
Definition strip (s : str) : str := rstrip (lstrip s).

(** [s.split("\n")] *)
Fixpoint split_lines (s : str) : list str :=
  match s with
  | [] => [[]]
  | c :: t =>
      if chr_is c newline then [] :: split_lines t
      else match split_lines t with
           | l :: ls => (c :: l) :: ls
           | [] => [[c]]
           end
  end.

(** [re.search(name, text)] for a [name] without pattern metacharacters:
    the offset of the first occurrence of [name] in [text]. *)
Fixpoint find_sub (name text : str) : option nat :=
  if starts_with name text then Some 0
  else match text with
       | [] => None
       | _ :: t => S <$> find_sub name t
       end.

(** ** Scanning with a pattern

    A matcher tells, for the text at the current position, whether the
    pattern matches there, how many characters the match spans and what
    it yields.  [re.sub], [re.findall] and [finditer] try the pattern at
    each position from left to right and resume right after a match; the
    counter [skip] below is the number of characters of the current match
    that are still to be passed over.  All the patterns of [cooklang.py]
    span at least one character when they match. *)

Section Scan.
Context {B : Type} (m : str -> option (nat * B)).

Fixpoint scan_from (skip : nat) (s : str) : list B :=
  match s with
  | [] => []
  | _ :: t =>
      match skip with
      | S k => scan_from k t
      | O => match m s with
             | Some (n, b) => b :: scan_from (pred n) t
             | None => scan_from 0 t
             end
      end
  end.

(** [re.findall] / [finditer] *)
Definition findall (s : str) : list B := scan_from 0 s.
End Scan.

Section Sub.
Context (m : str -> option (nat * str)).

Fixpoint sub_from (skip : nat) (s : str) : str :=
  match s with
  | [] => []
  | c :: t =>
      match skip with
      | S k => sub_from k t
      | O => match m s with
             | Some (n, r) => r ++ sub_from (pred n) t
             | None => c :: sub_from 0 t
             end
      end
  end.

(** [re.sub] *)
Definition re_sub (s : str) : str := sub_from 0 s.
End Sub.

(** ** The patterns of [Recipe.parse] *)

(** The longest prefix of [s] that ends with "-]", as the greedy [.*] of
    the block-comment pattern finds it by backing off from the end. *)
Fixpoint last_block_end (s : str) : option nat :=
  match s with
  | [] => None
  | c :: t =>
      match last_block_end t with
      | Some n => Some (S n)
      | None =>
          match t with
          | d :: _ => if chr_is c "-" && chr_is d "]" then Some 2 else None
          | [] => None
          end
      end
  end.

(** [(--[^\n]+|\[-.*-\])], replaced by the empty string.  The first
    alternative needs at least one character after the two dashes; in
    the second, [.] does not match a line break, so [.*] ranges over the
    rest of the line. *)
Definition match_comment (s : str) : option (nat * str) :=
  match s with
  | a :: b :: t =>
      if chr_is a "-" && chr_is b "-" then
        match take_while (not_chr newline) t with
        | [] => None
        | body => Some (2 + length body, [])
        end
      else if chr_is a "[" && chr_is b "-" then
        match last_block_end (take_while (not_chr newline) t) with
        | Some n => Some (2 + n, [])
        | None => None
        end
      else None
  | _ => None
  end.

Definition strip_comments (raw : str) : str := re_sub match_comment raw.

Definition not_brace_pct (c : ascii) : bool := not_chr "}" c && not_chr "%" c.

(** [~ [\w ]* \{ ( [^}%]* ) (?: % ( [^}]+ ) )? }], replaced by [\1 \2].  Every
    repetition ranges over a class that excludes the character that must
    follow it, so only the longest run can be followed by the rest of the
    pattern.  A group that took no part in the match is replaced by the
    empty string. *)
Definition match_timer_markup (s : str) : option (nat * str) :=
  match s with
  | c :: t =>
      if chr_is c "~" then
        let name := take_while is_name_char t in
        match drop_while is_name_char t with
        | b :: u =>
            if chr_is b "{" then
              let g1 := take_while not_brace_pct u in
              match drop_while not_brace_pct u with
              | e :: v =>
                  if chr_is e "}" then
                    Some (length name + length g1 + 3, g1 ++ " "%char :: [])
                  else (* e is the percent sign *)
                    let g2 := take_while (not_chr "}") v in
                    match g2, drop_while (not_chr "}") v with
                    | _ :: _, _ :: _ =>
                        Some (length name + length g1 + length g2 + 4,
                              g1 ++ " "%char :: g2)
                    | _, _ => None
                    end
              | [] => None
              end
            else None
        | [] => None
        end
      else None
  | [] => None
  end.

(** The length of a brace group [{[^}]*}] at the head of [s], 0 if there
    is none. *)
Definition brace_group_length (s : str) : nat :=
  match s with
  | b :: u =>
      if chr_is b "{" then
        match drop_while (not_chr "}") u with
        | _ :: _ => length (take_while (not_chr "}") u) + 2
        | [] => 0
        end
      else 0
  | [] => 0
  end.

(** [(?: @ | # ) ( \w [\w ]* ) ( { [^}]* } )?], replaced by [\1]. *)
Definition match_name_markup (s : str) : option (nat * str) :=
  match s with
  | c :: w :: t =>
      if (chr_is c "@" || chr_is c "#") && is_word w then
        let name := w :: take_while is_name_char t in
        Some (1 + length name + brace_group_length (drop_while is_name_char t),
              name)
      else None
  | _ => None
  end.

(** One rendered step: the inner [re.sub] drops the timer markup, the
    outer one the ingredient and cookware markup. *)
Definition render_step (raw_step : str) : str :=
  re_sub match_name_markup (re_sub match_timer_markup raw_step).

(** What a match of an annotation pattern yields: the matched text
    ([match.group()]) and the text of the group around the name run of the
    braced alternative, empty when the other alternative matched. *)
Record annotation := Annotation { matched : str; braced_name : str }.

(** [sigil (?: ( [\w ]+? ) { [^}]* } | [\w]+ )], with [[\w ]*?] in place
    of [[\w ]+?] when [empty_ok].  The lazy run can only stop in front of the
    opening brace, which is not in its class: it covers all the name
    characters that follow the sigil.  When the braced alternative fails
    the other one takes the longest run of word characters. *)
Definition match_annotation (sigil : ascii) (empty_ok : bool) (s : str)
  : option (nat * annotation) :=
  match s with
  | c :: t =>
      if chr_is c sigil then
        let run := take_while is_name_char t in
        let after := drop_while is_name_char t in
        let blen := brace_group_length after in
        if (empty_ok || negb (length run =? 0)) && negb (blen =? 0) then
          Some (1 + length run + blen,
                Annotation (take (1 + length run + blen) s) run)
        else
          match take_while is_word t with
          | [] => None
          | word => Some (1 + length word, Annotation (c :: word) [])
          end
      else None
  | [] => None
  end.

(** [ingr_pat], line 145 *)
Definition ingr_pat := match_annotation "@" false.
(** the cookware pattern, line 160 *)
Definition cookware_pat := match_annotation "#" false.
(** the timer pattern, line 176 *)
Definition timer_pat := match_annotation "~" true.

(** [lambda s: s[1] or s[0]] on the two groups of the cookware pattern;
    the first group is the match without its sigil. *)
Definition cookware_name (a : annotation) : str :=
  match braced_name a with
  | [] => tail (matched a)
  | n => n
  end.

(** [re.findall] of [^ @ ( [^{]+ ) (?: { ( [^}]* ) } )?] in
    [Ingredient.parse] and of [^ ~ ( [^{]* ) (?: { ( [^}]* ) } )?] in
    [Timer.parse]: the name and the text between the braces, at most one
    match since the pattern is anchored at the start. *)
Definition name_and_amount (sigil : ascii) (empty_ok : bool) (raw : str)
  : list (str * str) :=
  match raw with
  | c :: t =>
      if chr_is c sigil then
        let name := take_while (not_chr "{") t in
        let after := drop_while (not_chr "{") t in
        if empty_ok || negb (length name =? 0) then
          match brace_group_length after with
          | O => [(name, [])]
          | S _ => [(name, take_while (not_chr "}") (tail after))]
          end
        else []
      else []
  | [] => []
  end.

(** [( [^%}]+ ) %? ( [\w]+ )?]: amount, then the unit when one follows. *)
Definition match_quantity (s : str) : option (nat * (str * str)) :=
  match take_while not_brace_pct s with
  | [] => None
  | amount =>
      let after := drop_while not_brace_pct s in
      let pct := match after with
                 | p :: _ => if chr_is p "%" then 1 else 0
                 | [] => 0
                 end in
      let unit := take_while is_word (drop pct after) in
      Some (length amount + pct + length unit, (amount, unit))
  end.

(** [^ >> \ ? ( [^:]+ ) : \ ? ( .* ) $] in [_extract_metadata], with
    [\ ] for a blank of the pattern.  The key runs up to the first colon
    and must not be empty; the optional blank in front of it is given
    back when the key would otherwise be empty.  [.] does not match a line
    break and [$] matches at the end or in front of a final line break. *)
Definition match_metadata (raw_line : str) : option (str * str) :=
  if starts_with ">>"%string raw_line then
    let body := drop 2 raw_line in
    let key_zone := take_while (not_chr ":") body in
    match drop_while (not_chr ":") body with
    | _ :: after_colon =>
        let key :=
          match key_zone with
          | sp :: ((_ :: _) as k) => if chr_is sp " " then k else key_zone
          | _ => key_zone
          end in
        let value_zone :=
          match after_colon with
          | sp :: v => if chr_is sp " " then v else after_colon
          | [] => []
          end in
        let value := take_while (not_chr newline) value_zone in
        match key, drop_while (not_chr newline) value_zone with
        | [], _ => None
        | _, [] | _, [_] => Some (key, value)
        | _, _ => None
        end
    | [] => None
    end
  else None.

(** ** Exceptions *)

(** The three representations of an amount. *)
Inductive numtype := t_int | t_float | t_Fraction.

#[global] Instance numtype_eq_dec : EqDecision numtype.
Proof. solve_decision. Defined.

(** The exceptions that [Recipe.parse] can let through, one constructor
    for each place that raises. *)
Inductive exn :=
| InvalidLiteral (t : numtype) (text : str)
    (* ValueError of int(), float() or Fraction(), which quotes text *)
| ZeroDenominator (numerator : Z)
    (* ZeroDivisionError of Fraction() *)
| CannotAddUnit (u1 u2 : option str)
    (* ValueError, Quantity.__add__, line 25 *)
| CannotAddTypes (t1 t2 : numtype)
    (* ValueError, Quantity.__add__, line 27 *)
| CannotAddTimer (n1 n2 : str)
    (* ValueError, Timer.__add__, line 54 *)
| CannotAddIngredient (n1 n2 : str)
    (* ValueError, Ingredient.__add__, line 101 *)
| NoneHasNoStart
    (* AttributeError, location_match is None, line 93 *)
| IndexOutOfRange.
    (* IndexError, findall(...)[0] or steps[step_index] *)

Inductive result (A : Type) : Type :=
| Ok (a : A)
| Raise (e : exn).
Arguments Ok {A} a.
Arguments Raise {A} e.

#[global] Instance result_ret : MRet result := @Ok.
#[global] Instance result_bind : MBind result :=
  fun A B f r => match r with Ok a => f a | Raise e => Raise e end.
#[global] Instance result_fmap : FMap result :=
  fun A B f r => match r with Ok a => Ok (f a) | Raise e => Raise e end.

(** ** Numeric literals

    [int(text)] in base 10: white space around the literal is ignored;
    an optional sign is followed by digits, with single underscores
    allowed between two digits. *)

Definition digit_value (c : ascii) : Z := Z.of_nat (nat_of_ascii c) - 48.

Fixpoint more_digits (acc : Z) (s : str) : option Z :=
  match s with
  | [] => Some acc
  | c :: t =>
      if is_digit c then more_digits (10 * acc + digit_value c) t
      else if chr_is c "_" then
        match t with
        | d :: t' =>
            if is_digit d then more_digits (10 * acc + digit_value d) t'
            else None
        | [] => None
        end
      else None
  end.

Definition digits (s : str) : option Z :=
  match s with
  | c :: t => if is_digit c then more_digits (digit_value c) t else None
  | [] => None
  end.

Definition signed_digits (s : str) : option Z :=
  match s with
  | c :: t =>
      if chr_is c "-" then Z.opp <$> digits t
      else if chr_is c "+" then digits t
      else digits s
  | [] => None
  end.

Definition py_int (text : str) : result Z :=
  match signed_digits (strip text) with
  | Some z => Ok z
  | None => Raise (InvalidLiteral t_int text)
  end.

(** [Fraction(text)] for the literals [numerator/denominator] and
    [numerator], both of plain digits, with an optional sign and white
    space around (the grammar of [fractions] up to Python 3.10; later
    versions also read underscores between digits and blanks around the
    slash).  The decimal and exponent forms that [fractions] reads hold no
    slash, and [_get_quantity] builds a [Fraction] only from a text with a
    slash.  The value is kept in lowest terms. *)

Fixpoint plain_digits (acc : Z) (s : str) : option Z :=
  match s with
  | [] => Some acc
  | c :: t =>
      if is_digit c then plain_digits (10 * acc + digit_value c) t else None
  end.

Definition number (s : str) : option Z :=
  match s with
  | [] => None
  | _ :: _ => plain_digits 0 s
  end.

Definition py_Fraction (text : str) : result Q :=
  let body := strip text in
  let '(negative, body) :=
    match body with
    | c :: t =>
        if chr_is c "-" then (true, t)
        else if chr_is c "+" then (false, t) else (false, body)
    | [] => (false, body)
    end in
  let num := number (take_while (not_chr "/") body) in
  let den :=
    match drop_while (not_chr "/") body with
    | _ :: d => number d
    | [] => Some 1%Z
    end in
  match num, den with
  | Some n, Some d =>
      let n := (if negative then - n else n)%Z in
      match d with
      | Zpos p => Ok (Qred (Qmake n p))
      | _ => Raise (ZeroDenominator n)
      end
  | _, _ => Raise (InvalidLiteral t_Fraction text)
  end.

(** ** The data model and [Recipe.parse] *)

(** Python's [float], as far as [cooklang.py] uses it: the type,
    [float(text)] ([None] when it raises its ValueError, which quotes the
    text), [a + b] and [round(a, 1)] of the interpreter. *)
Class PyFloat := {
  float : Type;
  py_float : str -> option float;
  float_add : float -> float -> float;
  float_round1 : float -> float
}.

Section Cooklang.

Context {F : PyFloat}.

(** [Union[int, float, Fraction]] *)
Inductive number_t :=
| a_int (z : Z)
| a_float (f : float)
| a_Fraction (q : Q).

(** [type(amount)] *)
Definition type_of (a : number_t) : numtype :=
  match a with
  | a_int _ => t_int
  | a_float _ => t_float
  | a_Fraction _ => t_Fraction
  end.

Record Quantity := mkQuantity {
  Quantity_amount : number_t;
  Quantity_unit : option str
}.

Record Timer := mkTimer {
  Timer_name : str;
  Timer_quantity : option Quantity
}.

Record Ingredient := mkIngredient {
  Ingredient_name : str;
  Ingredient_location : nat * nat * nat;
  Ingredient_quantity : option Quantity
}.

Record Recipe := mkRecipe {
  Recipe_metadata : gmap str str;
  Recipe_ingredients : list Ingredient;
  Recipe_steps : list str;
  Recipe_cookware : list str;
  Recipe_timers : list Timer
}.

Definition step_of (i : Ingredient) : nat := (Ingredient_location i).1.1.
Definition start_of (i : Ingredient) : nat := (Ingredient_location i).1.2.
Definition end_of (i : Ingredient) : nat := (Ingredient_location i).2.

(** [Quantity.__add__] *)
Definition Quantity_add (self other : Quantity) : result Quantity :=
  if bool_decide (Quantity_unit self = Quantity_unit other) then
    match Quantity_amount self, Quantity_amount other with
    | a_int x, a_int y =>
        Ok (mkQuantity (a_int (x + y)) (Quantity_unit self))
    | a_float x, a_float y =>
        Ok (mkQuantity (a_float (float_round1 (float_add x y)))
              (Quantity_unit self))
    | a_Fraction x, a_Fraction y =>
        Ok (mkQuantity (a_Fraction (Qred (x + y))) (Quantity_unit self))
    | x, y => Raise (CannotAddTypes (type_of x) (type_of y))
    end
  else Raise (CannotAddUnit (Quantity_unit self) (Quantity_unit other)).

(** [Quantity.add_optional]; a [Quantity] is never falsy. *)
Definition Quantity_add_optional (a b : option Quantity)
  : result (option Quantity) :=
  match a, b with
  | Some x, Some y => Some <$> Quantity_add x y
  | Some x, None => Ok (Some x)
  | None, Some y => Ok (Some y)
  | None, None => Ok None
  end.

(** [_get_quantity] *)
Definition _get_quantity (matches : list (str * str))
  : result (option Quantity) :=
  match matches with
  | [] => Ok None
  | (amount_as_str, unit_as_str) :: _ =>
      match amount_as_str with
      | [] => Ok None
      | _ :: _ =>
          amount ←
            (if contains_chr "." amount_as_str then
               match py_float amount_as_str with
               | Some f => Ok (a_float f)
               | None => Raise (InvalidLiteral t_float amount_as_str)
               end
             else if contains_chr "/" amount_as_str then
               a_Fraction <$> py_Fraction amount_as_str
             else a_int <$> py_int amount_as_str);
          Ok (Some (mkQuantity amount
                      (match unit_as_str with
                       | [] => None
                       | _ :: _ => Some unit_as_str
                       end)))
      end
  end.

(** [Timer.parse] *)
Definition Timer_parse (raw : str) : result Timer :=
  match name_and_amount "~" true raw with
  | [] => Raise IndexOutOfRange
  | (name, raw_amount) :: _ =>
      let matches := findall match_quantity raw_amount in
      quantity ← _get_quantity matches;
      Ok (mkTimer name quantity)
  end.

(** [Timer.__add__] *)
Definition Timer_add (self other : Timer) : result Timer :=
  if bool_decide (Timer_name self = Timer_name other) then
    quantity ←
      Quantity_add_optional (Timer_quantity self) (Timer_quantity other);
    Ok (mkTimer (Timer_name self) quantity)
  else Raise (CannotAddTimer (Timer_name self) (Timer_name other)).

(** [Ingredient.parse]; [raw] is [match.group()].  The name is made of
    word characters and blanks when [raw] is a match of [ingr_pat], so
    that [re.search(name, ...)] looks for the name itself. *)
Definition Ingredient_parse (raw : str) (step_index : nat)
    (steps : list str) (current_ingredients : list Ingredient)
  : result Ingredient :=
  match name_and_amount "@" false raw with
  | [] => Raise IndexOutOfRange
  | (name, raw_amount) :: _ =>
      let matches := findall match_quantity raw_amount in
      let ingredients_on_current_step :=
        List.filter (fun i => step_of i =? step_index) current_ingredients in
      let last_ingr_index :=
        match last ingredients_on_current_step with
        | Some i => end_of i
        | None => 0
        end in
      match steps !! step_index with
      | None => Raise IndexOutOfRange
      | Some step =>
          match find_sub name (drop last_ingr_index step) with
          | None => Raise NoneHasNoStart
          | Some start =>
              let location :=
                (step_index,
                 start + last_ingr_index,
                 start + length name + last_ingr_index) in
              quantity ← _get_quantity matches;
              Ok (mkIngredient name location quantity)
          end
      end
  end.

(** [Ingredient.__add__] *)
Definition Ingredient_add (self other : Ingredient) : result Ingredient :=
  if bool_decide (Ingredient_name self = Ingredient_name other) then
    quantity ←
      Quantity_add_optional (Ingredient_quantity self)
        (Ingredient_quantity other);
    Ok (mkIngredient (Ingredient_name self) (Ingredient_location self)
          quantity)
  else
    Raise (CannotAddIngredient (Ingredient_name self)
             (Ingredient_name other)).

(** The inner loop of lines 147-151, over the matches of one step. *)
Fixpoint scan_step (steps : list str) (step_index : nat)
    (matches : list annotation) (ingredients : list Ingredient)
  : result (list Ingredient) :=
  match matches with
  | [] => Ok ingredients
  | ingr_match :: rest =>
      i ← Ingredient_parse (matched ingr_match) step_index steps
            ingredients;
      scan_step steps step_index rest (ingredients ++ [i])
  end.

(** The outer loop, over [enumerate(raw_steps)] from [step_index] on. *)
Fixpoint scan_steps (steps : list str) (step_index : nat)
    (raw_steps : list str) (ingredients : list Ingredient)
  : result (list Ingredient) :=
  match raw_steps with
  | [] => Ok ingredients
  | raw_step :: rest =>
      ingredients ←
        scan_step steps step_index (findall ingr_pat raw_step) ingredients;
      scan_steps steps (S step_index) rest ingredients
  end.

(** A dict whose keys keep the order of their insertion. *)
Fixpoint dict_get {V} (k : str) (d : list (str * V)) : option V :=
  match d with
  | [] => None
  | (k', v) :: d' => if bool_decide (k' = k) then Some v else dict_get k d'
  end.

Fixpoint dict_set {V} (k : str) (v : V) (d : list (str * V))
  : list (str * V) :=
  match d with
  | [] => [(k, v)]
  | (k', v') :: d' =>
      if bool_decide (k' = k) then (k, v) :: d'
      else (k', v') :: dict_set k v d'
  end.

(** The loop of [_remove_duplicates]. *)
Fixpoint merge_into (name_to_ingredient : list (str * Ingredient))
    (ingredients : list Ingredient) : result (list (str * Ingredient)) :=
  match ingredients with
  | [] => Ok name_to_ingredient
  | i :: rest =>
      match dict_get (Ingredient_name i) name_to_ingredient with
      | None =>
          merge_into (dict_set (Ingredient_name i) i name_to_ingredient)
            rest
      | Some seen =>
          sum ← Ingredient_add seen i;
          merge_into (dict_set (Ingredient_name i) sum name_to_ingredient)
            rest
      end
  end.

Definition _remove_duplicates (ingredients : list Ingredient)
  : result (list Ingredient) :=
  name_to_ingredient ← merge_into [] ingredients;
  Ok (name_to_ingredient.*2).

(** [_extract_metadata] *)
Definition _extract_metadata (raw_line : str) : option (str * str) :=
  match match_metadata raw_line with
  | None => None
  | Some (key, value) => Some (strip key, strip value)
  end.

(** [dict(pairs)]: later pairs overwrite earlier ones. *)
Definition dict_of_pairs (pairs : list (str * str)) : gmap str str :=
  foldl (fun m kv => <[kv.1 := kv.2]> m) ∅ pairs.

Definition is_metadata_line (x : str) : bool := starts_with ">>"%string x.

Definition nonempty (x : str) : bool :=
  match x with [] => false | _ :: _ => true end.

(** [raw_paragraphs], lines 121-124 *)
Definition paragraphs (raw : str) : list str :=
  List.filter nonempty (map strip (split_lines (strip_comments raw))).

(** The cookware of one step, lines 156-164 *)
Definition step_cookware (raw_step : str) : list str :=
  map cookware_name (findall cookware_pat raw_step).

(** The timers of one step, lines 172-180 *)
Definition step_timers (raw_step : str) : result (list Timer) :=
  mapM Timer_parse (map matched (findall timer_pat raw_step)).

(** [Recipe.parse] from [raw_paragraphs] on, lines 126-226 *)
Definition assemble (raw_paragraphs : list str) : result Recipe :=
  let raw_steps :=
    List.filter (fun x => negb (is_metadata_line x)) raw_paragraphs in
  let steps := map render_step raw_steps in
  ingredients ← scan_steps steps 0 raw_steps [];
  let cookware := concat (map step_cookware raw_steps) in
  timers_by_step ← mapM step_timers raw_steps;
  let timers := concat timers_by_step in
  ingredients ← _remove_duplicates ingredients;
  let raw_metadata := List.filter is_metadata_line raw_paragraphs in
  let metadata := dict_of_pairs (omap _extract_metadata raw_metadata) in
  Ok (mkRecipe metadata ingredients steps cookware timers).

(** [Recipe.parse] *)
Definition Recipe_parse (raw : str) : result Recipe :=
  assemble (paragraphs raw).

End Cooklang.

(** ** An instance to run the parser

    Decimal numbers with one fractional digit, counted in tenths: enough
    of [float] to evaluate [Recipe.parse] on examples.  The theorems below
    hold for every instance of [PyFloat]. *)

Definition tenths_of_string (text : str) : option Z :=
  match rev (strip text) with
  | d :: dot :: int_part =>
      if is_digit d && chr_is dot "." then
        (fun n => 10 * n + digit_value d)%Z <$> digits (rev int_part)
      else None
  | _ => None
  end.

Definition Tenths : PyFloat := {|
  float := Z;
  py_float := tenths_of_string;
  float_add := Z.add;
  float_round1 := fun x => x
|}.

(** ** What the claims speak of *)

(** The four fields of a recipe that come from the step lines. *)
Definition step_fields `{F : PyFloat} (r : Recipe)
  : list Ingredient * list str * list Timer * list str :=
  (Recipe_ingredients r, Recipe_cookware r, Recipe_timers r, Recipe_steps r).

(** The step lines of a text: [raw_steps], lines 126-131. *)
Definition raw_steps_of (raw_paragraphs : list str) : list str :=
  List.filter (fun x => negb (is_metadata_line x)) raw_paragraphs.

(** The exceptions of the numeric constructors: the literal is quoted by
    the ValueError, the numerator by the ZeroDivisionError. *)
Definition malformed_quantity (text : str) (e : exn) : Prop :=
  (exists t, e = InvalidLiteral t text) \/ (exists n, e = ZeroDenominator n).

(** The exceptions of [Quantity.__add__]. *)
Definition incompatible_addition (e : exn) : Prop :=
  (exists u1 u2, e = CannotAddUnit u1 u2) \/
  (exists t1 t2, e = CannotAddTypes t1 t2).

Definition raises {A} (r : result A) : Prop := exists e, r = Raise e.

(** Every character of [s] is in the class [p]. *)
Definition all_chars (p : ascii -> bool) (s : str) : Prop :=
  Forall (fun c => p c = true) s.

(** Neither of the sigils of the name markup. *)
Definition no_name_sigil (c : ascii) : bool := not_chr "@" c && not_chr "#" c.

(** A braced timer annotation, [~name{amount}] or [~name{amount%unit}]. *)
Definition timer_markup (name amount unit : str) : str :=
  "~"%char :: name ++ "{"%char :: amount ++
  match unit with
  | [] => []
  | _ :: _ => "%"%char :: unit
  end ++ ["}"%char].

(** None of the three sigils. *)
Definition plain (c : ascii) : bool := not_chr "~" c && no_name_sigil c.

(** The names of a sequence, each at its first appearance: a name is
    kept unless it has been [seen] before. *)
Fixpoint first_appearances (seen names : list str) : list str :=
  match names with
  | [] => []
  | n :: rest =>
      if bool_decide (n ∈ seen) then first_appearances seen rest
      else n :: first_appearances (n :: seen) rest
  end.

(** The mentions of one name, in scan order. *)
Definition mentions_of `{F : PyFloat} (n : str) (ms : list Ingredient)
  : list Ingredient :=
  List.filter (fun i => bool_decide (Ingredient_name i = n)) ms.

(** The Quantity-sum of a sequence of optional quantities, from left to
    right, starting from [acc]. *)
Fixpoint sum_quantities `{F : PyFloat} (acc : option Quantity)
    (qs : list (option Quantity)) : result (option Quantity) :=
  match qs with
  | [] => Ok acc
  | q :: rest =>
      acc' ← Quantity_add_optional acc q;
      sum_quantities acc' rest
  end.

(** Every entry of the dict is stored under its own name. *)
Definition dict_keyed `{F : PyFloat} (d : list (str * Ingredient)) : Prop :=
  Forall (fun kv => Ingredient_name kv.2 = kv.1) d.

(** The end offset of the last mention recorded so far on a step, 0 when
    there is none: [last_ingr_index] of [Ingredient.parse]. *)
Definition previous_end `{F : PyFloat} (step_index : nat)
    (current_ingredients : list Ingredient) : nat :=
  match last (List.filter (fun i => step_of i =? step_index)
                current_ingredients) with
  | Some i => end_of i
  | None => 0
  end.

(** The lists that the scan of lines 147-151 builds: every mention is
    what [Ingredient.parse] returns, given the mentions recorded before
    it. *)
Inductive recorded `{F : PyFloat} (steps : list str)
  : list Ingredient -> Prop :=
| recorded_nil : recorded steps []
| recorded_snoc ms raw step_index b :
    recorded steps ms ->
    Ingredient_parse raw step_index steps ms = Ok b ->
    recorded steps (ms ++ [b]).

(** Two mentions on one step line, the first one ending before the second
    one starts. *)
Definition span_before `{F : PyFloat} (a b : Ingredient) : Prop :=
  step_of a = step_of b -> end_of a <= start_of b.

(** The representation selected for an amount text: decimal if it holds
    a dot, exact rational if it holds a slash and no dot, integer
    otherwise. *)
Definition selected_type (text : str) : numtype :=
  if contains_chr "." text then t_float
  else if contains_chr "/" text then t_Fraction
  else t_int.

(** Numeric parsing of a text under a representation. *)
Definition read_number `{F : PyFloat} (t : numtype) (text : str)
  : result number_t :=
  match t with
  | t_int => a_int <$> py_int text
  | t_float =>
      match py_float text with
      | Some f => Ok (a_float f)
      | None => Raise (InvalidLiteral t_float text)
      end
  | t_Fraction => a_Fraction <$> py_Fraction text
  end.


(** [str(match[1]) if match[1] else None] *)
Definition unit_of (unit_as_str : str) : option str :=
  match unit_as_str with
  | [] => None
  | _ :: _ => Some unit_as_str
  end.

(** One of the three sigils. *)
Definition is_sigil (c : ascii) : bool :=
  chr_is c "@" || chr_is c "#" || chr_is c "~".

(** A text without annotation: it holds no opening brace, and no sigil
    stands in front of a word character. *)
Fixpoint no_annotation (s : str) : bool :=
  match s with
  | [] => true
  | c :: t =>
      negb (chr_is c "{")
      && (negb (is_sigil c)
          || match t with
             | w :: _ => negb (is_word w)
             | [] => true
             end)
      && no_annotation t
  end.


(** The matches of [ingr_pat] on the step lines, each with the index of
    its line, in reading order: what the loops of lines 147-151 go
    through, from [step_index] on. *)
Fixpoint matches_from (step_index : nat) (raw_steps : list str)
  : list (nat * annotation) :=
  match raw_steps with
  | [] => []
  | raw_step :: rest =>
      map (pair step_index) (findall ingr_pat raw_step)
      ++ matches_from (S step_index) rest
  end.

(** A mention that bears the step index of a match, the name that the
    pattern of [Ingredient.parse] finds in the matched text and the
    quantity that [_get_quantity] reads between its braces. *)
Definition read_from `{F : PyFloat} (km : nat * annotation) (b : Ingredient)
  : Prop :=
  step_of b = km.1 /\
  exists raw_amount rest,
    name_and_amount "@" false (matched km.2) =
      (Ingredient_name b, raw_amount) :: rest /\
    _get_quantity (findall match_quantity raw_amount) =
      Ok (Ingredient_quantity b).

(** Two optional quantities that cannot be added: both are given, and
    their units or the representations of their amounts differ. *)
Definition clash `{F : PyFloat} (a b : option Quantity) : Prop :=
  exists x y,
    a = Some x /\ b = Some y /\
    (Quantity_unit x <> Quantity_unit y \/
     type_of (Quantity_amount x) <> type_of (Quantity_amount y)).

(** An optional quantity whose amount, if any, is kept exactly: an
    integer or a rational, not a decimal. *)
Definition exact `{F : PyFloat} (q : option Quantity) : Prop :=
  match q with
  | Some x => type_of (Quantity_amount x) <> t_float
  | None => True
  end.

(** Neither of the two characters that open a comment. *)
Definition no_comment_sign (c : ascii) : bool :=
  not_chr "-" c && not_chr "[" c.
(** * Properties *)

(** ** Characters and runs *)

Lemma chr_is_true c d : chr_is c d = true <-> c = d.
Proof. apply Ascii.eqb_eq. Qed.

Lemma chr_is_refl c : chr_is c c = true.
Proof. apply Ascii.eqb_refl. Qed.

Lemma not_chr_true d c : not_chr d c = true <-> c <> d.
Proof.
  unfold not_chr. rewrite negb_true_iff, <- not_true_iff_false, chr_is_true.
  tauto.
Qed.

Lemma take_drop_while p s : take_while p s ++ drop_while p s = s.
Proof.
  induction s as [|c t IH]; simpl; [reflexivity|].
  destruct (p c); simpl; [now rewrite IH | reflexivity].
Qed.

Lemma take_while_all p s : all_chars p (take_while p s).
Proof.
  induction s as [|c t IH]; simpl; [constructor|].
  destruct (p c) eqn:E; constructor; assumption.
Qed.

Lemma drop_while_head p s c t : drop_while p s = c :: t -> p c = false.
Proof.
  induction s as [|d u IH]; simpl; [discriminate|].
  destruct (p d) eqn:E; [assumption|].
  intros [= -> _]. assumption.
Qed.

Lemma take_while_stop p a c r :
  all_chars p a -> p c = false -> take_while p (a ++ c :: r) = a.
Proof.
  intros Ha Hc. induction Ha as [|x a Hx _ IH]; simpl.
  - now rewrite Hc.
  - now rewrite Hx, IH.
Qed.

Lemma drop_while_stop p a c r :
  all_chars p a -> p c = false -> drop_while p (a ++ c :: r) = c :: r.
Proof.
  intros Ha Hc. induction Ha as [|x a Hx _ IH]; simpl.
  - now rewrite Hc.
  - now rewrite Hx, IH.
Qed.

Lemma take_while_whole p a : all_chars p a -> take_while p a = a.
Proof.
  intros Ha. induction Ha as [|x a Hx _ IH]; simpl; [reflexivity|].
  now rewrite Hx, IH.
Qed.

Lemma drop_while_whole p a : all_chars p a -> drop_while p a = [].
Proof.
  intros Ha. induction Ha as [|x a Hx _ IH]; simpl; [reflexivity|].
  now rewrite Hx.
Qed.

Lemma all_chars_weaken (p q : ascii -> bool) s :
  (forall c, p c = true -> q c = true) -> all_chars p s -> all_chars q s.
Proof. intros Hpq Hs. eapply Forall_impl; [exact Hs | exact Hpq]. Qed.

(** ** Substitution and scanning *)

Lemma sub_from_skip m pre s :
  sub_from m (length pre) (pre ++ s) = sub_from m 0 s.
Proof. induction pre as [|c pre IH]; simpl; [reflexivity | exact IH]. Qed.

(** A match at the head is replaced and the scan resumes behind it. *)
Lemma re_sub_match m x s r :
  x <> [] -> m (x ++ s) = Some (length x, r) ->
  re_sub m (x ++ s) = r ++ re_sub m s.
Proof.
  intros Hx Hm. destruct x as [|c x]; [contradiction|].
  unfold re_sub. change ((c :: x) ++ s) with (c :: (x ++ s)) in *.
  cbn [sub_from]. rewrite Hm. cbn [length pred].
  now rewrite sub_from_skip.
Qed.

(** Where the pattern does not match, the character is kept. *)
Lemma re_sub_keep m c s :
  m (c :: s) = None -> re_sub m (c :: s) = c :: re_sub m s.
Proof. intros Hm. unfold re_sub. cbn [sub_from]. now rewrite Hm. Qed.

Lemma match_timer_markup_sigil c s :
  c <> "~"%char -> match_timer_markup (c :: s) = None.
Proof.
  intros Hc. simpl. destruct (chr_is c "~") eqn:E; [|reflexivity].
  apply chr_is_true in E. contradiction.
Qed.

Lemma match_name_markup_sigil c s :
  c <> "@"%char -> c <> "#"%char -> match_name_markup (c :: s) = None.
Proof.
  intros H1 H2. unfold match_name_markup. destruct s as [|w t]; [reflexivity|].
  destruct (chr_is c "@") eqn:E1; [apply chr_is_true in E1; contradiction|].
  destruct (chr_is c "#") eqn:E2; [apply chr_is_true in E2; contradiction|].
  reflexivity.
Qed.

(** Text without the sigil of a pattern goes through unchanged. *)
Lemma re_sub_timer_plain s :
  all_chars (not_chr "~") s -> re_sub match_timer_markup s = s.
Proof.
  intros Hs. induction Hs as [|c s Hc _ IH]; [reflexivity|].
  rewrite re_sub_keep, IH; [reflexivity|].
  apply match_timer_markup_sigil. now apply not_chr_true.
Qed.

Lemma re_sub_name_plain s :
  all_chars no_name_sigil s -> re_sub match_name_markup s = s.
Proof.
  intros Hs. induction Hs as [|c s Hc _ IH]; [reflexivity|].
  unfold no_name_sigil in Hc. apply andb_true_iff in Hc as [H1 H2].
  rewrite re_sub_keep, IH; [reflexivity|].
  apply match_name_markup_sigil; now apply not_chr_true.
Qed.

(** ** Timer markup in the rendered steps *)

Ltac len :=
  repeat first [rewrite length_app | progress (cbn [length])]; lia.


Lemma app_cons_assoc {A} (l1 : list A) x l2 l3 :
  (l1 ++ x :: l2) ++ l3 = l1 ++ x :: (l2 ++ l3).
Proof. now rewrite <- app_assoc. Qed.


Lemma re_sub_timer_prefix pre s :
  all_chars (not_chr "~") pre ->
  re_sub match_timer_markup (pre ++ s) = pre ++ re_sub match_timer_markup s.
Proof.
  intros Hp. induction Hp as [|c pre Hc _ IH]; [reflexivity|].
  cbn [app]. rewrite re_sub_keep, IH; [reflexivity|].
  apply match_timer_markup_sigil. now apply not_chr_true.
Qed.

Lemma all_chars_app p a b : all_chars p a -> all_chars p b -> all_chars p (a ++ b).
Proof. intros. now apply Forall_app. Qed.

Lemma plain_no_tilde s : all_chars plain s -> all_chars (not_chr "~") s.
Proof.
  apply all_chars_weaken. intros c H. now apply andb_true_iff in H as [? _].
Qed.

Lemma plain_no_name_sigil s : all_chars plain s -> all_chars no_name_sigil s.
Proof.
  apply all_chars_weaken. intros c H. now apply andb_true_iff in H as [_ ?].
Qed.




(** ** The scenarios of the specification *)

(** C1.  Parsing "Cook the @pasta for ~{10%minutes}" gives the single
    step "Cook the pasta for 10 minutes", the single ingredient "pasta"
    at (0, 9, 14) without quantity, and the single timer with the empty
    name and the quantity 10 (an integer) "minutes"; there is no metadata
    and no cookware. *)
Theorem C1_pasta_scenario `{F : PyFloat} :
  Recipe_parse "Cook the @pasta for ~{10%minutes}" =
  Ok (mkRecipe ∅
        [mkIngredient "pasta" (0, 9, 14) None]
        ["Cook the pasta for 10 minutes" : str]
        []
        [mkTimer [] (Some (mkQuantity (a_int 10) (Some ("minutes" : str))))]).
Proof. vm_compute. reflexivity. Qed.

(** C3, on the code.  The block-comment pattern is greedy: of two block
    comments on one line, the text between them is removed with them.  A
    line comment is removed only when some text follows the two dashes. *)
Theorem C3_comments_on_the_code `{F : PyFloat} :
  Recipe_steps <$> Recipe_parse "a [- x -] b [- y -] c" = Ok ["a  c" : str]
  /\ Recipe_steps <$> Recipe_parse "stir --" = Ok ["stir --" : str].
Proof. split; vm_compute; reflexivity. Qed.

(** ** Results and exceptions *)

Lemma bind_Ok {A B} (r : result A) (k : A -> result B) b :
  (r ≫= k) = Ok b -> exists a, r = Ok a /\ k a = Ok b.
Proof. destruct r as [a|e]; [eauto | discriminate]. Qed.


Lemma mapM_Ok {A B} (f : A -> result B) l k :
  mapM f l = Ok k -> Forall2 (fun x y => f x = Ok y) l k.
Proof.
  revert k. induction l as [|x l IH]; intros k H; cbn in H.
  - injection H as <-. constructor.
  - apply bind_Ok in H as (y & Hy & H).
    apply bind_Ok in H as (k' & Hk' & H). injection H as <-.
    constructor; auto.
Qed.


(** ** Adding quantities *)

Section Addition.
Context {F : PyFloat}.

Lemma Quantity_add_raises_iff (a b : Quantity) :
  raises (Quantity_add a b) <->
  Quantity_unit a <> Quantity_unit b \/
  type_of (Quantity_amount a) <> type_of (Quantity_amount b).
Proof.
  unfold Quantity_add, raises. case_bool_decide as Hu.
  - destruct (Quantity_amount a), (Quantity_amount b); cbn;
      split;
      try (intros [e He]; discriminate He);
      try (intros [?|?]; congruence);
      try (intros _; right; discriminate);
      try (intros _; eexists; reflexivity).
  - split; [now left | intros _; eexists; reflexivity].
Qed.

Lemma Quantity_add_exception (a b : Quantity) e :
  Quantity_add a b = Raise e -> incompatible_addition e.
Proof.
  unfold Quantity_add, incompatible_addition. case_bool_decide.
  - destruct (Quantity_amount a), (Quantity_amount b);
      intros [= <-]; right; eauto.
  - intros [= <-]; left; eauto.
Qed.

Lemma Quantity_add_Ok (a b q : Quantity) :
  Quantity_add a b = Ok q ->
  Quantity_unit q = Quantity_unit a /\
  Quantity_unit q = Quantity_unit b /\
  type_of (Quantity_amount q) = type_of (Quantity_amount a) /\
  type_of (Quantity_amount q) = type_of (Quantity_amount b) /\
  match Quantity_amount a, Quantity_amount b with
  | a_int x, a_int y => Quantity_amount q = a_int (x + y)
  | a_float x, a_float y =>
      Quantity_amount q = a_float (float_round1 (float_add x y))
  | a_Fraction x, a_Fraction y => Quantity_amount q = a_Fraction (Qred (x + y))
  | _, _ => False
  end.
Proof.
  unfold Quantity_add. case_bool_decide as Hu; [|discriminate].
  destruct (Quantity_amount a), (Quantity_amount b);
    try discriminate; intros [= <-]; cbn; rewrite <- ?Hu; auto.
Qed.

End Addition.

(** ** The insertion-ordered dict *)

Lemma dict_get_None {V} k (d : list (str * V)) :
  dict_get k d = None <-> k ∉ d.*1.
Proof.
  induction d as [|[k' v] d IH]; cbn.
  - split; [intros _; apply not_elem_of_nil | reflexivity].
  - case_bool_decide as Hk.
    + subst. split; [discriminate | intros H; exfalso; apply H; left].
    + rewrite IH, not_elem_of_cons. split; [intros; split|]; intuition congruence.
Qed.

Lemma dict_get_Some_elem {V} k v (d : list (str * V)) :
  dict_get k d = Some v -> (k, v) ∈ d.
Proof.
  induction d as [|[k' v'] d IH]; cbn; [discriminate|].
  case_bool_decide as Hk.
  - intros [= ->]. subst. left.
  - intros H. right. auto.
Qed.

Lemma dict_get_set {V} k v (d : list (str * V)) :
  dict_get k (dict_set k v d) = Some v.
Proof.
  induction d as [|[k' v'] d IH]; cbn.
  - now rewrite bool_decide_eq_true_2.
  - case_bool_decide as Hk; cbn.
    + now rewrite bool_decide_eq_true_2.
    + now rewrite bool_decide_eq_false_2.
Qed.

Lemma dict_get_set_other {V} k k' v (d : list (str * V)) :
  k <> k' -> dict_get k' (dict_set k v d) = dict_get k' d.
Proof.
  intros Hne. induction d as [|[k0 v0] d IH]; cbn.
  - now rewrite bool_decide_eq_false_2.
  - case_bool_decide as Hk; cbn.
    + subst k0. now rewrite !bool_decide_eq_false_2.
    + now rewrite IH.
Qed.

Lemma dict_set_keys_new {V} k v (d : list (str * V)) :
  dict_get k d = None -> (dict_set k v d).*1 = d.*1 ++ [k].
Proof.
  induction d as [|[k' v'] d IH]; cbn; [reflexivity|].
  case_bool_decide as Hk; [discriminate|].
  intros H. cbn. now rewrite IH.
Qed.

Lemma dict_set_keys_old {V} k v v' (d : list (str * V)) :
  dict_get k d = Some v' -> (dict_set k v d).*1 = d.*1.
Proof.
  induction d as [|[k0 v0] d IH]; cbn; [discriminate|].
  case_bool_decide as Hk; cbn.
  - now subst.
  - intros H. now rewrite IH.
Qed.

Lemma dict_get_NoDup {V} k v (d : list (str * V)) :
  NoDup d.*1 -> (k, v) ∈ d -> dict_get k d = Some v.
Proof.
  induction d as [|[k' v'] d IH]; cbn; intros Hnd Hin.
  - now apply elem_of_nil in Hin.
  - apply NoDup_cons in Hnd as [Hk' Hnd].
    apply elem_of_cons in Hin as [[= <- <-]|Hin].
    + now rewrite bool_decide_eq_true_2.
    + rewrite bool_decide_eq_false_2; [auto|].
      intros ->. apply Hk'. apply list_elem_of_fmap. now exists (k, v).
Qed.

(** ** First appearances *)

Lemma first_appearances_seen s1 s2 l :
  (forall x, x ∈ s1 <-> x ∈ s2) ->
  first_appearances s1 l = first_appearances s2 l.
Proof.
  revert s1 s2. induction l as [|n l IH]; intros s1 s2 H; cbn; [reflexivity|].
  rewrite (bool_decide_ext (n ∈ s1) (n ∈ s2)) by apply H.
  case_bool_decide; [now apply IH|].
  f_equal. apply IH. intros x. rewrite !elem_of_cons, H. tauto.
Qed.

Lemma first_appearances_fresh seen l x :
  x ∈ first_appearances seen l -> (x ∉ seen) /\ (x ∈ l).
Proof.
  revert seen. induction l as [|n l IH]; intros seen; cbn.
  - intros H. now apply elem_of_nil in H.
  - case_bool_decide as Hn.
    + intros H. apply IH in H as [? ?]. split; [assumption | now right].
    + intros H. apply elem_of_cons in H as [->|H].
      * split; [assumption | left].
      * apply IH in H as [H1 H2]. rewrite not_elem_of_cons in H1.
        split; [tauto | now right].
Qed.


Lemma first_appearances_NoDup seen l : NoDup (first_appearances seen l).
Proof.
  revert seen. induction l as [|n l IH]; intros seen; cbn; [constructor|].
  case_bool_decide as Hn; [apply IH|].
  constructor; [|apply IH].
  intros H. apply first_appearances_fresh in H as [H _].
  apply H. left.
Qed.

(** ** Merging the mentions of an ingredient *)

Section Merging.
Context {F : PyFloat}.

Lemma dict_keyed_get d k v :
  dict_keyed d -> dict_get k d = Some v -> Ingredient_name v = k.
Proof.
  intros Hd Hg. apply dict_get_Some_elem in Hg.
  unfold dict_keyed in Hd. rewrite Forall_forall in Hd.
  exact (Hd _ Hg).
Qed.

Lemma dict_keyed_set d k v :
  dict_keyed d -> Ingredient_name v = k -> dict_keyed (dict_set k v d).
Proof.
  intros Hd Hv. induction Hd as [|[k' v'] d Hkv Hd IH]; cbn.
  - constructor; [exact Hv | constructor].
  - case_bool_decide; constructor; assumption.
Qed.

Lemma dict_keyed_names d : dict_keyed d -> map Ingredient_name d.*2 = d.*1.
Proof.
  induction 1 as [|[k v] d Hkv _ IH]; cbn in *; [reflexivity|].
  now rewrite Hkv, IH.
Qed.

Lemma Ingredient_add_Ok (seen i sum : Ingredient) :
  Ingredient_add seen i = Ok sum ->
  Ingredient_name sum = Ingredient_name seen /\
  Ingredient_location sum = Ingredient_location seen /\
  Quantity_add_optional (Ingredient_quantity seen) (Ingredient_quantity i) =
    Ok (Ingredient_quantity sum).
Proof.
  unfold Ingredient_add. case_bool_decide as Hn; [|discriminate].
  intros H. apply bind_Ok in H as (q & Hq & [= <-]). cbn. auto.
Qed.

Lemma mentions_of_cons_same n i ms :
  Ingredient_name i = n -> mentions_of n (i :: ms) = i :: mentions_of n ms.
Proof.
  intros H. unfold mentions_of. cbn. now rewrite bool_decide_eq_true_2.
Qed.

Lemma mentions_of_cons_other n i ms :
  Ingredient_name i <> n -> mentions_of n (i :: ms) = mentions_of n ms.
Proof.
  intros H. unfold mentions_of. cbn. now rewrite bool_decide_eq_false_2.
Qed.

(** What the loop of [_remove_duplicates] computes, from any dict. *)
Lemma merge_into_spec ms : forall d d',
  dict_keyed d -> merge_into d ms = Ok d' ->
  d'.*1 = d.*1 ++ first_appearances d.*1 (map Ingredient_name ms) /\
  dict_keyed d' /\
  forall k e', dict_get k d' = Some e' ->
    match dict_get k d with
    | Some e =>
        Ingredient_location e' = Ingredient_location e /\
        sum_quantities (Ingredient_quantity e)
          (map Ingredient_quantity (mentions_of k ms)) =
        Ok (Ingredient_quantity e')
    | None =>
        exists first others,
          mentions_of k ms = first :: others /\
          Ingredient_location e' = Ingredient_location first /\
          sum_quantities (Ingredient_quantity first)
            (map Ingredient_quantity others) =
          Ok (Ingredient_quantity e')
    end.
Proof.
  induction ms as [|i ms IH]; intros d d' Hd Hm.
  - cbn in Hm. injection Hm as <-. cbn. rewrite app_nil_r.
    split; [reflexivity|]. split; [assumption|].
    intros k e' Hk. rewrite Hk. auto.
  - cbn [merge_into] in Hm.
    destruct (dict_get (Ingredient_name i) d) as [seen|] eqn:Hget.
    + apply bind_Ok in Hm as (sum & Hsum & Hm).
      apply Ingredient_add_Ok in Hsum as (Hname & Hloc & Hq).
      pose proof (dict_keyed_get _ _ _ Hd Hget) as Hseen.
      apply IH in Hm as (Hkeys & Hd' & Hent);
        [|apply dict_keyed_set; [assumption | congruence]].
      rewrite (dict_set_keys_old _ _ seen) in Hkeys by assumption.
      split; [|split; [assumption|]].
      * rewrite Hkeys. cbn. rewrite bool_decide_eq_true_2; [reflexivity|].
        apply dec_stable. intros Hn. apply dict_get_None in Hn. congruence.
      * intros k e' Hk. specialize (Hent k e' Hk).
        destruct (decide (Ingredient_name i = k)) as [<-|Hne].
        -- rewrite dict_get_set in Hent. rewrite Hget.
           destruct Hent as [Hl Hs]. split; [congruence|].
           rewrite mentions_of_cons_same by reflexivity.
           cbn. rewrite Hq. exact Hs.
        -- rewrite dict_get_set_other in Hent by assumption.
           now rewrite mentions_of_cons_other.
    + apply IH in Hm as (Hkeys & Hd' & Hent);
        [|apply dict_keyed_set; [assumption | reflexivity]].
      rewrite dict_set_keys_new in Hkeys by assumption.
      split; [|split; [assumption|]].
      * rewrite Hkeys, <- app_assoc. cbn.
        rewrite bool_decide_eq_false_2 by now apply dict_get_None.
        do 2 f_equal. apply first_appearances_seen.
        intros x. rewrite elem_of_app, list_elem_of_singleton, elem_of_cons.
        tauto.
      * intros k e' Hk. specialize (Hent k e' Hk).
        destruct (decide (Ingredient_name i = k)) as [<-|Hne].
        -- rewrite dict_get_set in Hent. rewrite Hget.
           destruct Hent as [Hl Hs].
           exists i, (mentions_of (Ingredient_name i) ms).
           now rewrite mentions_of_cons_same.
        -- rewrite dict_get_set_other in Hent by assumption.
           now rewrite mentions_of_cons_other.
Qed.

End Merging.

Section Clash.
Context {F : PyFloat}.

Lemma Quantity_add_optional_exception (a b : option Quantity) e :
  Quantity_add_optional a b = Raise e -> incompatible_addition e.
Proof.
  destruct a as [x|], b as [y|]; cbn; try discriminate.
  destruct (Quantity_add x y) as [q|e'] eqn:Hq; cbn; [discriminate|].
  intros [= <-]. eapply Quantity_add_exception, Hq.
Qed.

Lemma Ingredient_add_exception (seen i : Ingredient) e :
  Ingredient_name seen = Ingredient_name i ->
  Ingredient_add seen i = Raise e -> incompatible_addition e.
Proof.
  intros Hn. unfold Ingredient_add. rewrite bool_decide_eq_true_2 by exact Hn.
  destruct (Quantity_add_optional _ _) as [q|e'] eqn:Hq; cbn; [discriminate|].
  intros [= <-]. eapply Quantity_add_optional_exception, Hq.
Qed.

Lemma raises_same_shape (q q' b : Quantity) :
  Quantity_unit q' = Quantity_unit q ->
  type_of (Quantity_amount q') = type_of (Quantity_amount q) ->
  raises (Quantity_add q b) -> raises (Quantity_add q' b).
Proof.
  intros Hu Ht. rewrite !Quantity_add_raises_iff. now rewrite Hu, Ht.
Qed.

(** Once the dict holds a quantity for a name, a later mention of the
    name with a quantity that cannot be added to it stops the loop. *)
Lemma merge_into_clash rest : forall d seen q j qj,
  dict_keyed d ->
  dict_get (Ingredient_name j) d = Some seen ->
  Ingredient_quantity seen = Some q ->
  j ∈ rest ->
  Ingredient_quantity j = Some qj ->
  raises (Quantity_add q qj) ->
  exists e, merge_into d rest = Raise e /\ incompatible_addition e.
Proof.
  induction rest as [|i rest IH]; intros d seen q j qj Hd Hget Hq Hin Hqj Hr.
  - now apply elem_of_nil in Hin.
  - cbn [merge_into].
    destruct (dict_get (Ingredient_name i) d) as [seen_i|] eqn:Hgi.
    + pose proof (dict_keyed_get _ _ _ Hd Hgi) as Hni.
      destruct (Ingredient_add seen_i i) as [sum|e] eqn:Hadd.
      2:{ exists e. split; [reflexivity|].
          eapply Ingredient_add_exception; eassumption. }
      apply Ingredient_add_Ok in Hadd as (Hname & Hloc & Hsum).
      cbn.
      assert (Hd1 : dict_keyed (dict_set (Ingredient_name i) sum d))
        by (apply dict_keyed_set; [assumption | congruence]).
      destruct (decide (Ingredient_name i = Ingredient_name j)) as [Hij|Hij].
      * rewrite Hij in Hgi. rewrite Hgi in Hget. injection Hget as ->.
        rewrite Hq in Hsum.
        destruct (Ingredient_quantity i) as [qi|] eqn:Hqi; cbn in Hsum.
        -- destruct (Quantity_add q qi) as [q'|] eqn:Hq'; [|discriminate].
           cbn in Hsum. injection Hsum as Hsum.
           apply elem_of_cons in Hin as [->|Hin].
           ++ rewrite Hqi in Hqj. injection Hqj as ->.
              destruct Hr as [e He]. congruence.
           ++ apply Quantity_add_Ok in Hq' as (Hu & _ & Ht & _).
              eapply (IH _ sum q' j qj); eauto.
              ** rewrite Hij. apply dict_get_set.
              ** eapply raises_same_shape; eassumption.
        -- injection Hsum as Hsum.
           apply elem_of_cons in Hin as [->|Hin]; [congruence|].
           eapply (IH _ sum q j qj); eauto.
           rewrite Hij. apply dict_get_set.
      * apply elem_of_cons in Hin as [->|Hin]; [contradiction|].
        eapply (IH _ seen q j qj); eauto.
        now rewrite dict_get_set_other.
    + assert (Hij : Ingredient_name i <> Ingredient_name j) by congruence.
      apply elem_of_cons in Hin as [->|Hin]; [contradiction|].
      eapply (IH _ seen q j qj); eauto.
      * now apply dict_keyed_set.
      * now rewrite dict_get_set_other.
Qed.

Lemma merge_into_app l1 l2 d :
  merge_into d (l1 ++ l2) = merge_into d l1 ≫= fun d' => merge_into d' l2.
Proof.
  revert d. induction l1 as [|i l1 IH]; intros d; [reflexivity|].
  cbn [app merge_into].
  destruct (dict_get (Ingredient_name i) d); [|apply IH].
  destruct (Ingredient_add _ i); cbn; [apply IH | reflexivity].
Qed.

Lemma merge_into_exception ms : forall d e,
  dict_keyed d -> merge_into d ms = Raise e -> incompatible_addition e.
Proof.
  induction ms as [|i ms IH]; intros d e Hd; cbn [merge_into];
    [discriminate|].
  destruct (dict_get (Ingredient_name i) d) as [seen|] eqn:Hg.
  - pose proof (dict_keyed_get _ _ _ Hd Hg) as Hn.
    destruct (Ingredient_add seen i) as [sum|e'] eqn:Hadd; cbn.
    + apply IH. apply dict_keyed_set; [assumption|].
      apply Ingredient_add_Ok in Hadd as (? & _). congruence.
    + intros [= <-]. eapply Ingredient_add_exception; eassumption.
  - apply IH. now apply dict_keyed_set.
Qed.

(** Two mentions of one name whose quantities cannot be added make
    [_remove_duplicates] raise the exception of [Quantity.__add__]. *)
Lemma _remove_duplicates_clash l1 i l2 j l3 a b :
  Ingredient_name i = Ingredient_name j ->
  Ingredient_quantity i = Some a ->
  Ingredient_quantity j = Some b ->
  raises (Quantity_add a b) ->
  exists e, _remove_duplicates (l1 ++ i :: l2 ++ j :: l3) = Raise e /\
            incompatible_addition e.
Proof.
  intros Hij Ha Hb Hr. unfold _remove_duplicates.
  assert (exists e, merge_into [] (l1 ++ i :: l2 ++ j :: l3) = Raise e /\
                    incompatible_addition e) as (e & -> & He);
    [|exists e; split; [reflexivity | assumption]].
  rewrite merge_into_app.
  destruct (merge_into [] l1) as [d1|e] eqn:H1.
  2:{ exists e. split; [reflexivity|].
      eapply merge_into_exception; [constructor | eassumption]. }
  cbn.
  assert (Hd1 : dict_keyed d1).
  { eapply merge_into_spec in H1 as (_ & ? & _); [assumption | constructor]. }
  assert (Hin : j ∈ l2 ++ j :: l3) by (apply elem_of_app; right; left).
  cbn [merge_into].
  destruct (dict_get (Ingredient_name i) d1) as [seen|] eqn:Hg.
  - pose proof (dict_keyed_get _ _ _ Hd1 Hg) as Hn.
    destruct (Ingredient_add seen i) as [sum|e] eqn:Hadd.
    2:{ exists e. split; [reflexivity|].
        eapply Ingredient_add_exception; eassumption. }
    apply Ingredient_add_Ok in Hadd as (Hname & Hloc & Hsum). cbn.
    rewrite Ha in Hsum.
    destruct (Ingredient_quantity seen) as [q0|] eqn:Hq0; cbn in Hsum.
    + destruct (Quantity_add q0 a) as [q'|] eqn:Hq'; [|discriminate].
      cbn in Hsum. injection Hsum as Hsum.
      apply Quantity_add_Ok in Hq' as (_ & Hu & _ & Ht & _).
      eapply (merge_into_clash _ _ sum q' j b); eauto.
      * apply dict_keyed_set; [assumption | congruence].
      * rewrite <- Hij. apply dict_get_set.
      * eapply raises_same_shape; eassumption.
    + injection Hsum as Hsum.
      eapply (merge_into_clash _ _ sum a j b); eauto.
      * apply dict_keyed_set; [assumption | congruence].
      * rewrite <- Hij. apply dict_get_set.
  - eapply (merge_into_clash _ _ i a j b); eauto.
    + now apply dict_keyed_set.
    + rewrite <- Hij. apply dict_get_set.
Qed.

End Clash.

(** ** The stages of [Recipe.parse] *)

Section Assembly.
Context {F : PyFloat}.

Lemma assemble_Ok ps r :
  assemble ps = Ok r ->
  exists ms timers_by_step ingredients,
    scan_steps (map render_step (raw_steps_of ps)) 0 (raw_steps_of ps) []
      = Ok ms /\
    mapM step_timers (raw_steps_of ps) = Ok timers_by_step /\
    _remove_duplicates ms = Ok ingredients /\
    r = mkRecipe
          (dict_of_pairs
             (omap _extract_metadata (List.filter is_metadata_line ps)))
          ingredients
          (map render_step (raw_steps_of ps))
          (concat (map step_cookware (raw_steps_of ps)))
          (concat timers_by_step).
Proof.
  unfold assemble. fold (raw_steps_of ps). intros H.
  apply bind_Ok in H as (ms & Hms & H).
  apply bind_Ok in H as (tbs & Htbs & H).
  apply bind_Ok in H as (ingr & Hingr & H).
  injection H as <-. exists ms, tbs, ingr. auto.
Qed.

Lemma _remove_duplicates_Ok ms l :
  _remove_duplicates ms = Ok l ->
  map Ingredient_name l = first_appearances [] (map Ingredient_name ms) /\
  forall e, e ∈ l ->
    exists first others,
      mentions_of (Ingredient_name e) ms = first :: others /\
      Ingredient_location e = Ingredient_location first /\
      sum_quantities (Ingredient_quantity first)
        (map Ingredient_quantity others) = Ok (Ingredient_quantity e).
Proof.
  unfold _remove_duplicates. intros H.
  apply bind_Ok in H as (d & Hd & [= <-]).
  apply merge_into_spec in Hd as (Hkeys & Hkeyed & Hent); [|constructor].
  cbn in Hkeys. split.
  - now rewrite dict_keyed_names.
  - intros e He. apply list_elem_of_fmap in He as ([k e'] & -> & Hin).
    cbn. assert (Hk : Ingredient_name e' = k).
    { unfold dict_keyed in Hkeyed. rewrite Forall_forall in Hkeyed.
      exact (Hkeyed _ Hin). }
    apply dict_get_NoDup in Hin;
      [|rewrite Hkeys; apply first_appearances_NoDup].
    rewrite Hk. exact (Hent _ _ Hin).
Qed.

End Assembly.

(** ** The ingredients of a recipe *)



(** ** Quantity addition *)

(** C5.  [Quantity.__add__] raises if and only if the units differ (two
    absent units are equal) or the amounts are of different types; what
    it raises is the exception of an incompatible addition.  When it
    succeeds the sum has the unit of its operands and the sum of their
    amounts, rounded with [round(., 1)] for floats.  Two mentions of one
    ingredient whose quantities cannot be added make the whole parse
    fail, with that exception unless a timer has failed to parse before. *)
Theorem C5_quantity_addition `{F : PyFloat} (a b : Quantity) :
  (raises (Quantity_add a b) <->
     Quantity_unit a <> Quantity_unit b \/
     type_of (Quantity_amount a) <> type_of (Quantity_amount b)) /\
  (forall e, Quantity_add a b = Raise e -> incompatible_addition e) /\
  (forall q, Quantity_add a b = Ok q ->
     Quantity_unit q = Quantity_unit a /\
     match Quantity_amount a, Quantity_amount b with
     | a_int x, a_int y => Quantity_amount q = a_int (x + y)
     | a_float x, a_float y =>
         Quantity_amount q = a_float (float_round1 (float_add x y))
     | a_Fraction x, a_Fraction y =>
         Quantity_amount q = a_Fraction (Qred (x + y))
     | _, _ => False
     end) /\
  (forall raw l1 i l2 j l3,
     let raw_steps := raw_steps_of (paragraphs raw) in
     scan_steps (map render_step raw_steps) 0 raw_steps [] =
       Ok (l1 ++ i :: l2 ++ j :: l3) ->
     Ingredient_name i = Ingredient_name j ->
     Ingredient_quantity i = Some a ->
     Ingredient_quantity j = Some b ->
     raises (Quantity_add a b) ->
     exists e, Recipe_parse raw = Raise e /\
               (incompatible_addition e \/
                raises (mapM step_timers raw_steps))).
Proof.
  split; [apply Quantity_add_raises_iff|].
  split; [apply Quantity_add_exception|].
  split.
  - intros q Hq. apply Quantity_add_Ok in Hq as (Hu & _ & _ & _ & Hq). auto.
  - intros raw l1 i l2 j l3 raw_steps Hscan Hij Ha Hb Hr.
    unfold Recipe_parse, assemble. fold (raw_steps_of (paragraphs raw)).
    fold raw_steps. rewrite Hscan. cbn.
    destruct (mapM step_timers raw_steps) as [tbs|e] eqn:Ht.
    + cbn.
      destruct (_remove_duplicates_clash l1 i l2 j l3 a b Hij Ha Hb Hr)
        as (e & -> & He).
      exists e. split; [reflexivity | now left].
    + exists e. split; [reflexivity|]. right. now exists e.
Qed.

Lemma C5_quantity_addition_witness :
  exists e,
    Recipe_parse (F := Tenths) "Add @salt{1%grams} and @salt{1%cups}"
      = Raise e /\
    (incompatible_addition e \/
     raises (mapM (step_timers (F := Tenths))
               (raw_steps_of
                  (paragraphs "Add @salt{1%grams} and @salt{1%cups}")))).
Proof.
  refine (proj2 (proj2 (proj2
    (C5_quantity_addition (F := Tenths)
       (mkQuantity (a_int 1) (Some ("grams" : str)))
       (mkQuantity (a_int 1) (Some ("cups" : str))))))
    "Add @salt{1%grams} and @salt{1%cups}"
    [] (mkIngredient "salt" (0, 4, 8) (Some _)) []
    (mkIngredient "salt" (0, 13, 17) (Some _)) []
    eq_refl eq_refl eq_refl eq_refl _).
  eexists. reflexivity.
Defined.

(** ** The spans of the ingredient mentions *)

Lemma starts_with_take p s : starts_with p s = true -> take (length p) s = p.
Proof.
  revert s. induction p as [|a p IH]; intros [|b s]; cbn; try easy.
  intros H. apply andb_true_iff in H as [Hab Hp].
  apply chr_is_true in Hab as ->. now rewrite IH.
Qed.

Lemma find_sub_Some name text offset :
  find_sub name text = Some offset ->
  starts_with name (drop offset text) = true /\
  forall k, k < offset -> starts_with name (drop k text) = false.
Proof.
  revert offset. induction text as [|c text IH]; intros offset; cbn.
  - destruct (starts_with name []) eqn:E; [|discriminate].
    intros [= <-]. split; [assumption | lia].
  - destruct (starts_with name (c :: text)) eqn:E.
    + intros [= <-]. split; [assumption | lia].
    + destruct (find_sub name text) as [k'|] eqn:Hf; [|discriminate].
      intros [= <-]. destruct (IH k' eq_refl) as [H1 H2].
      split; [exact H1|]. intros [|k] Hk; [exact E|]. apply H2. lia.
Qed.

Section Spans.
Context {F : PyFloat}.

Lemma Ingredient_parse_Ok raw step_index steps current b :
  Ingredient_parse raw step_index steps current = Ok b ->
  exists step offset,
    steps !! step_index = Some step /\
    find_sub (Ingredient_name b)
      (drop (previous_end step_index current) step) = Some offset /\
    Ingredient_location b =
      (step_index,
       offset + previous_end step_index current,
       offset + length (Ingredient_name b) + previous_end step_index current).
Proof.
  unfold Ingredient_parse. fold (previous_end step_index current).
  destruct (name_and_amount "@" false raw) as [|[name raw_amount] rest];
    [discriminate|].
  destruct (steps !! step_index) as [step|]; [|discriminate].
  destruct (find_sub name _) as [offset|] eqn:Hf; [|discriminate].
  intros H. apply bind_Ok in H as (q & _ & [= <-]). cbn.
  exists step, offset. auto.
Qed.

Lemma scan_step_recorded steps step_index matches : forall acc ms,
  recorded steps acc ->
  scan_step steps step_index matches acc = Ok ms ->
  recorded steps ms.
Proof.
  induction matches as [|m matches IH]; intros acc ms Hacc; cbn.
  - now intros [= <-].
  - intros H. apply bind_Ok in H as (i & Hi & H).
    eapply IH; [|exact H]. econstructor; eassumption.
Qed.

Lemma scan_steps_recorded steps raw_steps : forall step_index acc ms,
  recorded steps acc ->
  scan_steps steps step_index raw_steps acc = Ok ms ->
  recorded steps ms.
Proof.
  induction raw_steps as [|raw_step raw_steps IH];
    intros step_index acc ms Hacc; cbn.
  - now intros [= <-].
  - intros H. apply bind_Ok in H as (acc' & Hacc' & H).
    eapply IH; [|exact H]. eapply scan_step_recorded; eassumption.
Qed.

Lemma previous_end_snoc_same s ms c :
  step_of c = s -> previous_end s (ms ++ [c]) = end_of c.
Proof.
  intros Hc. unfold previous_end. rewrite List.filter_app. cbn.
  rewrite (proj2 (Nat.eqb_eq _ _) Hc). now rewrite last_snoc.
Qed.

Lemma previous_end_snoc_other s ms c :
  step_of c <> s -> previous_end s (ms ++ [c]) = previous_end s ms.
Proof.
  intros Hc. unfold previous_end. rewrite List.filter_app. cbn.
  rewrite (proj2 (Nat.eqb_neq _ _) Hc). now rewrite app_nil_r.
Qed.

(** The last mention of a step ends behind all the others. *)
Lemma previous_end_max ms : forall s a,
  StronglySorted span_before ms ->
  Forall (fun a => start_of a <= end_of a) ms ->
  a ∈ ms -> step_of a = s -> end_of a <= previous_end s ms.
Proof.
  induction ms as [|c ms IH] using rev_ind; intros s a Hs Hw Hin Ha.
  - now apply elem_of_nil in Hin.
  - apply Forall_app in Hw as [Hw Hc].
    destruct (decide (step_of c = s)) as [Hcs|Hcs].
    + rewrite previous_end_snoc_same by assumption.
      apply elem_of_app in Hin as [Hin|Hin].
      * assert (span_before a c) as Hac.
        { eapply StronglySorted_app_1_elem_of; [exact Hs | exact Hin | left]. }
        apply Forall_inv in Hc. unfold span_before in Hac.
        specialize (Hac ltac:(congruence)). lia.
      * apply list_elem_of_singleton in Hin as ->. lia.
    + rewrite previous_end_snoc_other by assumption.
      apply elem_of_app in Hin as [Hin|Hin].
      * apply IH; try assumption.
        eapply StronglySorted_app_1_l; exact Hs.
      * apply list_elem_of_singleton in Hin as ->. contradiction.
Qed.

Lemma recorded_sorted steps ms :
  recorded steps ms ->
  StronglySorted span_before ms /\
  Forall (fun a => start_of a <= end_of a) ms.
Proof.
  induction 1 as [|ms raw step_index b _ [IHs IHw] Hb].
  - split; constructor.
  - apply Ingredient_parse_Ok in Hb as (step & offset & _ & _ & Hloc).
    assert (Hstep : step_of b = step_index)
      by (unfold step_of; now rewrite Hloc).
    assert (Hstart : start_of b = offset + previous_end step_index ms)
      by (unfold start_of; now rewrite Hloc).
    assert (Hend : end_of b = offset + length (Ingredient_name b) +
                              previous_end step_index ms)
      by (unfold end_of; now rewrite Hloc).
    split.
    + apply StronglySorted_app_2; [|assumption | repeat constructor].
      intros a b' Ha Hb'. apply list_elem_of_singleton in Hb' as ->.
      intros Hab.
      pose proof (previous_end_max ms step_index a IHs IHw Ha
                    ltac:(congruence)).
      lia.
    + apply Forall_app. split; [assumption|].
      constructor; [lia | constructor].
Qed.

Lemma recorded_lookup steps ms :
  recorded steps ms ->
  forall j b, ms !! j = Some b ->
    exists raw, Ingredient_parse raw (step_of b) steps (take j ms) = Ok b.
Proof.
  induction 1 as [|ms raw step_index b Hms IH Hb]; intros j c Hj.
  - discriminate.
  - destruct (decide (j < length ms)) as [Hlt|Hge].
    + rewrite lookup_app_l in Hj by assumption.
      rewrite take_app_le by lia. now apply IH.
    + assert (j = length ms) as ->.
      { apply lookup_lt_Some in Hj. rewrite length_app in Hj. cbn in Hj. lia. }
      rewrite list_lookup_middle in Hj by reflexivity. injection Hj as <-.
      rewrite take_app_length. exists raw.
      pose proof Hb as Hb'.
      apply Ingredient_parse_Ok in Hb' as (step & offset & _ & _ & Hloc).
      unfold step_of. now rewrite Hloc.
Qed.

End Spans.

(** C9.  When the scan of the ingredient mentions succeeds, two mentions
    recorded on the same step line have spans that do not overlap: the
    earlier one ends at or before the start of the later one, also when
    both bear the same name.  Each span is found by searching the
    rendered line for the name from the end of the previous mention
    recorded on that line (from 0 when there is none), and the rendered
    line holds the name at that span. *)
Theorem C9_spans_do_not_overlap `{F : PyFloat} (raw : str)
    (ms : list Ingredient) :
  let raw_steps := raw_steps_of (paragraphs raw) in
  let steps := map render_step raw_steps in
  scan_steps steps 0 raw_steps [] = Ok ms ->
  (forall i j a b,
     ms !! i = Some a -> ms !! j = Some b -> i < j ->
     step_of a = step_of b ->
     start_of a <= end_of a /\ end_of a <= start_of b /\
     start_of b <= end_of b) /\
  (forall j b, ms !! j = Some b ->
     exists step offset,
       let from := previous_end (step_of b) (take j ms) in
       steps !! step_of b = Some step /\
       find_sub (Ingredient_name b) (drop from step) = Some offset /\
       start_of b = offset + from /\
       end_of b = start_of b + length (Ingredient_name b) /\
       take (length (Ingredient_name b)) (drop (start_of b) step) =
         Ingredient_name b).
Proof.
  intros raw_steps steps Hscan.
  assert (Hrec : recorded steps ms).
  { eapply scan_steps_recorded; [constructor | exact Hscan]. }
  destruct (recorded_sorted _ _ Hrec) as [Hsorted Hwf].
  split.
  - intros i j a b Hi Hj Hij Hab.
    rewrite Forall_forall in Hwf.
    pose proof (Hwf a (list_elem_of_lookup_2 _ _ _ Hi)) as Ha.
    pose proof (Hwf b (list_elem_of_lookup_2 _ _ _ Hj)) as Hb.
    split; [exact Ha|]. split; [|exact Hb].
    rewrite <- (take_drop j ms) in Hsorted.
    eapply (StronglySorted_app_1_elem_of _ _ _ a b Hsorted); [| |exact Hab].
    + apply list_elem_of_lookup. exists i. rewrite lookup_take_lt; assumption.
    + apply list_elem_of_lookup. exists 0. rewrite lookup_drop.
      now rewrite Nat.add_0_r.
  - intros j b Hj.
    destruct (recorded_lookup _ _ Hrec j b Hj) as [raw' Hb].
    apply Ingredient_parse_Ok in Hb as (step & offset & Hstep & Hfind & Hloc).
    exists step, offset. cbn zeta.
    assert (Hstart : start_of b =
                     offset + previous_end (step_of b) (take j ms))
      by (unfold start_of; now rewrite Hloc).
    assert (Hend : end_of b = offset + length (Ingredient_name b) +
                              previous_end (step_of b) (take j ms))
      by (unfold end_of; now rewrite Hloc).
    repeat split; try assumption; [lia|].
    apply find_sub_Some in Hfind as [Hfind _].
    apply starts_with_take in Hfind.
    rewrite drop_drop in Hfind.
    rewrite Hstart, (Nat.add_comm offset). exact Hfind.
Qed.

Lemma C9_spans_do_not_overlap_witness :
  exists a b,
    scan_steps (F := Tenths)
      (map render_step (raw_steps_of (paragraphs "Add @salt and @salt")))
      0 (raw_steps_of (paragraphs "Add @salt and @salt")) [] = Ok [a; b] /\
    Ingredient_name a = Ingredient_name b /\
    end_of a <= start_of b.
Proof.
  eexists _, _. split; [reflexivity|]. split; [reflexivity|].
  refine (proj1 (proj2 (proj1
    (C9_spans_do_not_overlap (F := Tenths) "Add @salt and @salt" _ eq_refl)
    0 1 _ _ eq_refl eq_refl _ eq_refl))).
  lia.
Defined.

(** ** Cookware, timers and metadata lines *)

(** C8.  When the parse succeeds, the cookware of the recipe is the
    sequence of the names of all the matches of the cookware pattern, step
    after step and from left to right in a step, and the timers are the
    results of [Timer.parse] on all the matches of the timer pattern, in
    the same order: one entry for each mention, none merged.  Two mentions
    of [#pan] give two entries "pan". *)
Theorem C8_cookware_and_timers_not_merged `{F : PyFloat} :
  (forall (raw : str) (r : Recipe),
     Recipe_parse raw = Ok r ->
     let raw_steps := raw_steps_of (paragraphs raw) in
     Recipe_cookware r =
       map cookware_name (concat (map (findall cookware_pat) raw_steps)) /\
     Forall2 (fun m t => Timer_parse (matched m) = Ok t)
       (concat (map (findall timer_pat) raw_steps)) (Recipe_timers r) /\
     length (Recipe_cookware r) =
       length (concat (map (findall cookware_pat) raw_steps)) /\
     length (Recipe_timers r) =
       length (concat (map (findall timer_pat) raw_steps))) /\
  Recipe_cookware <$> Recipe_parse "Heat the #pan, oil the #pan" =
    Ok ["pan" : str; "pan" : str].
Proof.
  split; [|vm_compute; reflexivity].
  intros raw r H raw_steps. unfold Recipe_parse in H.
  apply assemble_Ok in H as (ms & tbs & ingr & _ & Htbs & _ & ->).
  cbn [Recipe_cookware Recipe_timers]. subst raw_steps.
  set (raw_steps := raw_steps_of (paragraphs raw)) in *.
  assert (Hc : concat (map step_cookware raw_steps) =
               map cookware_name
                 (concat (map (findall cookware_pat) raw_steps))).
  { rewrite concat_map, map_map. reflexivity. }
  assert (Ht : Forall2 (fun m t => Timer_parse (matched m) = Ok t)
                 (concat (map (findall timer_pat) raw_steps)) (concat tbs)).
  { apply mapM_Ok in Htbs. clear -Htbs.
    induction Htbs as [|raw_step k ls ks Hk _ IH]; cbn; [constructor|].
    apply Forall2_app; [|exact IH].
    unfold step_timers in Hk. apply mapM_Ok in Hk.
    now apply Forall2_fmap_l in Hk. }
  repeat split.
  - exact Hc.
  - exact Ht.
  - rewrite Hc. apply length_map.
  - symmetry. eapply Forall2_length, Ht.
Qed.

Lemma C8_cookware_and_timers_not_merged_witness :
  exists r,
    Recipe_parse (F := Tenths) "Rest ~{5%min} then ~{5%min} in the #pan"
      = Ok r /\
    length (Recipe_timers r) = 2.
Proof.
  eexists. split; [reflexivity|].
  exact (proj2 (proj2 (proj2 (proj1
    (C8_cookware_and_timers_not_merged (F := Tenths))
    "Rest ~{5%min} then ~{5%min} in the #pan" _ eq_refl)))).
Defined.

Section MetadataLines.
Context {F : PyFloat}.

(** The part of [Recipe.parse] that makes the step fields, as a function
    of the step lines alone. *)
Lemma step_fields_assemble ps :
  step_fields <$> assemble ps =
  (let raw_steps := raw_steps_of ps in
   let steps := map render_step raw_steps in
   ms ← scan_steps steps 0 raw_steps [];
   timers_by_step ← mapM step_timers raw_steps;
   ingredients ← _remove_duplicates ms;
   Ok (ingredients, concat (map step_cookware raw_steps),
       concat timers_by_step, steps)).
Proof.
  unfold assemble. fold (raw_steps_of ps). cbn zeta.
  destruct (scan_steps _ _ _ _) as [ms|e]; [|reflexivity]. cbn.
  destruct (mapM step_timers _) as [tbs|e]; [|reflexivity]. cbn.
  destruct (_remove_duplicates ms) as [ingr|e]; reflexivity.
Qed.

Lemma raw_steps_of_metadata_line ps1 line ps2 :
  is_metadata_line line = true ->
  raw_steps_of (ps1 ++ line :: ps2) = raw_steps_of (ps1 ++ ps2).
Proof.
  intros H. unfold raw_steps_of. rewrite !List.filter_app.
  cbn [List.filter]. now rewrite H.
Qed.

End MetadataLines.

(** C10.  A trimmed, non-empty line that starts with ">>" adds nothing
    to the ingredients, the cookware, the timers or the steps, whatever
    it holds: a text with such a line and the text without it give the
    same four fields, or fail with the same exception. *)
Theorem C10_metadata_lines_hold_no_annotations `{F : PyFloat}
    (raw raw' : str) (ps1 ps2 : list str) (line : str) :
  paragraphs raw = ps1 ++ line :: ps2 ->
  paragraphs raw' = ps1 ++ ps2 ->
  is_metadata_line line = true ->
  step_fields <$> Recipe_parse raw = step_fields <$> Recipe_parse raw'.
Proof.
  intros Hraw Hraw' Hline. unfold Recipe_parse.
  rewrite !step_fields_assemble, Hraw, Hraw'.
  now rewrite raw_steps_of_metadata_line.
Qed.

Lemma C10_metadata_lines_hold_no_annotations_witness :
  step_fields <$>
    Recipe_parse (F := Tenths)
      ("Boil @water" ++ newline ::
       ">> tip: add @salt{1%g} to the #pot for ~{5%min}" ++ newline ::
       "Serve") =
  step_fields <$>
    Recipe_parse (F := Tenths) ("Boil @water" ++ newline :: "Serve").
Proof.
  apply (C10_metadata_lines_hold_no_annotations (F := Tenths) _ _
           ["Boil @water" : str] ["Serve" : str]
           ">> tip: add @salt{1%g} to the #pot for ~{5%min}");
    reflexivity.
Defined.

(** ** Metadata *)

Lemma strip_blank c s : is_space c = true -> strip (c :: s) = strip s.
Proof. intros H. unfold strip, lstrip. cbn. now rewrite H. Qed.

Lemma match_metadata_shape key value :
  key <> [] ->
  all_chars (not_chr ":") key ->
  all_chars (not_chr newline) value ->
  exists key' value',
    match_metadata (">>" ++ key ++ ":"%char :: value) = Some (key', value') /\
    strip key' = strip key /\ strip value' = strip value.
Proof.
  intros Hne Hkey Hvalue. unfold match_metadata.
  change (starts_with ">>" (">>" ++ key ++ ":"%char :: value)) with true.
  change (drop 2 (">>" ++ key ++ ":"%char :: value))
    with (key ++ ":"%char :: value).
  cbv iota zeta.
  rewrite take_while_stop, drop_while_stop by (assumption || reflexivity).
  set (value_zone :=
         match value with
         | [] => []
         | sp :: v => if chr_is sp " " then v else value
         end).
  assert (Hvz : all_chars (not_chr newline) value_zone /\
                strip value_zone = strip value).
  { subst value_zone. destruct value as [|sp v]; [split; [constructor|reflexivity]|].
    destruct (chr_is sp " ") eqn:E; [|split; [assumption | reflexivity]].
    apply chr_is_true in E as ->. split; [now apply Forall_inv_tail in Hvalue|].
    symmetry. now apply strip_blank. }
  destruct Hvz as [Hvz Hsv].
  rewrite take_while_whole, drop_while_whole by assumption.
  destruct key as [|sp [|c k]]; [contradiction| |].
  - eexists _, _. split; [reflexivity|]. auto.
  - destruct (chr_is sp " ") eqn:E.
    + apply chr_is_true in E as ->.
      eexists _, _. split; [reflexivity|]. split; [|assumption].
      symmetry. now apply strip_blank.
    + eexists _, _. split; [reflexivity|]. auto.
Qed.

Lemma _extract_metadata_shape key value :
  key <> [] ->
  all_chars (not_chr ":") key ->
  all_chars (not_chr newline) value ->
  _extract_metadata (">>" ++ key ++ ":"%char :: value) =
  Some (strip key, strip value).
Proof.
  intros Hne Hkey Hvalue.
  destruct (match_metadata_shape key value Hne Hkey Hvalue)
    as (key' & value' & Hm & Hk & Hv).
  unfold _extract_metadata. rewrite Hm. now rewrite Hk, Hv.
Qed.

Lemma _extract_metadata_no_shape body :
  all_chars (not_chr newline) body ->
  _extract_metadata (">>" ++ body) = None <->
  all_chars (not_chr ":") body \/ exists t, body = ":"%char :: t.
Proof.
  intros Hnl. split.
  - intros Hnone.
    destruct (drop_while (not_chr ":") body) as [|c value] eqn:Hd.
    + left. rewrite <- (take_drop_while (not_chr ":") body), Hd, app_nil_r.
      apply take_while_all.
    + assert (c = ":"%char) as ->.
      { apply drop_while_head in Hd. unfold not_chr in Hd.
        apply negb_false_iff, chr_is_true in Hd. exact Hd. }
      destruct (take_while (not_chr ":") body) as [|k0 key] eqn:Ht.
      * right. exists value.
        now rewrite <- (take_drop_while (not_chr ":") body), Ht, Hd.
      * exfalso.
        rewrite <- (take_drop_while (not_chr ":") body), Ht, Hd in Hnone, Hnl.
        rewrite _extract_metadata_shape in Hnone; [discriminate|discriminate| |].
        -- rewrite <- Ht. apply take_while_all.
        -- apply Forall_app in Hnl as [_ Hnl]. now apply Forall_inv_tail in Hnl.
  - intros [Hall|[t ->]]; unfold _extract_metadata, match_metadata.
    + change (starts_with ">>" (">>" ++ body)) with true.
      change (drop 2 (">>" ++ body)) with body. cbv iota zeta.
      now rewrite drop_while_whole.
    + reflexivity.
Qed.

Lemma dict_of_pairs_snoc l k v :
  dict_of_pairs (l ++ [(k, v)]) = <[k := v]> (dict_of_pairs l).
Proof. unfold dict_of_pairs. now rewrite foldl_snoc. Qed.

Lemma dict_of_pairs_absent l k :
  k ∉ l.*1 -> dict_of_pairs l !! k = None.
Proof.
  induction l as [|[k' v'] l IH] using rev_ind; intros Hk.
  - apply lookup_empty.
  - rewrite dict_of_pairs_snoc. rewrite fmap_app, not_elem_of_app in Hk.
    destruct Hk as [Hl Hk']. cbn in Hk'. rewrite list_elem_of_singleton in Hk'.
    rewrite lookup_insert_ne by congruence. now apply IH.
Qed.

(** A later pair overwrites the earlier pairs of its key. *)
Lemma dict_of_pairs_last l1 k v l2 :
  k ∉ l2.*1 -> dict_of_pairs (l1 ++ (k, v) :: l2) !! k = Some v.
Proof.
  induction l2 as [|[k' v'] l2 IH] using rev_ind; intros Hk.
  - rewrite dict_of_pairs_snoc. apply lookup_insert_eq.
  - rewrite fmap_app, not_elem_of_app in Hk. destruct Hk as [Hl Hk'].
    cbn in Hk'. rewrite list_elem_of_singleton in Hk'.
    rewrite app_comm_cons, app_assoc, dict_of_pairs_snoc.
    rewrite lookup_insert_ne by congruence. now apply IH.
Qed.

Lemma split_lines_no_newline s :
  Forall (all_chars (not_chr newline)) (split_lines s).
Proof.
  induction s as [|c s IH]; cbn.
  - repeat constructor.
  - destruct (chr_is c newline) eqn:E.
    + constructor; [constructor | exact IH].
    + destruct (split_lines s) as [|l ls].
      { constructor; [|constructor].
        constructor; [unfold not_chr; now rewrite E | constructor]. }
      apply Forall_cons in IH as [Hl Hls].
      constructor; [|exact Hls].
      constructor; [unfold not_chr; now rewrite E | exact Hl].
Qed.

Lemma all_chars_drop_while p q s :
  all_chars p s -> all_chars p (drop_while q s).
Proof.
  induction 1 as [|c s Hc Hs IH]; cbn; [constructor|].
  destruct (q c); [exact IH | now constructor].
Qed.

Lemma all_chars_strip p s : all_chars p s -> all_chars p (strip s).
Proof.
  intros H. unfold strip, rstrip, lstrip, all_chars.
  apply Forall_rev, all_chars_drop_while, Forall_rev.
  now apply all_chars_drop_while.
Qed.

(** A paragraph is a line: it holds no line break, and it is not empty. *)
Lemma paragraphs_lines raw line :
  line ∈ paragraphs raw -> all_chars (not_chr newline) line /\ line <> [].
Proof.
  unfold paragraphs. intros H. apply list_elem_of_In, filter_In in H as [H Hne].
  split; [|now destruct line].
  apply in_map_iff in H as (l & <- & H).
  apply all_chars_strip.
  pose proof (split_lines_no_newline (strip_comments raw)) as Hall.
  rewrite Forall_forall in Hall. apply Hall. now apply list_elem_of_In.
Qed.

(** C7.  The metadata of a recipe is the dict of the pairs that
    [_extract_metadata] yields on the lines that start with ">>", in the
    order of the lines.  A line ">>", a key without colon that is not
    empty, a colon and a value yields the key and the value, both
    stripped of surrounding white space; a ">>" line yields nothing, and
    no exception, exactly when it holds no colon or has nothing between
    ">>" and its first colon (the lines of a text hold no line break).
    In the dict the pair of a later line overwrites the pairs of the same
    key before it.  The two lines of the specification give the two
    expected entries. *)
Theorem C7_metadata_lines `{F : PyFloat} :
  (forall (raw : str) (r : Recipe),
     Recipe_parse raw = Ok r ->
     Recipe_metadata r =
       dict_of_pairs
         (omap _extract_metadata
            (List.filter is_metadata_line (paragraphs raw)))) /\
  (forall key value : str,
     key <> [] ->
     all_chars (not_chr ":") key ->
     all_chars (not_chr newline) value ->
     _extract_metadata (">>" ++ key ++ ":"%char :: value) =
       Some (strip key, strip value)) /\
  (forall body : str,
     all_chars (not_chr newline) body ->
     _extract_metadata (">>" ++ body) = None <->
     all_chars (not_chr ":") body \/ exists t, body = ":"%char :: t) /\
  (forall (l1 l2 : list (str * str)) (k v : str),
     k ∉ l2.*1 -> dict_of_pairs (l1 ++ (k, v) :: l2) !! k = Some v) /\
  (forall (l : list (str * str)) (k : str),
     k ∉ l.*1 -> dict_of_pairs l !! k = None) /\
  (forall raw line : str,
     line ∈ paragraphs raw ->
     all_chars (not_chr newline) line /\ line <> []) /\
  Recipe_metadata <$>
    Recipe_parse
      (">> time: 15 mins" ++ newline :: ">>  weird spacing  :   every where")
  = Ok (<[("weird spacing" : str) := ("every where" : str)]>
          (<[("time" : str) := ("15 mins" : str)]> ∅)).
Proof.
  split.
  { intros raw r H. unfold Recipe_parse in H.
    apply assemble_Ok in H as (ms & tbs & ingr & _ & _ & _ & ->).
    reflexivity. }
  split; [intros; now apply _extract_metadata_shape|].
  split; [intros; now apply _extract_metadata_no_shape|].
  split; [intros; now apply dict_of_pairs_last|].
  split; [intros; now apply dict_of_pairs_absent|].
  split; [apply paragraphs_lines|].
  destruct (Recipe_parse _) as [r|e] eqn:E.
  - unfold Recipe_parse in E.
    apply assemble_Ok in E as (ms & tbs & ingr & _ & _ & _ & ->).
    reflexivity.
  - vm_compute in E. discriminate.
Qed.

Lemma C7_metadata_lines_witness :
  _extract_metadata ">>  weird spacing  :   every where" =
  Some ("weird spacing" : str, "every where" : str).
Proof.
  refine (proj1 (proj2 (C7_metadata_lines (F := Tenths)))
            "  weird spacing  " "   every where" _ _ _).
  - discriminate.
  - unfold all_chars. repeat constructor.
  - unfold all_chars. repeat constructor.
Defined.

(** ** Malformed quantities *)

Section Malformed.
Context {F : PyFloat}.

Lemma _get_quantity_read amount unit rest :
  amount <> [] ->
  _get_quantity ((amount, unit) :: rest) =
  n ← read_number (selected_type amount) amount;
  Ok (Some (mkQuantity n (unit_of unit))).
Proof.
  intros Hne. destruct amount as [|c amount]; [contradiction|].
  unfold _get_quantity, read_number, selected_type, unit_of.
  destruct (contains_chr "." (c :: amount)).
  - destruct (py_float (c :: amount)); reflexivity.
  - destruct (contains_chr "/" (c :: amount)).
    + destruct (py_Fraction (c :: amount)); reflexivity.
    + destruct (py_int (c :: amount)); reflexivity.
Qed.

Lemma read_number_exception t text e :
  read_number t text = Raise e -> malformed_quantity text e.
Proof.
  unfold read_number, malformed_quantity. destruct t.
  - unfold py_int. destruct (signed_digits _); cbn; [discriminate|].
    intros [= <-]. left. eauto.
  - destruct (py_float text); [discriminate|].
    intros [= <-]. left. eauto.
  - unfold py_Fraction.
    destruct (strip text) as [|c t]; cbn.
    + intros [= <-]. left. eauto.
    + repeat match goal with
        | |- context [if ?b then _ else _] => destruct b
        | |- context [match ?x with _ => _ end] => destruct x
        end; cbn; intros [= <-]; eauto.
Qed.






End Malformed.


(** *** Where an exception of the parse comes from *)

Lemma scan_from_elem {B} (pat : str -> option (nat * B)) s : forall k b,
  b ∈ scan_from pat k s -> exists s' n, pat s' = Some (n, b).
Proof.
  induction s as [|c s IH]; intros k b Hin; cbn in Hin.
  - now apply elem_of_nil in Hin.
  - destruct k as [|k]; [|eauto].
    destruct (pat (c :: s)) as [[n b']|] eqn:Hp; [|eauto].
    apply elem_of_cons in Hin as [->|Hin]; eauto.
Qed.

Lemma is_name_char_not_brace c : is_name_char c = true -> not_chr "{" c = true.
Proof.
  intros H. apply not_chr_true. intros ->. discriminate H.
Qed.

Lemma is_word_name_char c : is_word c = true -> is_name_char c = true.
Proof. intros H. unfold is_name_char. now rewrite H. Qed.

Lemma take_while_cons_inv p s c r :
  take_while p s = c :: r -> exists t, s = c :: t /\ p c = true.
Proof.
  destruct s as [|d t]; cbn; [discriminate|].
  destruct (p d) eqn:E; [|discriminate].
  intros [= -> _]. eauto.
Qed.

(** The name that [Ingredient.parse] takes out of a match of [ingr_pat]
    is made of word characters and blanks: as a pattern, it stands for
    itself. *)
Lemma ingr_pat_name_literal s n m name raw_amount rest :
  ingr_pat s = Some (n, m) ->
  name_and_amount "@" false (matched m) = (name, raw_amount) :: rest ->
  all_chars is_name_char name.
Proof.
  unfold ingr_pat, match_annotation. destruct s as [|c t]; [discriminate|].
  destruct (chr_is c "@") eqn:Hc; [|discriminate].
  assert (Hname : forall run after,
            all_chars is_name_char run ->
            (forall b u, after = b :: u -> b = "{"%char) ->
            name_and_amount "@" false (c :: run ++ after) =
              (name, raw_amount) :: rest ->
            name = run).
  { intros run after Hrun Hafter. unfold name_and_amount. rewrite Hc.
    assert (Ht : take_while (not_chr "{") (run ++ after) = run).
    { destruct after as [|b u].
      - rewrite app_nil_r. apply take_while_whole.
        eapply all_chars_weaken; [apply is_name_char_not_brace | exact Hrun].
      - rewrite (Hafter b u eq_refl). apply take_while_stop; [|reflexivity].
        eapply all_chars_weaken; [apply is_name_char_not_brace | exact Hrun]. }
    rewrite Ht. destruct (false || negb (length run =? 0)); [|discriminate].
    destruct (brace_group_length _); now intros [= <- _ _]. }
  destruct ((false || negb (length (take_while is_name_char t) =? 0)) &&
            negb (brace_group_length (drop_while is_name_char t) =? 0))
    eqn:Hcond.
  - intros [= _ <-]. cbn [matched]. intros Hn.
    apply andb_true_iff in Hcond as [_ Hb].
    cbn [Nat.add take] in Hn.
    assert (Ht : take (length (take_while is_name_char t) +
                       brace_group_length (drop_while is_name_char t)) t =
                 take_while is_name_char t ++
                 take (brace_group_length (drop_while is_name_char t))
                   (drop_while is_name_char t)).
    { rewrite <- (take_drop_while is_name_char t) at 3.
      now rewrite take_app_add'. }
    rewrite Ht in Hn.
    assert (Hafter : forall b u,
              take (brace_group_length (drop_while is_name_char t))
                (drop_while is_name_char t) = b :: u -> b = "{"%char).
    { intros b u Hbu.
      destruct (drop_while is_name_char t) as [|b' u'] eqn:Hd;
        [discriminate Hb|].
      unfold brace_group_length in Hb, Hbu.
      destruct (chr_is b' "{") eqn:Hb'; [|discriminate Hb].
      apply chr_is_true in Hb' as ->.
      destruct (drop_while (not_chr "}") u'); [discriminate Hb|].
      rewrite Nat.add_comm in Hbu. cbn in Hbu. congruence. }
    rewrite (Hname _ _ (take_while_all _ _) Hafter Hn). apply take_while_all.
  - destruct (take_while is_word t) as [|w0 word] eqn:Hw; [discriminate|].
    intros [= _ <-]. cbn [matched]. intros Hn.
    assert (Hword : all_chars is_name_char (w0 :: word)).
    { rewrite <- Hw. eapply all_chars_weaken;
        [apply is_word_name_char | apply take_while_all]. }
    rewrite <- (app_nil_r (w0 :: word)) in Hn.
    rewrite (Hname (w0 :: word) [] Hword ltac:(intros; discriminate) Hn).
    exact Hword.
Qed.

(** [findall(...)[0]] finds its match in the text of an annotation. *)
Lemma match_annotation_named sigil empty_ok s n m :
  match_annotation sigil empty_ok s = Some (n, m) ->
  name_and_amount sigil empty_ok (matched m) <> [].
Proof.
  unfold match_annotation. destruct s as [|c t]; [discriminate|].
  destruct (chr_is c sigil) eqn:Hc; [|discriminate].
  assert (Hhead : forall r0 rest,
            is_name_char r0 = true ->
            name_and_amount sigil empty_ok (c :: r0 :: rest) <> []).
  { intros r0 rest Hr0. unfold name_and_amount. rewrite Hc.
    cbn [take_while drop_while]. rewrite (is_name_char_not_brace _ Hr0).
    cbn [length Nat.eqb negb]. rewrite orb_true_r.
    destruct (brace_group_length _); discriminate. }
  destruct ((empty_ok || negb (length (take_while is_name_char t) =? 0)) &&
            negb (brace_group_length (drop_while is_name_char t) =? 0))
    eqn:Hcond.
  - intros [= _ <-]. cbn [matched].
    apply andb_true_iff in Hcond as [Hrun Hb].
    destruct (take_while is_name_char t) as [|r0 run] eqn:Hrun'.
    + destruct empty_ok; [|discriminate Hrun].
      cbn [length Nat.add take]. unfold name_and_amount. rewrite Hc.
      cbn [orb].
      match goal with
      | |- match ?x with _ => _ end <> [] => destruct x
      end; discriminate.
    + apply take_while_cons_inv in Hrun' as (t' & -> & Hr0).
      cbn [length Nat.add take]. now apply Hhead.
  - destruct (take_while is_word t) as [|w0 word] eqn:Hw; [discriminate|].
    intros [= _ <-]. cbn [matched].
    apply take_while_cons_inv in Hw as (t' & _ & Hw0).
    apply Hhead. now apply is_word_name_char.
Qed.

Lemma mapM_Raise {A B} (f : A -> result B) l e :
  mapM f l = Raise e -> exists x, x ∈ l /\ f x = Raise e.
Proof.
  induction l as [|x l IH]; cbn; [discriminate|].
  destruct (f x) as [y|e'] eqn:Hx; cbn.
  - destruct (mapM f l) as [k|e'']; cbn; [discriminate|].
    intros [= <-]. destruct (IH eq_refl) as (x' & Hin & Hx').
    exists x'. split; [now right | assumption].
  - intros [= <-]. exists x. split; [left | assumption].
Qed.

Section Exceptions.
Context {F : PyFloat}.

Lemma _get_quantity_exception matches e :
  _get_quantity matches = Raise e -> exists text, malformed_quantity text e.
Proof.
  destruct matches as [|[amount unit] rest]; [discriminate|].
  destruct amount as [|c amount]; [discriminate|].
  rewrite _get_quantity_read by discriminate.
  destruct (read_number _ _) as [n|e'] eqn:Hr; [discriminate|].
  intros [= <-]. exists (c :: amount). eapply read_number_exception, Hr.
Qed.

Lemma Timer_parse_exception raw e :
  name_and_amount "~" true raw <> [] ->
  Timer_parse raw = Raise e -> exists text, malformed_quantity text e.
Proof.
  intros Hn. unfold Timer_parse.
  destruct (name_and_amount "~" true raw) as [|[name raw_amount] rest];
    [contradiction|].
  destruct (_get_quantity _) as [q|e'] eqn:Hq; [discriminate|].
  intros [= <-]. eapply _get_quantity_exception, Hq.
Qed.

Lemma Ingredient_parse_exception raw step_index steps cur e :
  name_and_amount "@" false raw <> [] ->
  step_index < length steps ->
  Ingredient_parse raw step_index steps cur = Raise e ->
  e = NoneHasNoStart \/ exists text, malformed_quantity text e.
Proof.
  intros Hn Hi. unfold Ingredient_parse.
  destruct (name_and_amount "@" false raw) as [|[name raw_amount] rest];
    [contradiction|].
  destruct (lookup_lt_is_Some_2 steps step_index Hi) as [step ->].
  destruct (find_sub name _); [|intros [= <-]; now left].
  destruct (_get_quantity _) as [q|e'] eqn:Hq; [discriminate|].
  intros [= <-]. right. eapply _get_quantity_exception, Hq.
Qed.

Lemma scan_step_exception steps step_index matches : forall acc e,
  Forall (fun m => name_and_amount "@" false (matched m) <> []) matches ->
  step_index < length steps ->
  scan_step steps step_index matches acc = Raise e ->
  e = NoneHasNoStart \/ exists text, malformed_quantity text e.
Proof.
  induction matches as [|m matches IH]; intros acc e Hm Hi; cbn;
    [discriminate|].
  apply Forall_cons in Hm as [Hm Hms].
  destruct (Ingredient_parse _ _ _ _) as [i|e'] eqn:Hp; cbn.
  - now apply IH.
  - intros [= <-]. eapply Ingredient_parse_exception; eassumption.
Qed.

Lemma findall_ingr_pat_named line :
  Forall (fun m => name_and_amount "@" false (matched m) <> [])
    (findall ingr_pat line).
Proof.
  apply Forall_forall. intros m Hm.
  apply scan_from_elem in Hm as (s' & n & Hp).
  eapply match_annotation_named, Hp.
Qed.

Lemma scan_steps_exception steps raw_steps : forall step_index acc e,
  step_index + length raw_steps <= length steps ->
  scan_steps steps step_index raw_steps acc = Raise e ->
  e = NoneHasNoStart \/ exists text, malformed_quantity text e.
Proof.
  induction raw_steps as [|line raw_steps IH]; intros step_index acc e Hi;
    cbn; [discriminate|].
  cbn in Hi.
  destruct (scan_step _ _ _ _) as [acc'|e'] eqn:Hs; cbn.
  - apply IH. lia.
  - intros [= <-].
    eapply scan_step_exception;
      [apply findall_ingr_pat_named | | exact Hs]. lia.
Qed.

Lemma step_timers_exception raw_steps e :
  mapM step_timers raw_steps = Raise e ->
  exists text, malformed_quantity text e.
Proof.
  intros H. apply mapM_Raise in H as (line & _ & H).
  unfold step_timers in H. apply mapM_Raise in H as (raw & Hin & H).
  apply list_elem_of_fmap in Hin as (m & -> & Hm).
  apply scan_from_elem in Hm as (s' & n & Hp).
  eapply Timer_parse_exception; [|exact H].
  eapply match_annotation_named, Hp.
Qed.

(** The exceptions of [Recipe.parse]: a span that cannot be resolved, a
    malformed quantity, or an incompatible addition. *)
Lemma Recipe_parse_exception raw e :
  Recipe_parse raw = Raise e ->
  e = NoneHasNoStart \/ (exists text, malformed_quantity text e) \/
  incompatible_addition e.
Proof.
  unfold Recipe_parse, assemble. fold (raw_steps_of (paragraphs raw)).
  destruct (scan_steps _ _ _ _) as [ms|e'] eqn:Hs; cbn.
  - destruct (mapM step_timers _) as [tbs|e'] eqn:Ht; cbn.
    + unfold _remove_duplicates.
      destruct (merge_into [] ms) as [d|e'] eqn:Hm; cbn; [discriminate|].
      intros [= <-]. right; right.
      eapply merge_into_exception; [constructor | exact Hm].
    + intros [= <-]. right; left. eapply step_timers_exception, Ht.
  - intros [= <-].
    apply scan_steps_exception in Hs; [tauto|].
    rewrite length_map. cbn. lia.
Qed.

End Exceptions.



(** * Further properties of [cooklang.py] *)

(** ** The preprocessing works line by line *)

Lemma last_block_end_le s n : last_block_end s = Some n -> n <= length s.
Proof.
  revert n. induction s as [|c t IH]; intros n; cbn; [discriminate|].
  destruct (last_block_end t) as [k|].
  - intros [= <-]. specialize (IH k eq_refl). lia.
  - destruct t as [|d t']; [discriminate|].
    destruct (chr_is c "-" && chr_is d "]"); [|discriminate].
    intros [= <-]. cbn. lia.
Qed.

Lemma length_take_while_le p s : length (take_while p s) <= length s.
Proof.
  induction s as [|c t IH]; cbn; [lia|]. destruct (p c); cbn; lia.
Qed.

(** A comment is removed whole, and it lies within the text. *)
Lemma match_comment_inv s n r :
  match_comment s = Some (n, r) -> r = [] /\ 2 <= n <= length s.
Proof.
  unfold match_comment. destruct s as [|a [|b t]]; try discriminate.
  destruct (chr_is a "-" && chr_is b "-").
  - destruct (take_while (not_chr newline) t) as [|c body] eqn:Hb;
      [discriminate|].
    intros [= <- <-]. split; [reflexivity|].
    pose proof (length_take_while_le (not_chr newline) t) as Hle.
    rewrite Hb in Hle. cbn [length] in *. lia.
  - destruct (chr_is a "[" && chr_is b "-"); [|discriminate].
    destruct (last_block_end _) as [k|] eqn:Hk; [|discriminate].
    intros [= <- <-]. split; [reflexivity|].
    apply last_block_end_le in Hk.
    pose proof (length_take_while_le (not_chr newline) t).
    cbn [length]. lia.
Qed.

(** Whether a comment starts at a position depends on the rest of its
    line only. *)
Lemma match_comment_line line rest :
  all_chars (not_chr newline) line ->
  match_comment (line ++ newline :: rest) = match_comment line.
Proof.
  intros Hline. destruct line as [|a [|b t]].
  - cbn [app]. unfold match_comment. destruct rest; reflexivity.
  - cbn [app]. unfold match_comment.
    change (chr_is newline "-") with false. now rewrite !andb_false_r.
  - cbn [app]. unfold match_comment.
    apply Forall_inv_tail, Forall_inv_tail in Hline.
    now rewrite take_while_stop, take_while_whole by (assumption || reflexivity).
Qed.

Lemma sub_from_comment_line line : forall k rest,
  all_chars (not_chr newline) line ->
  k <= length line ->
  sub_from match_comment k (line ++ newline :: rest) =
  sub_from match_comment k line ++ newline :: strip_comments rest.
Proof.
  induction line as [|c line IH]; intros k rest Hline Hk.
  - cbn in Hk. assert (k = 0) as -> by lia. cbn [app sub_from].
    pose proof (match_comment_line [] rest ltac:(constructor)) as Hm.
    cbn [app] in Hm. rewrite Hm. reflexivity.
  - pose proof (Forall_inv_tail Hline) as Hline'.
    cbn [app sub_from]. destruct k as [|k].
    + change (c :: line ++ newline :: rest)
        with ((c :: line) ++ newline :: rest).
      rewrite match_comment_line by assumption.
      destruct (match_comment (c :: line)) as [[n r]|] eqn:Hm.
      * apply match_comment_inv in Hm as [-> Hn]. cbn [app length] in *.
        apply IH; [assumption | lia].
      * cbn [app]. f_equal. apply IH; [assumption | lia].
    + apply IH; [assumption | cbn in Hk; lia].
Qed.

Lemma strip_comments_line line rest :
  all_chars (not_chr newline) line ->
  strip_comments (line ++ newline :: rest) =
  strip_comments line ++ newline :: strip_comments rest.
Proof.
  intros Hline. unfold strip_comments at 1 2, re_sub.
  apply sub_from_comment_line; [assumption | lia].
Qed.

(** Removing comments removes characters only. *)
Lemma sub_from_comment_all_chars p s : forall k,
  all_chars p s -> all_chars p (sub_from match_comment k s).
Proof.
  induction s as [|c s IH]; intros k Hs; cbn [sub_from]; [constructor|].
  pose proof (Forall_inv_tail Hs) as Hs'.
  destruct k as [|k]; [|now apply IH].
  destruct (match_comment (c :: s)) as [[n r]|] eqn:Hm.
  - apply match_comment_inv in Hm as [-> _]. cbn [app]. now apply IH.
  - constructor; [exact (Forall_inv Hs) | now apply IH].
Qed.

Lemma split_lines_line line :
  all_chars (not_chr newline) line -> split_lines line = [line].
Proof.
  induction 1 as [|c line Hc _ IH]; cbn; [reflexivity|].
  unfold not_chr in Hc. apply negb_true_iff in Hc. now rewrite Hc, IH.
Qed.

Lemma split_lines_cons_line line rest :
  all_chars (not_chr newline) line ->
  split_lines (line ++ newline :: rest) = line :: split_lines rest.
Proof.
  induction 1 as [|c line Hc _ IH]; cbn [app split_lines].
  - now rewrite chr_is_refl.
  - unfold not_chr in Hc. apply negb_true_iff in Hc. now rewrite Hc, IH.
Qed.

(** Induction on a text, line after line. *)
Lemma lines_ind (P : str -> Prop) :
  (forall line, all_chars (not_chr newline) line -> P line) ->
  (forall line rest,
     all_chars (not_chr newline) line -> P rest ->
     P (line ++ newline :: rest)) ->
  forall raw, P raw.
Proof.
  intros Hone Hmore raw.
  induction raw as [raw IH] using (induction_ltof1 _ (@length ascii)).
  unfold ltof in IH.
  pose proof (take_drop_while (not_chr newline) raw) as Hraw.
  pose proof (take_while_all (not_chr newline) raw) as Hline.
  destruct (drop_while (not_chr newline) raw) as [|c rest] eqn:Hd.
  - rewrite app_nil_r in Hraw. rewrite <- Hraw. now apply Hone.
  - assert (c = newline) as ->.
    { apply drop_while_head in Hd. unfold not_chr in Hd.
      apply negb_false_iff, chr_is_true in Hd. exact Hd. }
    rewrite <- Hraw. apply Hmore; [assumption|].
    apply IH. rewrite <- Hraw, length_app. cbn. lia.
Qed.

Lemma split_lines_strip_comments raw :
  split_lines (strip_comments raw) = map strip_comments (split_lines raw).
Proof.
  induction raw as [line Hline | line rest Hline IH] using lines_ind.
  - rewrite (split_lines_line line) by assumption. cbn.
    apply split_lines_line. unfold strip_comments, re_sub.
    now apply sub_from_comment_all_chars.
  - rewrite strip_comments_line, !split_lines_cons_line; try assumption.
    + cbn. now rewrite IH.
    + unfold strip_comments, re_sub. now apply sub_from_comment_all_chars.
Qed.

Lemma split_lines_app a b :
  split_lines (a ++ newline :: b) = split_lines a ++ split_lines b.
Proof.
  induction a as [line Hline | line rest Hline IH] using lines_ind.
  - rewrite split_lines_cons_line, (split_lines_line line) by assumption.
    reflexivity.
  - rewrite app_cons_assoc, split_lines_cons_line by assumption.
    rewrite (split_lines_cons_line line rest) by assumption.
    cbn [app]. now rewrite IH.
Qed.

Lemma paragraphs_by_line raw :
  paragraphs raw =
    List.filter nonempty
      (map (fun line => strip (strip_comments line)) (split_lines raw)).
Proof.
  unfold paragraphs. now rewrite split_lines_strip_comments, map_map.
Qed.

Lemma paragraphs_app a b :
  paragraphs (a ++ newline :: b) = paragraphs a ++ paragraphs b.
Proof.
  rewrite !paragraphs_by_line, split_lines_app, map_app.
  apply List.filter_app.
Qed.

(** X1.  The paragraphs of a text are found line by line: every line of
    the text, as [split("\n")] cuts it, loses its comments and the white
    space around it, and the lines that are left empty are dropped.  No
    comment reaches over a line break, so that the paragraphs of two texts
    put one after the other with a line break between them are the
    paragraphs of the first followed by those of the second. *)
Theorem X1_paragraphs_line_by_line (raw a b : str) :
  paragraphs raw =
    List.filter nonempty
      (map (fun line => strip (strip_comments line)) (split_lines raw)) /\
  paragraphs (a ++ newline :: b) = paragraphs a ++ paragraphs b.
Proof. split; [apply paragraphs_by_line | apply paragraphs_app]. Qed.

(** ** White space and blank lines *)

Lemma match_comment_other c s :
  c <> "-"%char -> c <> "["%char -> match_comment (c :: s) = None.
Proof.
  intros H1 H2. unfold match_comment. destruct s as [|b t]; [reflexivity|].
  destruct (chr_is c "-") eqn:E1; [apply chr_is_true in E1; contradiction|].
  destruct (chr_is c "[") eqn:E2; [apply chr_is_true in E2; contradiction|].
  reflexivity.
Qed.

Lemma is_space_no_comment c : is_space c = true -> c <> "-"%char /\ c <> "["%char.
Proof. intros H. split; intros ->; discriminate H. Qed.

Lemma strip_comments_blank_prefix w s :
  all_chars is_space w -> strip_comments (w ++ s) = w ++ strip_comments s.
Proof.
  intros Hw. induction Hw as [|c w Hc _ IH]; [reflexivity|].
  apply is_space_no_comment in Hc as [H1 H2].
  cbn [app]. unfold strip_comments in *.
  now rewrite re_sub_keep, IH by now apply match_comment_other.
Qed.

Lemma strip_all_space w : all_chars is_space w -> strip w = [].
Proof.
  intros Hw. unfold strip, lstrip. now rewrite drop_while_whole.
Qed.

Lemma split_lines_nonempty s : split_lines s <> [].
Proof.
  destruct s as [|c s]; cbn; [discriminate|].
  destruct (chr_is c newline); [discriminate|].
  destruct (split_lines s); discriminate.
Qed.

Lemma stripped_lines_blank_prefix w s :
  all_chars is_space w ->
  List.filter nonempty (map strip (split_lines (w ++ s))) =
  List.filter nonempty (map strip (split_lines s)).
Proof.
  intros Hw. induction Hw as [|c w Hc _ IH]; [reflexivity|].
  cbn [app split_lines]. destruct (chr_is c newline).
  - cbn. exact IH.
  - destruct (split_lines (w ++ s)) as [|l ls] eqn:Hl.
    + now apply split_lines_nonempty in Hl.
    + rewrite <- IH. cbn [map]. now rewrite strip_blank.
Qed.

(** X2.  White space in front of a text, and lines of white space
    anywhere in it, leave no trace: a text of white space only has no
    paragraph and parses to the recipe without metadata, ingredients,
    steps, cookware and timers; white space put in front of a text, or a
    line of white space put between two lines, changes neither the
    paragraphs nor the result of [Recipe.parse]. *)
Theorem X2_white_space_is_ignored `{F : PyFloat} (w : str) :
  all_chars is_space w ->
  paragraphs w = [] /\
  Recipe_parse w = Ok (mkRecipe ∅ [] [] [] []) /\
  (forall raw, paragraphs (w ++ raw) = paragraphs raw /\
               Recipe_parse (w ++ raw) = Recipe_parse raw) /\
  (forall a b,
     paragraphs (a ++ newline :: w ++ newline :: b) =
       paragraphs (a ++ newline :: b) /\
     Recipe_parse (a ++ newline :: w ++ newline :: b) =
       Recipe_parse (a ++ newline :: b)).
Proof.
  intros Hw.
  assert (Hpre : forall raw, paragraphs (w ++ raw) = paragraphs raw).
  { intros raw. unfold paragraphs.
    rewrite strip_comments_blank_prefix by assumption.
    now apply stripped_lines_blank_prefix. }
  assert (Hnil : paragraphs w = []).
  { rewrite <- (app_nil_r w), Hpre. reflexivity. }
  assert (Hmid : forall a b,
            paragraphs (a ++ newline :: w ++ newline :: b) =
            paragraphs (a ++ newline :: b)).
  { intros a b.
    rewrite (paragraphs_app a (w ++ newline :: b)), Hpre.
    pose proof (paragraphs_app [] b) as Hb. cbn [app] in Hb.
    rewrite Hb, (paragraphs_app a b). reflexivity. }
  split; [exact Hnil|]. split; [|split].
  - unfold Recipe_parse. now rewrite Hnil.
  - intros raw. split; [apply Hpre|]. unfold Recipe_parse. now rewrite Hpre.
  - intros a b. split; [apply Hmid|]. unfold Recipe_parse. now rewrite Hmid.
Qed.

Lemma X2_white_space_is_ignored_witness :
  Recipe_parse (F := Tenths)
    ("Boil @water" ++ newline :: "   " ++ newline :: "Serve") =
  Recipe_parse (F := Tenths) ("Boil @water" ++ newline :: "Serve").
Proof.
  refine (proj2 (proj2 (proj2 (proj2
    (X2_white_space_is_ignored (F := Tenths) "   " _))) "Boil @water" "Serve")).
  unfold all_chars. repeat constructor.
Defined.

(** ** Text without annotations *)

Lemma no_annotation_no_brace s :
  no_annotation s = true -> all_chars (not_chr "{") s.
Proof.
  induction s as [|c t IH]; intros H; [constructor|].
  cbn [no_annotation] in H. apply andb_true_iff in H as [H Ht].
  apply andb_true_iff in H as [Hc _].
  constructor; [exact Hc | exact (IH Ht)].
Qed.

Lemma brace_group_length_no_brace s :
  all_chars (not_chr "{") s -> brace_group_length s = 0.
Proof.
  intros H. destruct s as [|b u]; [reflexivity|].
  apply Forall_inv in H. unfold not_chr in H. apply negb_true_iff in H.
  unfold brace_group_length. now rewrite H.
Qed.

Lemma no_annotation_tail c t :
  no_annotation (c :: t) = true -> no_annotation t = true.
Proof. cbn. intros H. now apply andb_true_iff in H as [_ H]. Qed.

Lemma no_annotation_after_sigil c t :
  no_annotation (c :: t) = true -> is_sigil c = true ->
  take_while is_word t = [].
Proof.
  cbn. intros H Hc. apply andb_true_iff in H as [H _].
  apply andb_true_iff in H as [_ H]. rewrite Hc in H. cbn in H.
  destruct t as [|w t]; [reflexivity|]. cbn.
  apply negb_true_iff in H. now rewrite H.
Qed.

Lemma match_annotation_none sigil empty_ok s :
  is_sigil sigil = true -> no_annotation s = true ->
  match_annotation sigil empty_ok s = None.
Proof.
  intros Hs H. unfold match_annotation. destruct s as [|c t]; [reflexivity|].
  destruct (chr_is c sigil) eqn:Hc; [|reflexivity].
  apply chr_is_true in Hc as ->.
  rewrite brace_group_length_no_brace.
  - rewrite andb_false_r.
    now rewrite (no_annotation_after_sigil _ _ H Hs).
  - apply all_chars_drop_while.
    apply no_annotation_no_brace in H. now apply Forall_inv_tail in H.
Qed.

Lemma match_timer_markup_none s :
  no_annotation s = true -> match_timer_markup s = None.
Proof.
  intros H. unfold match_timer_markup. destruct s as [|c t]; [reflexivity|].
  destruct (chr_is c "~"); [|reflexivity].
  destruct (drop_while is_name_char t) as [|b u] eqn:Hd; [reflexivity|].
  assert (Hb : all_chars (not_chr "{") (b :: u)).
  { rewrite <- Hd. apply all_chars_drop_while.
    apply no_annotation_no_brace in H. now apply Forall_inv_tail in H. }
  apply Forall_inv in Hb. unfold not_chr in Hb. apply negb_true_iff in Hb.
  now rewrite Hb.
Qed.

Lemma match_name_markup_none s :
  no_annotation s = true -> match_name_markup s = None.
Proof.
  intros H. unfold match_name_markup. destruct s as [|c [|w t]]; try reflexivity.
  destruct (chr_is c "@" || chr_is c "#") eqn:Hc; [|reflexivity].
  assert (Hs : is_sigil c = true) by (unfold is_sigil; now rewrite Hc).
  pose proof (no_annotation_after_sigil _ _ H Hs) as Hw. cbn in Hw.
  destruct (is_word w); [discriminate | reflexivity].
Qed.

Lemma re_sub_no_match m s :
  (forall t, no_annotation t = true -> m t = None) ->
  no_annotation s = true -> re_sub m s = s.
Proof.
  intros Hm. induction s as [|c s IH]; intros H; [reflexivity|].
  rewrite re_sub_keep by now apply Hm.
  f_equal. apply IH. eapply no_annotation_tail, H.
Qed.

Lemma findall_no_match {B} (m : str -> option (nat * B)) s :
  (forall t, no_annotation t = true -> m t = None) ->
  no_annotation s = true -> findall m s = [].
Proof.
  intros Hm. unfold findall. induction s as [|c s IH]; intros H; [reflexivity|].
  cbn [scan_from]. rewrite (Hm _ H). apply IH. eapply no_annotation_tail, H.
Qed.

Section Plain.
Context {F : PyFloat}.

Lemma scan_steps_no_match steps raw_steps : forall step_index acc,
  Forall (fun line => findall ingr_pat line = []) raw_steps ->
  scan_steps steps step_index raw_steps acc = Ok acc.
Proof.
  induction raw_steps as [|line raw_steps IH]; intros step_index acc H;
    [reflexivity|].
  apply Forall_cons in H as [Hl H]. cbn [scan_steps]. rewrite Hl. cbn.
  now apply IH.
Qed.

Lemma step_timers_no_match raw_steps :
  Forall (fun line => findall timer_pat line = []) raw_steps ->
  mapM step_timers raw_steps = Ok (map (fun _ => []) raw_steps).
Proof.
  induction 1 as [|line raw_steps Hl _ IH]; [reflexivity|].
  change (mapM step_timers (line :: raw_steps))
    with (y ← step_timers line; k ← mapM step_timers raw_steps;
          Ok (y :: k)).
  rewrite IH. unfold step_timers. rewrite Hl. reflexivity.
Qed.

Lemma concat_nils {A B} (l : list A) : concat (map (fun _ => @nil B) l) = [].
Proof. induction l; [reflexivity | assumption]. Qed.

Lemma assemble_plain ps :
  Forall (fun line => is_metadata_line line = false /\
                      no_annotation line = true) ps ->
  assemble ps = Ok (mkRecipe ∅ [] ps [] []).
Proof.
  intros H.
  assert (Hsteps : List.filter (fun x => negb (is_metadata_line x)) ps = ps).
  { induction H as [|l ps [Hl _] _ IH]; [reflexivity|].
    cbn [List.filter]. now rewrite Hl, IH. }
  assert (Hmeta : List.filter is_metadata_line ps = []).
  { clear Hsteps. induction H as [|l ps [Hl _] _ IH]; [reflexivity|].
    cbn [List.filter]. rewrite Hl. exact IH. }
  assert (Hplain : Forall (fun line => no_annotation line = true) ps).
  { eapply Forall_impl; [exact H | now intros l [_ ?]]. }
  unfold assemble. rewrite Hsteps, Hmeta.
  rewrite scan_steps_no_match.
  2:{ eapply Forall_impl; [exact Hplain|]. intros l Hl.
      apply findall_no_match; [|exact Hl].
      intros t. now apply match_annotation_none. }
  cbn. rewrite step_timers_no_match.
  2:{ eapply Forall_impl; [exact Hplain|]. intros l Hl.
      apply findall_no_match; [|exact Hl].
      intros t. now apply match_annotation_none. }
  cbn. rewrite concat_nils. f_equal. f_equal.
  - clear -Hplain. induction Hplain as [|l ps Hl _ IH]; [reflexivity|].
    cbn [map]. rewrite IH. f_equal. unfold render_step.
    rewrite (re_sub_no_match match_timer_markup l)
      by (assumption || apply match_timer_markup_none).
    apply re_sub_no_match; [apply match_name_markup_none | assumption].
  - clear -Hplain. induction Hplain as [|l ps Hl _ IH]; [reflexivity|].
    cbn [map concat]. rewrite IH. unfold step_cookware.
    rewrite findall_no_match; [reflexivity| |assumption].
    intros t. now apply match_annotation_none.
Qed.

End Plain.

(** X3.  A line that holds no opening brace and no sigil in front of a
    word character (a sigil at the end of the line or in front of a blank,
    as in "~ Or this") has no annotation: the three patterns find nothing
    in it and the renderer returns it unchanged.  A text whose paragraphs
    are all such lines, none starting with ">>", parses to the recipe
    that has these paragraphs as its steps and nothing else. *)
Theorem X3_lines_without_annotation `{F : PyFloat} :
  (forall line : str,
     no_annotation line = true ->
     render_step line = line /\
     findall ingr_pat line = [] /\
     findall cookware_pat line = [] /\
     findall timer_pat line = []) /\
  (forall raw : str,
     Forall (fun line => is_metadata_line line = false /\
                         no_annotation line = true) (paragraphs raw) ->
     Recipe_parse raw = Ok (mkRecipe ∅ [] (paragraphs raw) [] [])).
Proof.
  split.
  - intros line H. split; [|repeat split].
    + unfold render_step.
      rewrite (re_sub_no_match match_timer_markup line)
        by (assumption || apply match_timer_markup_none).
      apply re_sub_no_match; [apply match_name_markup_none | assumption].
    + apply findall_no_match; [|assumption].
      intros t. now apply match_annotation_none.
    + apply findall_no_match; [|assumption].
      intros t. now apply match_annotation_none.
    + apply findall_no_match; [|assumption].
      intros t. now apply match_annotation_none.
  - intros raw H. unfold Recipe_parse. now apply assemble_plain.
Qed.

Lemma X3_lines_without_annotation_witness :
  Recipe_parse (F := Tenths)
    ("# For instance, a markdown header" ++ newline :: "~ Or this") =
  Ok (mkRecipe ∅ []
        ["# For instance, a markdown header" : str; "~ Or this" : str] [] []).
Proof.
  refine (proj2 (X3_lines_without_annotation (F := Tenths))
            ("# For instance, a markdown header" ++ newline :: "~ Or this") _).
  repeat constructor.
Defined.

(** ** The exceptions that [Recipe.parse] lets through *)

(** X4.  When [Recipe.parse] raises, the exception is the AttributeError
    of [Ingredient.parse] (the name was not found in the rendered step),
    the exception of a numeric constructor on an amount text, or the
    ValueError of [Quantity.__add__].  It never raises the IndexError of
    [findall(...)[0]] or [steps[step_index]], nor the name-mismatch
    ValueError of [Ingredient.__add__] or [Timer.__add__]. *)
Theorem X4_exceptions_of_parse `{F : PyFloat} (raw : str) (e : exn) :
  Recipe_parse raw = Raise e ->
  (e = NoneHasNoStart \/ (exists text, malformed_quantity text e) \/
   incompatible_addition e) /\
  e <> IndexOutOfRange /\
  (forall n1 n2, e <> CannotAddIngredient n1 n2) /\
  (forall n1 n2, e <> CannotAddTimer n1 n2).
Proof.
  intros H. pose proof (Recipe_parse_exception raw e H) as He.
  split; [exact He|].
  unfold malformed_quantity, incompatible_addition in He.
  repeat split; intros; intros ->;
    destruct He as [He|[[text [[t He]|[n He]]]|[(u1 & u2 & He)|(t1 & t2 & He)]]];
    discriminate He.
Qed.

Lemma X4_exceptions_of_parse_witness :
  Recipe_parse (F := Tenths) "Fill the #pot{@salt}" = Raise NoneHasNoStart /\
  NoneHasNoStart <> IndexOutOfRange.
Proof.
  split; [reflexivity|].
  exact (proj1 (proj2 (X4_exceptions_of_parse (F := Tenths)
                         "Fill the #pot{@salt}" NoneHasNoStart eq_refl))).
Defined.

(** ** The mentions and the matches of [ingr_pat] *)

Lemma name_and_amount_nonempty sigil raw name raw_amount rest :
  name_and_amount sigil false raw = (name, raw_amount) :: rest -> name <> [].
Proof.
  unfold name_and_amount. destruct raw as [|c t]; [discriminate|].
  destruct (chr_is c sigil); [|discriminate].
  destruct (take_while (not_chr "{") t) as [|n0 n]; [discriminate|].
  cbn. destruct (brace_group_length _); intros [= <- _ _]; discriminate.
Qed.

Section Mentions.
Context {F : PyFloat}.

Lemma Ingredient_parse_fields raw step_index steps cur b :
  Ingredient_parse raw step_index steps cur = Ok b ->
  read_from (step_index, Annotation raw []) b.
Proof.
  unfold Ingredient_parse, read_from. cbn [fst snd matched].
  destruct (name_and_amount "@" false raw) as [|[name raw_amount] rest];
    [discriminate|].
  destruct (steps !! step_index) as [step|]; [|discriminate].
  destruct (find_sub name _) as [offset|]; [|discriminate].
  intros H. apply bind_Ok in H as (q & Hq & [= <-]). cbn.
  split; [reflexivity|]. eauto.
Qed.

Lemma scan_step_matches steps k matches : forall acc ms,
  scan_step steps k matches acc = Ok ms ->
  exists new, ms = acc ++ new /\ Forall2 read_from (map (pair k) matches) new.
Proof.
  induction matches as [|m matches IH]; intros acc ms; cbn [scan_step].
  - intros [= <-]. exists []. split; [now rewrite app_nil_r | constructor].
  - intros H. apply bind_Ok in H as (b & Hb & H).
    apply IH in H as (new & -> & Hnew).
    exists (b :: new). split; [now rewrite <- app_assoc|].
    cbn [map]. constructor; [|exact Hnew].
    exact (Ingredient_parse_fields _ _ _ _ _ Hb).
Qed.

Lemma scan_steps_matches steps raw_steps : forall k acc ms,
  scan_steps steps k raw_steps acc = Ok ms ->
  exists new, ms = acc ++ new /\ Forall2 read_from (matches_from k raw_steps) new.
Proof.
  induction raw_steps as [|line raw_steps IH]; intros k acc ms;
    cbn [scan_steps matches_from].
  - intros [= <-]. exists []. split; [now rewrite app_nil_r | constructor].
  - intros H. apply bind_Ok in H as (acc' & Hacc' & H).
    apply scan_step_matches in Hacc' as (new1 & -> & H1).
    apply IH in H as (new2 & -> & H2).
    exists (new1 ++ new2). split; [now rewrite <- app_assoc|].
    now apply Forall2_app.
Qed.

Lemma matches_from_elem raw_steps : forall k km,
  km ∈ matches_from k raw_steps ->
  exists line s n,
    raw_steps !! (km.1 - k) = Some line /\ k <= km.1 /\
    km.2 ∈ findall ingr_pat line /\ ingr_pat s = Some (n, km.2).
Proof.
  induction raw_steps as [|line raw_steps IH]; intros k km; cbn [matches_from].
  - intros H. now apply elem_of_nil in H.
  - intros H. apply elem_of_app in H as [H|H].
    + apply list_elem_of_fmap in H as (m & -> & Hm). cbn [fst snd].
      destruct (scan_from_elem _ _ _ _ Hm) as (s & n & Hs).
      exists line, s, n. rewrite Nat.sub_diag. auto.
    + apply IH in H as (l & s & n & Hl & Hk & Hm & Hs).
      exists l, s, n. repeat split; [|lia|assumption..].
      replace (km.1 - k) with (S (km.1 - S k)) by lia. exact Hl.
Qed.

Lemma mentions_of_head n ms first others :
  mentions_of n ms = first :: others ->
  first ∈ ms /\ Ingredient_name first = n.
Proof.
  intros H.
  assert (Hin : In first (mentions_of n ms)) by (rewrite H; now left).
  unfold mentions_of in Hin. apply List.filter_In in Hin as [Hin Hn].
  apply bool_decide_eq_true in Hn. split; [|exact Hn].
  now apply list_elem_of_In.
Qed.

(** Every ingredient of the recipe is, for its name and location, the
    first mention of that name. *)
Lemma Recipe_parse_first_mention raw r :
  Recipe_parse raw = Ok r ->
  exists ms,
    scan_steps (map render_step (raw_steps_of (paragraphs raw))) 0
      (raw_steps_of (paragraphs raw)) [] = Ok ms /\
    Recipe_steps r = map render_step (raw_steps_of (paragraphs raw)) /\
    forall e, e ∈ Recipe_ingredients r ->
      exists first,
        first ∈ ms /\ Ingredient_name first = Ingredient_name e /\
        Ingredient_location first = Ingredient_location e.
Proof.
  unfold Recipe_parse. intros H.
  apply assemble_Ok in H as (ms & tbs & ingr & Hms & _ & Hdup & ->).
  exists ms. split; [exact Hms|]. split; [reflexivity|].
  cbn [Recipe_ingredients]. intros e He.
  apply _remove_duplicates_Ok in Hdup as [_ Hdup].
  destruct (Hdup e He) as (first & others & Hf & Hloc & _).
  apply mentions_of_head in Hf as [Hin Hn].
  exists first. auto.
Qed.

End Mentions.

(** X5.  The location of every ingredient of a parsed recipe points at
    its name: the step index is that of one of the rendered steps, and
    the slice of that step from the start offset to the end offset is the
    name, which is not empty. *)
Theorem X5_locations_point_at_the_name `{F : PyFloat} (raw : str)
    (r : Recipe) (e : Ingredient) :
  Recipe_parse raw = Ok r ->
  e ∈ Recipe_ingredients r ->
  exists step,
    Recipe_steps r !! step_of e = Some step /\
    start_of e < end_of e /\ end_of e <= length step /\
    take (end_of e - start_of e) (drop (start_of e) step) = Ingredient_name e.
Proof.
  intros H He.
  apply Recipe_parse_first_mention in H as (ms & Hms & -> & Hfirst).
  destruct (Hfirst e He) as (first & Hin & Hn & Hloc).
  assert (Hrec : recorded (map render_step (raw_steps_of (paragraphs raw))) ms).
  { eapply scan_steps_recorded; [constructor | exact Hms]. }
  apply list_elem_of_lookup in Hin as [j Hj].
  destruct (recorded_lookup _ _ Hrec j first Hj) as [raw' Hb].
  pose proof (Ingredient_parse_fields _ _ _ _ _ Hb) as [_ (ra & rest & Hname & _)].
  apply name_and_amount_nonempty in Hname.
  apply Ingredient_parse_Ok in Hb as (step & offset & Hstep & Hfind & Hl).
  unfold step_of, start_of, end_of. rewrite <- Hloc, Hl. cbn [fst snd].
  unfold step_of in Hstep. rewrite Hl in Hstep. cbn [fst snd] in Hstep.
  exists step. split; [exact Hstep|].
  apply find_sub_Some in Hfind as [Hfind _].
  apply starts_with_take in Hfind. rewrite drop_drop in Hfind.
  rewrite Hn in *.
  set (from := previous_end _ _) in *.
  assert (Hlen : length (Ingredient_name e) <= length step - (from + offset)).
  { rewrite <- Hfind at 1. rewrite length_take, length_drop. lia. }
  assert (Hpos : 0 < length (Ingredient_name e)).
  { destruct (Ingredient_name e); [contradiction | cbn; lia]. }
  split; [lia|]. split; [lia|].
  replace (offset + length (Ingredient_name e) + from - (offset + from))
    with (length (Ingredient_name e)) by lia.
  rewrite (Nat.add_comm offset). exact Hfind.
Qed.

Lemma X5_locations_point_at_the_name_witness :
  exists step,
    [("Add salt and oil, then salt" : str)] !! 0 = Some step /\
    4 < 8 /\ 8 <= length step /\
    take (8 - 4) (drop 4 step) = ("salt" : str).
Proof.
  refine (X5_locations_point_at_the_name (F := Tenths)
            "Add @salt{1%g} and @oil{}, then @salt{2%g}"
            (mkRecipe ∅
               [mkIngredient "salt" (0, 4, 8)
                  (Some (mkQuantity (a_int 3) (Some ("g" : str))));
                mkIngredient "oil" (0, 13, 16) None]
               ["Add salt and oil, then salt" : str] [] [])
            (mkIngredient "salt" (0, 4, 8)
               (Some (mkQuantity (a_int 3) (Some ("g" : str)))))
            _ _).
  - reflexivity.
  - apply list_elem_of_here.
Defined.

(** ** The shape of a match of an annotation pattern *)

Lemma not_chr_false d c : not_chr d c = false -> c = d.
Proof.
  unfold not_chr. intros H. apply negb_false_iff in H.
  now apply chr_is_true.
Qed.

Lemma brace_group_length_pos after :
  brace_group_length after <> 0 ->
  exists body rest,
    after = "{"%char :: body ++ "}"%char :: rest /\
    all_chars (not_chr "}") body /\
    brace_group_length after = length body + 2.
Proof.
  unfold brace_group_length. destruct after as [|b u]; [easy|].
  destruct (chr_is b "{") eqn:Hb; [|easy]. apply chr_is_true in Hb as ->.
  destruct (drop_while (not_chr "}") u) as [|e v] eqn:Hd; [easy|]. intros _.
  exists (take_while (not_chr "}") u), v.
  pose proof (drop_while_head _ _ _ _ Hd) as He. apply not_chr_false in He.
  subst e. rewrite <- Hd, take_drop_while.
  split; [reflexivity|]. split; [apply take_while_all | reflexivity].
Qed.

Lemma brace_group_length_braced body rest :
  all_chars (not_chr "}") body ->
  brace_group_length ("{"%char :: body ++ "}"%char :: rest) = length body + 2.
Proof.
  intros H. unfold brace_group_length. cbn [chr_is Ascii.eqb].
  change (chr_is "{" "{") with true. cbn match.
  rewrite drop_while_stop, take_while_stop by (assumption || reflexivity).
  reflexivity.
Qed.

Lemma take_braced {A} (x y : A) (body rest : list A) :
  take (length body + 2) (x :: body ++ y :: rest) = x :: body ++ [y].
Proof.
  replace (length body + 2) with (S (length body + 1)) by lia.
  cbn [take]. f_equal.
  rewrite take_app_add'; [|reflexivity]. reflexivity.
Qed.

Lemma is_word_not_brace c : is_word c = true -> not_chr "{" c = true.
Proof. intros H. now apply is_name_char_not_brace, is_word_name_char. Qed.

(** The name and the text between the braces of a braced annotation, as
    the patterns of [Ingredient.parse] and [Timer.parse] find them. *)
Lemma name_and_amount_braced sigil empty_ok run body :
  all_chars (not_chr "{") run ->
  all_chars (not_chr "}") body ->
  (empty_ok = false -> run <> []) ->
  name_and_amount sigil empty_ok
    (sigil :: run ++ "{"%char :: body ++ ["}"%char]) = [(run, body)].
Proof.
  intros Hrun Hbody Hne. unfold name_and_amount. rewrite chr_is_refl.
  rewrite take_while_stop, drop_while_stop by (assumption || reflexivity).
  assert (Hok : empty_ok || negb (length run =? 0) = true).
  { destruct empty_ok; [reflexivity|].
    destruct run; [now destruct Hne | reflexivity]. }
  rewrite Hok, brace_group_length_braced by assumption.
  rewrite Nat.add_comm. cbn [Nat.add tail].
  now rewrite take_while_stop by (assumption || reflexivity).
Qed.

Lemma name_and_amount_word sigil empty_ok word :
  all_chars (not_chr "{") word -> word <> [] ->
  name_and_amount sigil empty_ok (sigil :: word) = [(word, [])].
Proof.
  intros Hword Hne. unfold name_and_amount. rewrite chr_is_refl.
  rewrite take_while_whole, drop_while_whole by assumption.
  destruct word as [|w word]; [contradiction|].
  cbn. now rewrite orb_true_r.
Qed.

Lemma take_length_take_while p s :
  take (length (take_while p s)) s = take_while p s.
Proof.
  induction s as [|c s IH]; cbn; [reflexivity|].
  destruct (p c); cbn; [now rewrite IH | reflexivity].
Qed.

(** A match of an annotation pattern is a prefix of the text; it is the
    sigil, a run of name characters and a brace group, or the sigil and a
    word. *)
Lemma match_annotation_inv sigil empty_ok s n m :
  match_annotation sigil empty_ok s = Some (n, m) ->
  n = length (matched m) /\ take n s = matched m /\
  ((exists run body,
      matched m = sigil :: run ++ "{"%char :: body ++ ["}"%char] /\
      all_chars is_name_char run /\ (empty_ok = false -> run <> []) /\
      all_chars (not_chr "}") body /\ braced_name m = run) \/
   (exists word,
      matched m = sigil :: word /\ word <> [] /\
      all_chars is_word word /\ braced_name m = [])).
Proof.
  unfold match_annotation. destruct s as [|c t]; [discriminate|].
  destruct (chr_is c sigil) eqn:Hc; [|discriminate].
  apply chr_is_true in Hc as ->.
  destruct ((empty_ok || negb (length (take_while is_name_char t) =? 0)) &&
            negb (brace_group_length (drop_while is_name_char t) =? 0))
    eqn:Hcond.
  - intros [= <- <-]. cbn [matched braced_name].
    apply andb_true_iff in Hcond as [Hrun Hb].
    apply negb_true_iff, Nat.eqb_neq in Hb.
    destruct (brace_group_length_pos _ Hb) as (body & rest & Hafter & Hbody & Hlen).
    rewrite Hlen.
    assert (Ht : t = take_while is_name_char t ++
                     "{"%char :: body ++ "}"%char :: rest).
    { rewrite <- Hafter. symmetry. apply take_drop_while. }
    set (run := take_while is_name_char t) in *.
    assert (Htake : take (length run + (length body + 2)) t =
                    run ++ "{"%char :: body ++ ["}"%char]).
    { rewrite Ht at 1.
      rewrite take_app_add'; [|reflexivity]. f_equal. apply take_braced. }
    cbn [take]. rewrite !Htake. split; [|split; [reflexivity|]].
    { cbn [length]. rewrite !length_app. cbn [length].
      rewrite length_app. cbn [length]. lia. }
    left. exists run, body. split; [reflexivity|].
    split; [apply take_while_all|]. split; [|auto].
    intros ->. cbn [orb] in Hrun. intros Hnil. now rewrite Hnil in Hrun.
  - destruct (take_while is_word t) as [|w0 word] eqn:Hw; [discriminate|].
    intros [= <- <-]. cbn [matched braced_name].
    split; [reflexivity|]. split.
    { pose proof (take_length_take_while is_word t) as Htk.
      rewrite Hw in Htk. cbn [Nat.add take]. f_equal. exact Htk. }
    right. exists (w0 :: word). split; [reflexivity|].
    split; [discriminate|]. split; [|reflexivity].
    rewrite <- Hw. apply take_while_all.
Qed.

(** The name that [Ingredient.parse] or [Timer.parse] takes out of a
    match, and the name that the cookware list keeps of it. *)
Lemma match_annotation_name sigil empty_ok s n m :
  match_annotation sigil empty_ok s = Some (n, m) ->
  exists name raw_amount,
    name_and_amount sigil empty_ok (matched m) = [(name, raw_amount)] /\
    all_chars is_name_char name /\
    all_chars (not_chr "}") raw_amount /\
    (empty_ok = false -> name <> [] /\ cookware_name m = name).
Proof.
  intros H. apply match_annotation_inv in H as (_ & _ & [H|H]).
  - destruct H as (run & body & Hm & Hrun & Hne & Hbody & Hb).
    exists run, body. rewrite Hm. split.
    { apply name_and_amount_braced; [|assumption..].
      eapply all_chars_weaken; [apply is_name_char_not_brace | exact Hrun]. }
    split; [exact Hrun|]. split; [exact Hbody|].
    intros He. split; [auto|]. unfold cookware_name. rewrite Hb.
    destruct run; [now destruct (Hne He) | reflexivity].
  - destruct H as (word & Hm & Hne & Hword & Hb).
    exists word, []. rewrite Hm. split.
    { apply name_and_amount_word; [|assumption].
      eapply all_chars_weaken; [apply is_word_not_brace | exact Hword]. }
    split; [eapply all_chars_weaken; [apply is_word_name_char | exact Hword]|].
    split; [constructor|].
    intros _. split; [assumption|]. unfold cookware_name.
    now rewrite Hb, Hm.
Qed.

(** ** Where the fields of a recipe come from *)

Lemma StronglySorted_lookup {A} (R : relation A) l i j x y :
  StronglySorted R l -> l !! i = Some x -> l !! j = Some y -> i < j -> R x y.
Proof.
  intros Hs Hi Hj Hij. rewrite <- (take_drop j l) in Hs.
  eapply (StronglySorted_app_1_elem_of _ _ _ x y Hs).
  - apply list_elem_of_lookup. exists i. now rewrite lookup_take_lt.
  - apply list_elem_of_lookup. exists 0. rewrite lookup_drop.
    now rewrite Nat.add_0_r.
Qed.

Lemma matches_from_sorted raw_steps : forall k,
  StronglySorted (fun a b : nat * annotation => a.1 <= b.1)
    (matches_from k raw_steps).
Proof.
  induction raw_steps as [|line raw_steps IH]; intros k; cbn [matches_from];
    [constructor|].
  apply StronglySorted_app_2; [| |apply IH].
  - intros a b Ha Hb. apply list_elem_of_fmap in Ha as (m & -> & _).
    apply matches_from_elem in Hb as (_ & _ & _ & _ & Hk & _). cbn. lia.
  - induction (findall ingr_pat line) as [|m l IHl]; cbn; constructor;
      [exact IHl|].
    apply Forall_forall. intros b Hb.
    apply list_elem_of_fmap in Hb as (m' & -> & _). reflexivity.
Qed.

Lemma length_matches_from raw_steps : forall k,
  length (matches_from k raw_steps) =
  length (concat (map (findall ingr_pat) raw_steps)).
Proof.
  induction raw_steps as [|line raw_steps IH]; intros k; [reflexivity|].
  cbn [matches_from map concat]. rewrite !length_app, length_map.
  now rewrite IH.
Qed.

Lemma elem_of_concat {A} (x : A) (ls : list (list A)) :
  x ∈ concat ls -> exists l, l ∈ ls /\ x ∈ l.
Proof.
  intros H. apply list_elem_of_In, in_concat in H as (l & Hl & Hx).
  exists l. split; now apply list_elem_of_In.
Qed.

Section Origin.
Context {F : PyFloat}.

(** Every mention stems from a match of [ingr_pat] on the step line of
    its step index. *)
Lemma scan_steps_origin steps raw_steps ms b :
  scan_steps steps 0 raw_steps [] = Ok ms ->
  b ∈ ms ->
  exists line m s n,
    raw_steps !! step_of b = Some line /\ m ∈ findall ingr_pat line /\
    ingr_pat s = Some (n, m) /\ read_from (step_of b, m) b.
Proof.
  intros H Hb. apply scan_steps_matches in H as (new & -> & H).
  cbn [app] in Hb. apply list_elem_of_lookup in Hb as [j Hj].
  destruct (Forall2_lookup_r _ _ _ _ _ H Hj) as ([k m] & Hkm & Hread).
  apply list_elem_of_lookup_2, matches_from_elem in Hkm
    as (line & s & n & Hline & _ & Hm & Hs).
  cbn [fst snd] in *. pose proof Hread as [Hk _]. cbn [fst] in Hk.
  rewrite Nat.sub_0_r, <- Hk in Hline. rewrite <- Hk in Hread.
  exists line, m, s, n. auto.
Qed.

Lemma Recipe_parse_cookware raw r c :
  Recipe_parse raw = Ok r -> c ∈ Recipe_cookware r ->
  exists line m s n,
    line ∈ raw_steps_of (paragraphs raw) /\ m ∈ findall cookware_pat line /\
    cookware_pat s = Some (n, m) /\ c = cookware_name m.
Proof.
  unfold Recipe_parse. intros H Hc.
  apply assemble_Ok in H as (ms & tbs & ingr & _ & _ & _ & ->).
  cbn [Recipe_cookware] in Hc.
  apply elem_of_concat in Hc as (l & Hl & Hc).
  apply list_elem_of_fmap in Hl as (line & -> & Hline).
  unfold step_cookware in Hc. apply list_elem_of_fmap in Hc as (m & -> & Hm).
  destruct (scan_from_elem _ _ _ _ Hm) as (s & n & Hs).
  exists line, m, s, n. auto.
Qed.

Lemma Recipe_parse_timers raw r t :
  Recipe_parse raw = Ok r -> t ∈ Recipe_timers r ->
  exists line m s n,
    line ∈ raw_steps_of (paragraphs raw) /\ m ∈ findall timer_pat line /\
    timer_pat s = Some (n, m) /\ Timer_parse (matched m) = Ok t.
Proof.
  unfold Recipe_parse. intros H Ht.
  apply assemble_Ok in H as (ms & tbs & ingr & _ & Htbs & _ & ->).
  cbn [Recipe_timers] in Ht.
  apply elem_of_concat in Ht as (ts & Hts & Ht).
  apply mapM_Ok in Htbs.
  apply list_elem_of_lookup in Hts as [i Hi].
  destruct (Forall2_lookup_r _ _ _ _ _ Htbs Hi) as (line & Hline & Hstep).
  unfold step_timers in Hstep. apply mapM_Ok in Hstep.
  apply list_elem_of_lookup in Ht as [j Hj].
  destruct (Forall2_lookup_r _ _ _ _ _ Hstep Hj) as (x & Hx & Hparse).
  apply list_elem_of_lookup_2, list_elem_of_fmap in Hx as (m & -> & Hm).
  destruct (scan_from_elem _ _ _ _ Hm) as (s & n & Hs).
  exists line, m, s, n. split; [|auto].
  eapply list_elem_of_lookup_2, Hline.
Qed.

(** The step index never decreases along the mentions. *)
Lemma scan_steps_step_order steps raw_steps ms i j a b :
  scan_steps steps 0 raw_steps [] = Ok ms ->
  ms !! i = Some a -> ms !! j = Some b -> i <= j ->
  step_of a <= step_of b.
Proof.
  intros H Hi Hj Hij.
  destruct (scan_steps_matches _ _ _ _ _ H) as (new & -> & Hall).
  cbn [app] in *.
  destruct (Forall2_lookup_r _ _ _ _ _ Hall Hi) as (x & Hx & [-> _]).
  destruct (Forall2_lookup_r _ _ _ _ _ Hall Hj) as (y & Hy & [-> _]).
  destruct (decide (i = j)) as [->|Hne].
  - rewrite Hx in Hy. injection Hy as ->. lia.
  - apply (StronglySorted_lookup
             (fun a b : nat * annotation => a.1 <= b.1)
             (matches_from 0 raw_steps) i j x y);
      [apply matches_from_sorted | assumption.. | lia].
Qed.

End Origin.

(** X6.  When the scan of the ingredient mentions succeeds, the mentions
    are the matches of [ingr_pat] on the step lines, one for one and in
    reading order: each mention bears the index of the line of its
    match, the name found in the matched text and the quantity read
    between its braces.  The step index never decreases along the list. *)
Theorem X6_mentions_follow_the_matches `{F : PyFloat} (raw : str)
    (ms : list Ingredient) :
  let raw_steps := raw_steps_of (paragraphs raw) in
  scan_steps (map render_step raw_steps) 0 raw_steps [] = Ok ms ->
  Forall2 read_from (matches_from 0 raw_steps) ms /\
  length ms = length (concat (map (findall ingr_pat) raw_steps)) /\
  (forall b, b ∈ ms ->
     exists line m,
       raw_steps !! step_of b = Some line /\ m ∈ findall ingr_pat line /\
       read_from (step_of b, m) b) /\
  (forall i j a b,
     ms !! i = Some a -> ms !! j = Some b -> i <= j ->
     step_of a <= step_of b).
Proof.
  intros raw_steps H.
  destruct (scan_steps_matches _ _ _ _ _ H) as (new & -> & Hall).
  cbn [app] in *. split; [exact Hall|]. split.
  { rewrite <- (Forall2_length _ _ _ Hall). apply length_matches_from. }
  split.
  - intros b Hb.
    destruct (scan_steps_origin _ _ _ _ H Hb) as (line & m & _ & _ & Hl & Hm & _ & Hr).
    exists line, m. auto.
  - intros i j a b. now apply (scan_steps_step_order _ _ _ i j a b H).
Qed.

Lemma X6_mentions_follow_the_matches_witness :
  length [mkIngredient (F := Tenths) "salt" (0, 4, 8) None;
          mkIngredient "salt" (0, 13, 17) None] =
  length (concat (map (findall ingr_pat)
            (raw_steps_of (paragraphs "Add @salt and @salt")))).
Proof.
  exact (proj1 (proj2 (X6_mentions_follow_the_matches (F := Tenths)
                         "Add @salt and @salt"
                         [mkIngredient "salt" (0, 4, 8) None;
                          mkIngredient "salt" (0, 13, 17) None]
                         eq_refl))).
Defined.

(** X7.  The names of a parsed recipe are made of word characters and
    blanks: no name holds a sigil, a brace or a percent sign.  The names
    of the ingredients and of the cookware are not empty; the name of a
    timer may be. *)
Theorem X7_names_of_a_recipe `{F : PyFloat} (raw : str) (r : Recipe) :
  Recipe_parse raw = Ok r ->
  Forall (fun e => Ingredient_name e <> [] /\
                   all_chars is_name_char (Ingredient_name e))
    (Recipe_ingredients r) /\
  Forall (fun c => c <> [] /\ all_chars is_name_char c) (Recipe_cookware r) /\
  Forall (fun t => all_chars is_name_char (Timer_name t)) (Recipe_timers r).
Proof.
  intros H. repeat split; apply Forall_forall.
  - intros e He.
    destruct (Recipe_parse_first_mention _ _ H) as (ms & Hms & _ & Hfirst).
    destruct (Hfirst e He) as (first & Hin & <- & _).
    destruct (scan_steps_origin _ _ _ _ Hms Hin)
      as (_ & m & s & n & _ & _ & Hs & _ & ra & rest & Hname & _).
    cbn [snd] in Hname.
    apply match_annotation_name in Hs as (name & ra' & Hn & Hchars & _ & Hne).
    rewrite Hn in Hname. injection Hname as <- _ _.
    split; [now apply Hne | exact Hchars].
  - intros c Hc.
    destruct (Recipe_parse_cookware _ _ _ H Hc) as (_ & m & s & n & _ & _ & Hs & ->).
    apply match_annotation_name in Hs as (name & ra' & _ & Hchars & _ & Hne).
    destruct (Hne eq_refl) as [Hnil ->]. auto.
  - intros t Ht.
    destruct (Recipe_parse_timers _ _ _ H Ht) as (_ & m & s & n & _ & _ & Hs & Hp).
    apply match_annotation_name in Hs as (name & ra' & Hn & Hchars & _).
    unfold Timer_parse in Hp. rewrite Hn in Hp.
    apply bind_Ok in Hp as (q & _ & [= <-]). exact Hchars.
Qed.

Lemma X7_names_of_a_recipe_witness :
  Forall (fun c : str => c <> [] /\ all_chars is_name_char c)
    [("large bowl" : str)].
Proof.
  exact (proj1 (proj2 (X7_names_of_a_recipe (F := Tenths)
                         "Rest ~{5%min} in the #large bowl{}"
                         (mkRecipe ∅ [] ["Rest 5 min in the large bowl" : str]
                            ["large bowl" : str]
                            [mkTimer []
                               (Some (mkQuantity (a_int 5)
                                        (Some ("min" : str))))])
                         eq_refl))).
Defined.

(** ** The entries of the metadata *)

Lemma drop_while_idem p s : drop_while p (drop_while p s) = drop_while p s.
Proof.
  destruct (drop_while p s) as [|c t] eqn:Hd; [reflexivity|].
  cbn. now rewrite (drop_while_head _ _ _ _ Hd).
Qed.

(** [strip] leaves a stripped text as it is. *)
Lemma strip_idem s : strip (strip s) = strip s.
Proof.
  assert (Hl : lstrip (strip s) = strip s).
  { unfold strip at 2, rstrip. unfold strip, lstrip at 1.
    pose proof (take_drop_while is_space (rev (lstrip s))) as Hsplit.
    apply (f_equal (@rev ascii)) in Hsplit.
    rewrite rev_app_distr, rev_involutive in Hsplit.
    fold (rstrip (lstrip s)).
    destruct (rstrip (lstrip s)) as [|c t] eqn:Hr; [reflexivity|].
    unfold rstrip in Hr. rewrite Hr in Hsplit. cbn [app] in Hsplit.
    unfold lstrip in Hsplit. symmetry in Hsplit.
    apply drop_while_head in Hsplit. cbn. now rewrite Hsplit. }
  unfold strip at 1. rewrite Hl.
  unfold strip, rstrip. rewrite rev_involutive, drop_while_idem.
  reflexivity.
Qed.

Lemma all_chars_take_while p q s :
  all_chars p s -> all_chars p (take_while q s).
Proof.
  induction 1 as [|c s Hc Hs IH]; cbn; [constructor|].
  destruct (q c); [now constructor | constructor].
Qed.

(** The key of a metadata line holds no colon, its value no line break. *)
Lemma match_metadata_Some raw_line key value :
  match_metadata raw_line = Some (key, value) ->
  is_metadata_line raw_line = true /\
  all_chars (not_chr ":") key /\ all_chars (not_chr newline) value.
Proof.
  unfold match_metadata, is_metadata_line.
  destruct (starts_with ">>" raw_line); [|discriminate].
  destruct (drop_while (not_chr ":") (drop 2 raw_line)) as [|c after];
    [discriminate|].
  set (key_zone := take_while (not_chr ":") (drop 2 raw_line)).
  assert (Hzone : all_chars (not_chr ":") key_zone) by apply take_while_all.
  set (key' := match key_zone with
               | sp :: (_ :: _) as k => if chr_is sp " " then k else key_zone
               | _ => key_zone
               end).
  assert (Hkey : all_chars (not_chr ":") key').
  { subst key'. destruct key_zone as [|sp [|k0 k]]; try assumption.
    destruct (chr_is sp " "); [now apply Forall_inv_tail in Hzone | assumption]. }
  intros H. split; [reflexivity|].
  destruct key' as [|k0 k]; [discriminate|].
  match type of H with
  | match ?d with _ => _ end = _ => destruct d as [|? [|? ?]]
  end; try discriminate; injection H as <- <-;
    (split; [exact Hkey | apply take_while_all]).
Qed.

Lemma dict_of_pairs_lookup l k v :
  dict_of_pairs l !! k = Some v -> (k, v) ∈ l.
Proof.
  induction l as [|[k' v'] l IH] using rev_ind.
  - unfold dict_of_pairs. cbn. now rewrite lookup_empty.
  - rewrite dict_of_pairs_snoc. intros H.
    apply lookup_insert_Some in H as [[-> ->]|[_ H]]; apply elem_of_app.
    + right. apply list_elem_of_here.
    + left. now apply IH.
Qed.

Lemma dict_of_pairs_is_Some l k v :
  (k, v) ∈ l -> is_Some (dict_of_pairs l !! k).
Proof.
  induction l as [|[k' v'] l IH] using rev_ind; intros H.
  - now apply elem_of_nil in H.
  - rewrite dict_of_pairs_snoc. apply lookup_insert_is_Some.
    destruct (decide (k' = k)) as [->|Hne]; [now left|right].
    split; [assumption|]. apply IH.
    apply elem_of_app in H as [H|H]; [exact H|].
    apply list_elem_of_singleton in H. congruence.
Qed.

(** X8.  Every entry of the metadata of a parsed recipe is what
    [_extract_metadata] yields on one of the ">>" lines of the text: its
    key and its value bear no white space at either end, the key holds
    no colon and the value no line break.  Conversely, every line on
    which [_extract_metadata] yields a pair has its key in the
    metadata. *)
Theorem X8_metadata_entries `{F : PyFloat} (raw : str) (r : Recipe) :
  Recipe_parse raw = Ok r ->
  (forall k v : str,
     Recipe_metadata r !! k = Some v ->
     (exists line, line ∈ paragraphs raw /\ is_metadata_line line = true /\
                   _extract_metadata line = Some (k, v)) /\
     strip k = k /\ strip v = v /\
     all_chars (not_chr ":") k /\ all_chars (not_chr newline) v) /\
  (forall line k v : str,
     line ∈ paragraphs raw -> _extract_metadata line = Some (k, v) ->
     is_Some (Recipe_metadata r !! k)).
Proof.
  unfold Recipe_parse. intros H.
  apply assemble_Ok in H as (ms & tbs & ingr & _ & _ & _ & ->).
  cbn [Recipe_metadata]. split.
  - intros k v Hkv. apply dict_of_pairs_lookup in Hkv.
    apply list_elem_of_omap in Hkv as (line & Hline & Hex).
    apply list_elem_of_In, filter_In in Hline as [Hline Hmeta].
    apply list_elem_of_In in Hline.
    split; [exists line; auto|].
    unfold _extract_metadata in Hex.
    destruct (match_metadata line) as [[key value]|] eqn:Hm; [|discriminate].
    injection Hex as <- <-.
    apply match_metadata_Some in Hm as (_ & Hkey & Hvalue).
    rewrite !strip_idem. repeat split; try reflexivity;
      now apply all_chars_strip.
  - intros line k v Hline Hex.
    apply (dict_of_pairs_is_Some _ k v).
    apply list_elem_of_omap. exists line. split; [|exact Hex].
    apply list_elem_of_In, filter_In. split; [now apply list_elem_of_In|].
    unfold _extract_metadata in Hex.
    destruct (match_metadata line) as [[key value]|] eqn:Hm; [|discriminate].
    now apply match_metadata_Some in Hm as (Hmeta & _).
Qed.

Lemma X8_metadata_entries_witness :
  strip ("weird spacing" : str) = "weird spacing" /\
  strip ("every where" : str) = "every where".
Proof.
  pose proof (proj1 (X8_metadata_entries (F := Tenths)
                       ">>  weird spacing  :   every where"
                       (mkRecipe
                          (<[("weird spacing" : str) := ("every where" : str)]> ∅)
                          [] [] [] [])
                       eq_refl)
                "weird spacing" "every where" (lookup_insert_eq _ _ _))
    as (_ & Hk & Hv & _).
  exact (conj Hk Hv).
Defined.

(** ** Adding timers and ingredients *)

Section Adding.
Context {F : PyFloat}.

Lemma raises_fmap {A B} (f : A -> B) (r : result A) :
  raises (f <$> r) <-> raises r.
Proof.
  unfold raises. destruct r as [a|e]; cbn.
  - split; intros [e' He]; discriminate.
  - split; intros _; eauto.
Qed.

Lemma Quantity_add_optional_raises_iff (a b : option Quantity) :
  raises (Quantity_add_optional a b) <-> clash a b.
Proof.
  unfold clash. destruct a as [x|], b as [y|]; cbn.
  - rewrite raises_fmap, Quantity_add_raises_iff. split.
    + intros H. exists x, y. auto.
    + now intros (x' & y' & [= <-] & [= <-] & H).
  - split; [intros [e He]; discriminate | now intros (x' & y' & _ & [=] & _)].
  - split; [intros [e He]; discriminate | now intros (x' & y' & [=] & _)].
  - split; [intros [e He]; discriminate | now intros (x' & y' & [=] & _)].
Qed.

Lemma Quantity_add_optional_None_r (a : option Quantity) :
  Quantity_add_optional a None = Ok a.
Proof. now destruct a. Qed.

Lemma Quantity_add_optional_None_l (b : option Quantity) :
  Quantity_add_optional None b = Ok b.
Proof. now destruct b. Qed.

Lemma raises_bind_iff {A B} (r : result A) (k : A -> result B) :
  (forall a, ~ raises (k a)) -> raises (r ≫= k) <-> raises r.
Proof.
  intros Hk. destruct r as [a|e]; cbn.
  - split; [intros H; now apply Hk in H | intros [e He]; discriminate].
  - split; intros _; eexists; reflexivity.
Qed.

End Adding.

(** X9.  [Timer.__add__] raises exactly when the names differ or when
    both timers bear a quantity and the two quantities differ in unit or
    in the representation of the amount; the names are compared first.
    Otherwise the sum keeps the name and bears the sum of the
    quantities; a timer without quantity changes nothing. *)
Theorem X9_adding_timers `{F : PyFloat} (a b : Timer) :
  (raises (Timer_add a b) <->
     Timer_name a <> Timer_name b \/
     clash (Timer_quantity a) (Timer_quantity b)) /\
  (Timer_name a <> Timer_name b ->
     Timer_add a b = Raise (CannotAddTimer (Timer_name a) (Timer_name b))) /\
  (forall e, Timer_add a b = Raise e ->
     e = CannotAddTimer (Timer_name a) (Timer_name b) \/
     incompatible_addition e) /\
  (forall t, Timer_add a b = Ok t ->
     Timer_name t = Timer_name a /\ Timer_name t = Timer_name b /\
     Quantity_add_optional (Timer_quantity a) (Timer_quantity b) =
       Ok (Timer_quantity t)) /\
  (Timer_name a = Timer_name b -> Timer_quantity b = None ->
     Timer_add a b = Ok a) /\
  (Timer_name a = Timer_name b -> Timer_quantity a = None ->
     Timer_add a b = Ok b).
Proof.
  unfold Timer_add. case_bool_decide as Hn.
  - split.
    { rewrite raises_bind_iff by (intros q [e He]; discriminate).
      rewrite Quantity_add_optional_raises_iff. tauto. }
    split; [tauto|]. split.
    { intros e He.
      destruct (Quantity_add_optional _ _) as [q|e'] eqn:Hq; [discriminate|].
      injection He as <-. right.
      eapply Quantity_add_optional_exception, Hq. }
    split.
    { intros t Ht. apply bind_Ok in Ht as (q & Hq & [= <-]). cbn. auto. }
    split; intros _ Hq; rewrite Hq.
    + rewrite Quantity_add_optional_None_r. cbn. now destruct a.
    + rewrite Quantity_add_optional_None_l. cbn. rewrite Hn. now destruct b.
  - split.
    { split; [now left | intros _; eexists; reflexivity]. }
    split; [reflexivity|]. split; [intros e [= <-]; now left|].
    split; [discriminate|]. split; intros Heq; contradiction.
Qed.

Lemma X9_adding_timers_witness :
  Timer_add (F := Tenths) (mkTimer "rest" None)
    (mkTimer "rest" (Some (mkQuantity (a_int 5) (Some ("min" : str))))) =
  Ok (mkTimer "rest" (Some (mkQuantity (a_int 5) (Some ("min" : str))))).
Proof.
  exact (proj2 (proj2 (proj2 (proj2 (proj2
           (X9_adding_timers (F := Tenths) (mkTimer "rest" None)
              (mkTimer "rest"
                 (Some (mkQuantity (a_int 5) (Some ("min" : str))))))))))
           eq_refl eq_refl).
Defined.

(** X10.  [Ingredient.__add__] raises exactly when the names differ or
    when both ingredients bear a quantity and the two quantities differ
    in unit or in the representation of the amount; the names are
    compared first.  Otherwise the sum keeps the name and the location of
    the left operand and bears the sum of the quantities; an ingredient
    without quantity, added on the right, changes nothing. *)
Theorem X10_adding_ingredients `{F : PyFloat} (a b : Ingredient) :
  (raises (Ingredient_add a b) <->
     Ingredient_name a <> Ingredient_name b \/
     clash (Ingredient_quantity a) (Ingredient_quantity b)) /\
  (Ingredient_name a <> Ingredient_name b ->
     Ingredient_add a b =
       Raise (CannotAddIngredient (Ingredient_name a) (Ingredient_name b))) /\
  (forall e, Ingredient_add a b = Raise e ->
     e = CannotAddIngredient (Ingredient_name a) (Ingredient_name b) \/
     incompatible_addition e) /\
  (forall i, Ingredient_add a b = Ok i ->
     Ingredient_name i = Ingredient_name a /\
     Ingredient_location i = Ingredient_location a /\
     Quantity_add_optional (Ingredient_quantity a) (Ingredient_quantity b) =
       Ok (Ingredient_quantity i)) /\
  (Ingredient_name a = Ingredient_name b -> Ingredient_quantity b = None ->
     Ingredient_add a b = Ok a).
Proof.
  unfold Ingredient_add. case_bool_decide as Hn.
  - split.
    { rewrite raises_bind_iff by (intros q [e He]; discriminate).
      rewrite Quantity_add_optional_raises_iff. tauto. }
    split; [tauto|]. split.
    { intros e He.
      destruct (Quantity_add_optional _ _) as [q|e'] eqn:Hq; [discriminate|].
      injection He as <-. right.
      eapply Quantity_add_optional_exception, Hq. }
    split.
    { intros i Hi. apply bind_Ok in Hi as (q & Hq & [= <-]). cbn. auto. }
    intros _ Hq. rewrite Hq, Quantity_add_optional_None_r. cbn.
    now destruct a.
  - split.
    { split; [now left | intros _; eexists; reflexivity]. }
    split; [reflexivity|]. split; [intros e [= <-]; now left|].
    split; [discriminate|]. intros Heq; contradiction.
Qed.

Lemma X10_adding_ingredients_witness :
  Ingredient_add (F := Tenths) (mkIngredient "salt" (0, 4, 8) None)
    (mkIngredient "pepper" (0, 13, 19) None) =
  Raise (CannotAddIngredient "salt" "pepper").
Proof.
  refine (proj1 (proj2 (X10_adding_ingredients (F := Tenths)
                          (mkIngredient "salt" (0, 4, 8) None)
                          (mkIngredient "pepper" (0, 13, 19) None))) _).
  discriminate.
Defined.

(** ** Sums of exact amounts *)

Lemma Qred_add_comm (x y : Q) : Qred (x + y) = Qred (y + x).
Proof. apply Qred_complete, Qplus_comm. Qed.

Lemma Qred_add_swap (x y z : Q) :
  Qred (Qred (x + y) + z) = Qred (Qred (x + z) + y).
Proof. apply Qred_complete. rewrite !Qred_correct. ring. Qed.

Section Exact.
Context {F : PyFloat}.

Lemma Quantity_add_comm (a b q : Quantity) :
  exact (Some a) -> Quantity_add a b = Ok q -> Quantity_add b a = Ok q.
Proof.
  destruct a as [x u], b as [y v]. unfold exact, Quantity_add. cbn.
  intros Hx. case_bool_decide as Hu; [subst v|discriminate].
  rewrite bool_decide_eq_true_2 by reflexivity.
  destruct x, y; try discriminate; try (now destruct Hx); intros [= <-].
  - now rewrite Z.add_comm.
  - now rewrite Qred_add_comm.
Qed.

Lemma Quantity_add_swap (a x y s1 s2 : Quantity) :
  exact (Some a) ->
  Quantity_add a x = Ok s1 -> Quantity_add s1 y = Ok s2 ->
  exists s1', Quantity_add a y = Ok s1' /\ Quantity_add s1' x = Ok s2.
Proof.
  destruct a as [a u], x as [x v], y as [y w]. unfold exact, Quantity_add.
  cbn. intros Ha. case_bool_decide as Hv; [subst v|discriminate].
  destruct a, x; try discriminate; try (now destruct Ha); intros [= <-]; cbn;
    (case_bool_decide as Hw; [subst w|discriminate]);
    destruct y; try discriminate; intros [= <-];
    eexists; (split; [reflexivity|]); cbn;
    rewrite bool_decide_eq_true_2 by reflexivity.
  - do 2 f_equal. f_equal. lia.
  - do 2 f_equal. f_equal. apply Qred_add_swap.
Qed.

Lemma Quantity_add_optional_exact (a b s : option Quantity) :
  exact a -> exact b -> Quantity_add_optional a b = Ok s -> exact s.
Proof.
  destruct a as [x|], b as [y|]; cbn; intros Ha Hb H;
    try (injection H as <-; assumption).
  destruct (Quantity_add x y) as [q|] eqn:Hq; [|discriminate].
  injection H as <-. cbn.
  apply Quantity_add_Ok in Hq as (_ & _ & Ht & _). now rewrite Ht.
Qed.

Lemma Quantity_add_optional_comm (a b s : option Quantity) :
  exact a -> Quantity_add_optional a b = Ok s ->
  Quantity_add_optional b a = Ok s.
Proof.
  destruct a as [x|], b as [y|]; cbn; try easy. intros Hx.
  destruct (Quantity_add x y) as [q|] eqn:Hq; [|discriminate].
  intros [= <-]. now rewrite (Quantity_add_comm _ _ _ Hx Hq).
Qed.

Lemma Quantity_add_optional_swap (a x y s1 s2 : option Quantity) :
  exact a -> exact x ->
  Quantity_add_optional a x = Ok s1 -> Quantity_add_optional s1 y = Ok s2 ->
  exists s1',
    Quantity_add_optional a y = Ok s1' /\ Quantity_add_optional s1' x = Ok s2.
Proof.
  intros Ha Hx H1 H2. destruct a as [a|].
  - destruct x as [x|].
    + destruct y as [y|].
      * cbn in H1. destruct (Quantity_add a x) as [q1|] eqn:Hq1; [|discriminate].
        injection H1 as <-. cbn in H2.
        destruct (Quantity_add q1 y) as [q2|] eqn:Hq2; [|discriminate].
        injection H2 as <-.
        destruct (Quantity_add_swap _ _ _ _ _ Ha Hq1 Hq2) as (q1' & Hy & Hyx).
        exists (Some q1'). cbn. now rewrite Hy, Hyx.
      * rewrite Quantity_add_optional_None_r in H2. injection H2 as <-.
        exists (Some a). split; [reflexivity | exact H1].
    + injection H1 as <-. exists s2. split; [exact H2|].
      apply Quantity_add_optional_None_r.
  - rewrite Quantity_add_optional_None_l in H1. injection H1 as <-.
    exists y. split; [apply Quantity_add_optional_None_l|].
    now apply Quantity_add_optional_comm.
Qed.

Lemma sum_quantities_Permutation qs qs' :
  qs ≡ₚ qs' -> forall acc total,
  exact acc -> Forall exact qs ->
  sum_quantities acc qs = Ok total -> sum_quantities acc qs' = Ok total.
Proof.
  induction 1 as [|x l l' Hp IH|x y l|l l' l'' Hp1 IH1 Hp2 IH2];
    intros acc total Hacc Hall; cbn [sum_quantities].
  - easy.
  - apply Forall_cons in Hall as [Hx Hl]. intros H.
    apply bind_Ok in H as (acc' & Hacc' & H). rewrite Hacc'. cbn.
    apply IH; [|assumption..].
    eapply Quantity_add_optional_exact; [| |exact Hacc']; assumption.
  - apply Forall_cons in Hall as [Hy Hall].
    apply Forall_cons in Hall as [Hx Hl]. intros H.
    apply bind_Ok in H as (s1 & Hs1 & H).
    apply bind_Ok in H as (s2 & Hs2 & H).
    destruct (Quantity_add_optional_swap _ _ _ _ _ Hacc Hy Hs1 Hs2)
      as (s1' & H1 & H2).
    rewrite H1. cbn. rewrite H2. cbn. exact H.
  - intros H. apply IH2; [assumption | now rewrite <- Hp1|].
    now apply IH1.
Qed.

End Exact.

(** X11.  Integer and rational amounts add up exactly: on quantities
    with such amounts [Quantity.__add__] gives the same sum in either
    order, and the total of a sequence of optional quantities, added from
    left to right by [Quantity.add_optional], does not depend on the
    order of the sequence; one order raises exactly when the other one
    does. *)
Theorem X11_exact_totals `{F : PyFloat} :
  (forall a b q : Quantity,
     exact (Some a) -> Quantity_add a b = Ok q -> Quantity_add b a = Ok q) /\
  (forall (acc : option Quantity) (qs qs' : list (option Quantity)),
     exact acc -> Forall exact qs -> qs ≡ₚ qs' ->
     (forall total,
        sum_quantities acc qs = Ok total ->
        sum_quantities acc qs' = Ok total) /\
     (raises (sum_quantities acc qs) <-> raises (sum_quantities acc qs'))).
Proof.
  split; [exact Quantity_add_comm|].
  intros acc qs qs' Hacc Hall Hp.
  assert (Hall' : Forall exact qs') by now rewrite <- Hp.
  split.
  - intros total. now apply sum_quantities_Permutation.
  - unfold raises. split; intros [e He].
    + destruct (sum_quantities acc qs') as [t|e'] eqn:H'; [|eauto].
      apply (sum_quantities_Permutation qs' qs) in H';
        [congruence | now symmetry | assumption..].
    + destruct (sum_quantities acc qs) as [t|e'] eqn:H'; [|eauto].
      apply (sum_quantities_Permutation qs qs') in H';
        [congruence | assumption..].
Qed.

Lemma X11_exact_totals_witness :
  sum_quantities (F := Tenths) None
    [Some (mkQuantity (a_Fraction (1 # 4)) (Some ("cup" : str))); None;
     Some (mkQuantity (a_Fraction (1 # 2)) (Some ("cup" : str)))] =
  Ok (Some (mkQuantity (a_Fraction (3 # 4)) (Some ("cup" : str)))).
Proof.
  refine (proj1 (proj2 (X11_exact_totals (F := Tenths)) None
            [Some (mkQuantity (a_Fraction (1 # 2)) (Some ("cup" : str)));
             Some (mkQuantity (a_Fraction (1 # 4)) (Some ("cup" : str)));
             None]
            [Some (mkQuantity (a_Fraction (1 # 4)) (Some ("cup" : str))); None;
             Some (mkQuantity (a_Fraction (1 # 2)) (Some ("cup" : str)))]
            _ _ _) _ _).
  - exact I.
  - repeat constructor; discriminate.
  - etransitivity; [apply Permutation_swap|]. apply perm_skip, perm_swap.
  - reflexivity.
Defined.

(** ** Ingredient and cookware markup in the rendered steps *)

Lemma re_sub_name_prefix pre s :
  all_chars no_name_sigil pre ->
  re_sub match_name_markup (pre ++ s) = pre ++ re_sub match_name_markup s.
Proof.
  intros Hp. induction Hp as [|c pre Hc _ IH]; [reflexivity|].
  unfold no_name_sigil in Hc. apply andb_true_iff in Hc as [H1 H2].
  cbn [app]. rewrite re_sub_keep, IH; [reflexivity|].
  apply match_name_markup_sigil; now apply not_chr_true.
Qed.

Lemma brace_group_length_none s :
  (forall c t, s = c :: t -> c <> "{"%char) -> brace_group_length s = 0.
Proof.
  intros H. destruct s as [|c t]; [reflexivity|].
  unfold brace_group_length. destruct (chr_is c "{") eqn:E; [|reflexivity].
  apply chr_is_true in E. now destruct (H c t eq_refl).
Qed.

Lemma name_run_stop run rest :
  all_chars is_name_char run ->
  (forall c t, rest = c :: t -> is_name_char c = false) ->
  take_while is_name_char (run ++ rest) = run /\
  drop_while is_name_char (run ++ rest) = rest.
Proof.
  intros Hrun Hrest. destruct rest as [|c t].
  - rewrite app_nil_r. split; [now apply take_while_whole|].
    now apply drop_while_whole.
  - pose proof (Hrest c t eq_refl). split.
    + now apply take_while_stop.
    + now apply drop_while_stop.
Qed.

Lemma match_name_markup_braced sigil w run body rest :
  chr_is sigil "@" || chr_is sigil "#" = true ->
  is_word w = true -> all_chars is_name_char run ->
  all_chars (not_chr "}") body ->
  match_name_markup
    ((sigil :: w :: run ++ "{"%char :: body ++ ["}"%char]) ++ rest) =
  Some (length (sigil :: w :: run ++ "{"%char :: body ++ ["}"%char]),
        w :: run).
Proof.
  intros Hs Hw Hrun Hbody. unfold match_name_markup. cbn [app].
  rewrite Hs, Hw. cbn [andb]. rewrite !app_cons_assoc. cbn [app].
  rewrite take_while_stop, drop_while_stop by (assumption || reflexivity).
  rewrite brace_group_length_braced by assumption.
  f_equal. f_equal. len.
Qed.

Lemma match_name_markup_bare sigil w run rest :
  chr_is sigil "@" || chr_is sigil "#" = true ->
  is_word w = true -> all_chars is_name_char run ->
  (forall c t, rest = c :: t -> is_name_char c = false /\ c <> "{"%char) ->
  match_name_markup ((sigil :: w :: run) ++ rest) =
  Some (length (sigil :: w :: run), w :: run).
Proof.
  intros Hs Hw Hrun Hrest. unfold match_name_markup. cbn [app].
  rewrite Hs, Hw. cbn [andb].
  destruct (name_run_stop run rest Hrun) as [-> ->];
    [intros c t Hc; now apply Hrest in Hc|].
  rewrite brace_group_length_none;
    [|intros c t Hc; now apply Hrest in Hc].
  f_equal. f_equal. len.
Qed.

Lemma re_sub_name_markup_braced sigil w pre run body rest :
  chr_is sigil "@" || chr_is sigil "#" = true ->
  all_chars no_name_sigil pre ->
  is_word w = true -> all_chars is_name_char run ->
  all_chars (not_chr "}") body ->
  re_sub match_name_markup
    (pre ++ sigil :: w :: run ++ "{"%char :: body ++ "}"%char :: rest) =
  pre ++ w :: run ++ re_sub match_name_markup rest.
Proof.
  intros Hs Hpre Hw Hrun Hbody.
  rewrite re_sub_name_prefix by assumption. f_equal.
  change (sigil :: w :: run ++ "{"%char :: body ++ "}"%char :: rest)
    with ((sigil :: w :: run) ++ "{"%char :: body ++ "}"%char :: rest).
  replace ((sigil :: w :: run) ++ "{"%char :: body ++ "}"%char :: rest)
    with ((sigil :: w :: run ++ "{"%char :: body ++ ["}"%char]) ++ rest)
    by (cbn [app]; now rewrite !app_cons_assoc).
  rewrite (re_sub_match _ _ _ (w :: run)); [reflexivity | discriminate|].
  now apply match_name_markup_braced.
Qed.

Lemma render_step_name_markup_braced sigil w pre run body rest :
  chr_is sigil "@" || chr_is sigil "#" = true ->
  is_word w = true -> all_chars is_name_char run ->
  all_chars (not_chr "}") body ->
  all_chars no_name_sigil pre ->
  all_chars (not_chr "~") pre -> all_chars (not_chr "~") body ->
  all_chars plain rest ->
  render_step
    (pre ++ sigil :: w :: run ++ "{"%char :: body ++ "}"%char :: rest) =
  pre ++ w :: run ++ rest.
Proof.
  intros Hs Hw Hrun Hbody Hpre Hpre' Hbody' Hrest. unfold render_step.
  rewrite re_sub_timer_plain.
  - rewrite re_sub_name_markup_braced by assumption.
    now rewrite (re_sub_name_plain rest) by now apply plain_no_name_sigil.
  - apply all_chars_app; [assumption|].
    assert (Hsig : not_chr "~" sigil = true).
    { apply not_chr_true. intros ->. discriminate Hs. }
    constructor; [exact Hsig|].
    constructor; [apply not_chr_true; intros ->; discriminate Hw|].
    apply all_chars_app.
    { eapply all_chars_weaken; [|exact Hrun].
      intros c Hc. apply not_chr_true. intros ->. discriminate Hc. }
    constructor; [reflexivity|].
    apply all_chars_app; [assumption|].
    constructor; [reflexivity | now apply plain_no_tilde].
Qed.

(** X12.  The outer substitution of the renderer goes through a line
    from left to right; text without "@" and "#" is kept, and an
    ingredient or cookware annotation is replaced by its name: the sigil
    goes, and so does the brace group that follows the name.  When the
    text around a braced annotation holds no sigil of its own, the
    rendered line is that text with the name in place of the
    annotation. *)
Theorem X12_name_markup_rendering (sigil w : ascii) (pre run body rest : str) :
  chr_is sigil "@" || chr_is sigil "#" = true ->
  all_chars no_name_sigil pre ->
  is_word w = true -> all_chars is_name_char run ->
  (all_chars (not_chr "}") body ->
   re_sub match_name_markup
     (pre ++ sigil :: w :: run ++ "{"%char :: body ++ "}"%char :: rest) =
     pre ++ w :: run ++ re_sub match_name_markup rest) /\
  ((forall c t, rest = c :: t -> is_name_char c = false /\ c <> "{"%char) ->
   re_sub match_name_markup (pre ++ sigil :: w :: run ++ rest) =
     pre ++ w :: run ++ re_sub match_name_markup rest) /\
  (all_chars (not_chr "}") body ->
   all_chars (not_chr "~") pre -> all_chars (not_chr "~") body ->
   all_chars plain rest ->
   render_step
     (pre ++ sigil :: w :: run ++ "{"%char :: body ++ "}"%char :: rest) =
     pre ++ w :: run ++ rest).
Proof.
  intros Hs Hpre Hw Hrun. split; [|split].
  - intros Hbody. now apply re_sub_name_markup_braced.
  - intros Hrest. rewrite re_sub_name_prefix by assumption. f_equal.
    change (sigil :: w :: run ++ rest) with ((sigil :: w :: run) ++ rest).
    rewrite (re_sub_match _ _ _ (w :: run)); [reflexivity | discriminate|].
    now apply match_name_markup_bare.
  - intros Hbody Hpre' Hbody' Hrest.
    now apply render_step_name_markup_braced.
Qed.

Lemma X12_name_markup_rendering_witness :
  render_step "Place @other things{} in the pan too" =
  "Place other things in the pan too".
Proof.
  refine (proj2 (proj2 (X12_name_markup_rendering "@" "o" "Place "
                          "ther things" "" " in the pan too" _ _ _ _))
            _ _ _ _);
    unfold all_chars; repeat constructor.
Defined.

(** ** The quantity between the braces *)

Lemma not_brace_pct_not_brace c : not_brace_pct c = true -> not_chr "}" c = true.
Proof. intros H. now apply andb_true_iff in H as [? _]. Qed.

Lemma findall_head {B} (m : str -> option (nat * B)) c s n b :
  m (c :: s) = Some (n, b) ->
  findall m (c :: s) = b :: scan_from m (pred n) s.
Proof. intros H. unfold findall. cbn [scan_from]. now rewrite H. Qed.

(** The first match of the quantity pattern on [amount%unit]: the unit
    is the run of word characters right behind the percent sign. *)
Lemma match_quantity_amount_unit amount unit :
  amount <> [] -> all_chars not_brace_pct amount ->
  exists n,
    match_quantity (amount ++ "%"%char :: unit) =
    Some (n, (amount, take_while is_word unit)).
Proof.
  intros Hne Ha. unfold match_quantity.
  rewrite take_while_stop, drop_while_stop by (assumption || reflexivity).
  destruct amount as [|a0 amount]; [contradiction|].
  cbn [app]. eexists. reflexivity.
Qed.

Lemma match_quantity_amount amount :
  amount <> [] -> all_chars not_brace_pct amount ->
  exists n, match_quantity amount = Some (n, (amount, [])).
Proof.
  intros Hne Ha. unfold match_quantity.
  rewrite take_while_whole, drop_while_whole by assumption.
  destruct amount as [|a0 amount]; [contradiction|].
  eexists. reflexivity.
Qed.

Section QuantityOfAnnotation.
Context {F : PyFloat}.

Lemma _get_quantity_amount_unit amount unit :
  amount <> [] -> all_chars not_brace_pct amount ->
  _get_quantity (findall match_quantity (amount ++ "%"%char :: unit)) =
  n ← read_number (selected_type amount) amount;
  Ok (Some (mkQuantity n (unit_of (take_while is_word unit)))).
Proof.
  intros Hne Ha.
  destruct (match_quantity_amount_unit amount unit Hne Ha) as [n Hm].
  destruct amount as [|a0 amount]; [contradiction|]. cbn [app] in *.
  rewrite (findall_head _ _ _ _ _ Hm).
  now apply _get_quantity_read.
Qed.

Lemma _get_quantity_amount amount :
  amount <> [] -> all_chars not_brace_pct amount ->
  _get_quantity (findall match_quantity amount) =
  n ← read_number (selected_type amount) amount;
  Ok (Some (mkQuantity n None)).
Proof.
  intros Hne Ha.
  destruct (match_quantity_amount amount Hne Ha) as [n Hm].
  destruct amount as [|a0 amount]; [contradiction|].
  rewrite (findall_head _ _ _ _ _ Hm).
  now apply _get_quantity_read.
Qed.

Lemma Timer_parse_bare name :
  all_chars (not_chr "{") name ->
  Timer_parse ("~"%char :: name) = Ok (mkTimer name None).
Proof.
  intros Hname. unfold Timer_parse, name_and_amount. rewrite chr_is_refl.
  rewrite take_while_whole, drop_while_whole by assumption.
  reflexivity.
Qed.

End QuantityOfAnnotation.

(** X13.  [Timer.parse] on a braced timer [~name{amount}] or
    [~name{amount%unit}] returns the name as written and the amount read
    under the representation selected for it (raising what the numeric
    constructor raises); the unit is the run of word characters right
    behind the percent sign, so that a unit of two words is cut after
    the first one and a unit behind a blank is dropped.  Without an
    amount, or without braces, the timer bears no quantity. *)
Theorem X13_parsing_a_timer `{F : PyFloat} (name amount unit : str) :
  all_chars (not_chr "{") name ->
  (amount <> [] -> all_chars not_brace_pct amount ->
   all_chars (not_chr "}") unit ->
   Timer_parse (timer_markup name amount unit) =
     n ← read_number (selected_type amount) amount;
     Ok (mkTimer name
           (Some (mkQuantity n (unit_of (take_while is_word unit)))))) /\
  Timer_parse ("~"%char :: name ++ "{}") = Ok (mkTimer name None) /\
  Timer_parse ("~"%char :: name) = Ok (mkTimer name None).
Proof.
  intros Hname. split; [|split].
  - intros Hne Ha Hu. unfold Timer_parse, timer_markup.
    assert (Hbody : all_chars (not_chr "}")
                      (amount ++ match unit with
                                 | [] => []
                                 | _ :: _ => "%"%char :: unit
                                 end)).
    { apply all_chars_app.
      - eapply all_chars_weaken; [apply not_brace_pct_not_brace | exact Ha].
      - destruct unit; [constructor|]. now constructor. }
    rewrite app_assoc.
    rewrite (name_and_amount_braced "~" true name _ Hname Hbody)
      by discriminate.
    destruct unit as [|u0 unit].
    + rewrite app_nil_r, _get_quantity_amount by assumption.
      now destruct (read_number _ _).
    + rewrite _get_quantity_amount_unit by assumption.
      now destruct (read_number _ _).
  - unfold Timer_parse.
    change ("~"%char :: name ++ "{}")
      with ("~"%char :: name ++ "{"%char :: [] ++ ["}"%char]).
    rewrite (name_and_amount_braced "~" true name [] Hname)
      by (constructor || discriminate).
    reflexivity.
  - now apply Timer_parse_bare.
Qed.

Lemma X13_parsing_a_timer_witness :
  Timer_parse (F := Tenths) "~egg timer{10%fl oz}" =
  Ok (mkTimer "egg timer"
        (Some (mkQuantity (a_int 10) (Some ("fl" : str))))).
Proof.
  refine (proj1 (X13_parsing_a_timer (F := Tenths) "egg timer" "10" "fl oz" _)
            _ _ _);
    (discriminate || (unfold all_chars; repeat constructor)).
Defined.

(** ** Comments that are removed as intended *)

Lemma last_block_end_none s :
  all_chars (not_chr "]") s -> last_block_end s = None.
Proof.
  induction 1 as [|c t Hc Ht IH]; [reflexivity|].
  cbn [last_block_end]. rewrite IH. destruct Ht as [|d t' Hd _]; [reflexivity|].
  unfold not_chr in Hd. apply negb_true_iff in Hd.
  now rewrite Hd, andb_false_r.
Qed.

Lemma last_block_end_last body tail :
  all_chars (not_chr "]") tail ->
  last_block_end (body ++ "-"%char :: "]"%char :: tail) =
  Some (length body + 2).
Proof.
  intros Ht. induction body as [|c body IH].
  - cbn [app last_block_end]. rewrite (last_block_end_none tail Ht).
    destruct tail; reflexivity.
  - cbn [app last_block_end length]. now rewrite IH.
Qed.

Lemma strip_comments_plain_prefix pre s :
  all_chars no_comment_sign pre ->
  strip_comments (pre ++ s) = pre ++ strip_comments s.
Proof.
  intros Hp. induction Hp as [|c pre Hc _ IH]; [reflexivity|].
  unfold no_comment_sign in Hc. apply andb_true_iff in Hc as [H1 H2].
  apply not_chr_true in H1, H2.
  cbn [app]. unfold strip_comments in *.
  now rewrite re_sub_keep, IH by now apply match_comment_other.
Qed.

Lemma strip_comments_line_comment body :
  body <> [] -> all_chars (not_chr newline) body ->
  strip_comments ("--" ++ body) = [].
Proof.
  intros Hne Hb. unfold strip_comments.
  change ("--" ++ body) with ("-"%char :: "-"%char :: body).
  rewrite <- (app_nil_r ("-"%char :: "-"%char :: body)).
  rewrite (re_sub_match _ _ _ []); [reflexivity | discriminate|].
  rewrite app_nil_r. unfold match_comment. cbn [app].
  change (chr_is "-" "-") with true. cbn [andb].
  rewrite take_while_whole by assumption.
  destruct body; [contradiction | reflexivity].
Qed.

Lemma strip_comments_block_comment body tail :
  all_chars (not_chr newline) body ->
  all_chars (not_chr newline) tail -> all_chars (not_chr "]") tail ->
  strip_comments ("[-" ++ body ++ "-]" ++ tail) = strip_comments tail.
Proof.
  intros Hb Hnl Ht. unfold strip_comments.
  change ("[-" ++ body ++ "-]" ++ tail)
    with ("["%char :: "-"%char :: body ++ "-"%char :: "]"%char :: tail).
  replace ("["%char :: "-"%char :: body ++ "-"%char :: "]"%char :: tail)
    with (("["%char :: "-"%char :: body ++ ["-"%char; "]"%char]) ++ tail)
    by (cbn [app]; now rewrite <- app_assoc).
  rewrite (re_sub_match _ _ _ []); [reflexivity | discriminate|].
  cbn [app]. unfold match_comment. rewrite <- app_assoc. cbn [app].
  change (chr_is "[" "-") with false. cbn [andb].
  change (chr_is "[" "[") with true. change (chr_is "-" "-") with true.
  cbn [andb].
  rewrite take_while_whole.
  - rewrite last_block_end_last by assumption. f_equal. f_equal. len.
  - apply all_chars_app; [assumption|]. now repeat constructor.
Qed.

(** X14.  Comments are removed as intended in these cases.  After text
    without "-" and "[", a line comment of two dashes and at least one
    more character is removed up to the end of its line, and the lines
    that follow are treated on their own; a block comment that is
    followed, on its line, by text without a closing square bracket is
    removed from "[-" to "-]", and the text behind it is treated in the
    same way. *)
Theorem X14_comments_removed (pre body : str) :
  all_chars no_comment_sign pre ->
  all_chars (not_chr newline) body ->
  (body <> [] ->
   strip_comments (pre ++ "--" ++ body) = pre /\
   forall rest,
     all_chars (not_chr newline) pre ->
     strip_comments (pre ++ "--" ++ body ++ newline :: rest) =
       pre ++ newline :: strip_comments rest) /\
  (forall tail,
     all_chars (not_chr newline) tail -> all_chars (not_chr "]") tail ->
     strip_comments (pre ++ "[-" ++ body ++ "-]" ++ tail) =
       pre ++ strip_comments tail).
Proof.
  intros Hpre Hbody. split.
  - intros Hne.
    assert (Hline : strip_comments (pre ++ "--" ++ body) = pre).
    { rewrite strip_comments_plain_prefix by assumption.
      rewrite strip_comments_line_comment by assumption.
      apply app_nil_r. }
    split; [exact Hline|]. intros rest Hnl.
    replace (pre ++ "--" ++ body ++ newline :: rest)
      with ((pre ++ "--" ++ body) ++ newline :: rest)
      by (cbn [app]; now rewrite <- app_assoc).
    rewrite strip_comments_line, Hline; [reflexivity|].
    apply all_chars_app; [assumption|]. now repeat constructor.
  - intros tail Hnl Ht.
    rewrite strip_comments_plain_prefix by assumption.
    now rewrite strip_comments_block_comment.
Qed.

Lemma X14_comments_removed_witness :
  strip_comments "and [- in text somewhere -] as well" = "and  as well".
Proof.
  refine (proj2 (X14_comments_removed "and " " in text somewhere " _ _)
            " as well" _ _);
    unfold all_chars; repeat constructor.
Defined.

(** ** The order of the ingredients *)

Lemma first_appearances_lookup l : forall seen j y,
  first_appearances seen l !! j = Some y ->
  exists q, l !! q = Some y /\ (y ∉ take q l) /\ (y ∉ seen).
Proof.
  induction l as [|n rest IH]; intros seen j y; cbn [first_appearances].
  - intros H. discriminate H.
  - case_bool_decide as Hn.
    + intros H. apply IH in H as (q & Hq & Hfirst & Hseen).
      exists (S q). split; [exact Hq|]. split; [|exact Hseen].
      cbn [take]. rewrite not_elem_of_cons. split; [|exact Hfirst].
      intros ->. contradiction.
    + destruct j as [|j].
      * intros [= <-]. exists 0. split; [reflexivity|].
        split; [apply not_elem_of_nil | exact Hn].
      * intros H.
        change (first_appearances (n :: seen) rest !! j = Some y) in H.
        apply IH in H as (q & Hq & Hfirst & Hseen).
        apply not_elem_of_cons in Hseen as [Hyn Hseen].
        exists (S q). split; [exact Hq|]. split; [|exact Hseen].
        cbn [take]. rewrite not_elem_of_cons. auto.
Qed.

(** Names come in the order of their first appearance. *)
Lemma first_appearances_order l : forall seen i j x y,
  i < j ->
  first_appearances seen l !! i = Some x ->
  first_appearances seen l !! j = Some y ->
  exists p q,
    p < q /\ l !! p = Some x /\ l !! q = Some y /\
    (x ∉ take p l) /\ (y ∉ take q l).
Proof.
  induction l as [|n rest IH]; intros seen i j x y Hij;
    cbn [first_appearances].
  - intros H. discriminate H.
  - case_bool_decide as Hn.
    + intros Hx Hy.
      assert (Hxs : x ∉ seen).
      { apply list_elem_of_lookup_2, first_appearances_fresh in Hx. tauto. }
      assert (Hys : y ∉ seen).
      { apply list_elem_of_lookup_2, first_appearances_fresh in Hy. tauto. }
      destruct (IH seen i j x y Hij Hx Hy) as (p & q & Hpq & Hp & Hq & Hfx & Hfy).
      exists (S p), (S q). split; [lia|]. split; [exact Hp|].
      split; [exact Hq|]. cbn [take]. rewrite !not_elem_of_cons.
      split; (split; [intros ->; contradiction | assumption]).
    + destruct j as [|j]; [lia|]. destruct i as [|i].
      * intros [= <-] Hy.
        change (first_appearances (n :: seen) rest !! j = Some y) in Hy.
        apply first_appearances_lookup in Hy as (q & Hq & Hfirst & Hseen).
        apply not_elem_of_cons in Hseen as [Hyn _].
        exists 0, (S q). split; [lia|]. split; [reflexivity|].
        split; [exact Hq|]. split; [apply not_elem_of_nil|].
        cbn [take]. rewrite not_elem_of_cons. auto.
      * intros Hx Hy.
        change (first_appearances (n :: seen) rest !! i = Some x) in Hx.
        change (first_appearances (n :: seen) rest !! j = Some y) in Hy.
        assert (Hxs : x <> n).
        { apply list_elem_of_lookup_2, first_appearances_fresh in Hx.
          destruct Hx as [Hx _]. apply not_elem_of_cons in Hx. tauto. }
        assert (Hys : y <> n).
        { apply list_elem_of_lookup_2, first_appearances_fresh in Hy.
          destruct Hy as [Hy _]. apply not_elem_of_cons in Hy. tauto. }
        destruct (IH (n :: seen) i j x y ltac:(lia) Hx Hy)
          as (p & q & Hpq & Hp & Hq & Hfx & Hfy).
        exists (S p), (S q). split; [lia|]. split; [exact Hp|].
        split; [exact Hq|]. cbn [take]. rewrite !not_elem_of_cons. auto.
Qed.

Section Order.
Context {F : PyFloat}.

Lemma mentions_of_none n ms :
  n ∉ map Ingredient_name ms -> mentions_of n ms = [].
Proof.
  induction ms as [|m ms IH]; intros H; [reflexivity|].
  cbn [map] in H. apply not_elem_of_cons in H as [Hm H].
  rewrite mentions_of_cons_other by congruence. now apply IH.
Qed.

(** The first mention of a name is the head of its mentions. *)
Lemma mentions_of_first n ms p :
  map Ingredient_name ms !! p = Some n ->
  n ∉ take p (map Ingredient_name ms) ->
  exists first others,
    ms !! p = Some first /\ mentions_of n ms = first :: others.
Proof.
  revert p. induction ms as [|m ms IH]; intros p; [discriminate|].
  destruct p as [|p]; cbn [map take].
  - intros [= <-] _. exists m, (mentions_of (Ingredient_name m) ms).
    split; [reflexivity|]. now apply mentions_of_cons_same.
  - intros Hp Hfirst. apply not_elem_of_cons in Hfirst as [Hm Hfirst].
    destruct (IH p Hp Hfirst) as (first & others & Hl & Hms).
    exists first, others. split; [exact Hl|].
    rewrite mentions_of_cons_other by congruence. exact Hms.
Qed.

Lemma lookup_map_names (l : list Ingredient) i a :
  l !! i = Some a -> map Ingredient_name l !! i = Some (Ingredient_name a).
Proof.
  revert i. induction l as [|x l IH]; intros [|i]; cbn; try discriminate.
  - now intros [= ->].
  - apply IH.
Qed.

End Order.

(** X15.  The ingredients of a parsed recipe come in the reading order
    of their first mentions: of two ingredients, the one listed first
    has its location on an earlier step, or on the same step and ending
    at or before the start of the other one. *)
Theorem X15_ingredients_in_reading_order `{F : PyFloat} (raw : str)
    (r : Recipe) (i j : nat) (a b : Ingredient) :
  Recipe_parse raw = Ok r ->
  Recipe_ingredients r !! i = Some a ->
  Recipe_ingredients r !! j = Some b ->
  i < j ->
  step_of a < step_of b \/
  (step_of a = step_of b /\ end_of a <= start_of b).
Proof.
  unfold Recipe_parse. intros H Hi Hj Hij.
  apply assemble_Ok in H as (ms & tbs & ingr & Hms & _ & Hdup & ->).
  cbn [Recipe_ingredients] in Hi, Hj.
  apply _remove_duplicates_Ok in Hdup as [Hnames Hdup].
  pose proof (lookup_map_names _ _ _ Hi) as Hni.
  pose proof (lookup_map_names _ _ _ Hj) as Hnj.
  rewrite Hnames in Hni, Hnj.
  destruct (first_appearances_order _ _ _ _ _ _ Hij Hni Hnj)
    as (p & q & Hpq & Hp & Hq & Hfa & Hfb).
  destruct (mentions_of_first _ _ _ Hp Hfa) as (fa & oa & Hla & Hma).
  destruct (mentions_of_first _ _ _ Hq Hfb) as (fb & ob & Hlb & Hmb).
  destruct (Hdup a (list_elem_of_lookup_2 _ _ _ Hi))
    as (fa' & oa' & Hma' & Hloca & _).
  destruct (Hdup b (list_elem_of_lookup_2 _ _ _ Hj))
    as (fb' & ob' & Hmb' & Hlocb & _).
  rewrite Hma in Hma'. injection Hma' as <- _.
  rewrite Hmb in Hmb'. injection Hmb' as <- _.
  unfold step_of, start_of, end_of. rewrite Hloca, Hlocb.
  fold (step_of fa) (step_of fb) (end_of fa) (start_of fb).
  pose proof (scan_steps_step_order _ _ _ p q fa fb Hms Hla Hlb ltac:(lia))
    as Hstep.
  assert (Hrec : recorded (map render_step (raw_steps_of (paragraphs raw))) ms).
  { eapply scan_steps_recorded; [constructor | exact Hms]. }
  destruct (recorded_sorted _ _ Hrec) as [Hsorted _].
  pose proof (StronglySorted_lookup _ _ p q fa fb Hsorted Hla Hlb Hpq) as Hspan.
  unfold span_before in Hspan.
  destruct (decide (step_of fa = step_of fb)) as [Heq|Hne].
  - right. split; [exact Heq | exact (Hspan Heq)].
  - left. lia.
Qed.

Lemma X15_ingredients_in_reading_order_witness :
  0 < 0 \/ (0 = 0 /\ 8 <= 13).
Proof.
  exact (X15_ingredients_in_reading_order (F := Tenths)
           "Add @salt{1%g} and @oil{}, then @salt{2%g}"
           (mkRecipe ∅
              [mkIngredient "salt" (0, 4, 8)
                 (Some (mkQuantity (a_int 3) (Some ("g" : str))));
               mkIngredient "oil" (0, 13, 16) None]
              ["Add salt and oil, then salt" : str] [] [])
           0 1
           (mkIngredient "salt" (0, 4, 8)
              (Some (mkQuantity (a_int 3) (Some ("g" : str)))))
           (mkIngredient "oil" (0, 13, 16) None)
           eq_refl eq_refl eq_refl ltac:(lia)).
Defined.

(** ** Annotations that are found *)

Lemma scan_from_skip {B} (m : str -> option (nat * B)) pre s :
  scan_from m (length pre) (pre ++ s) = scan_from m 0 s.
Proof. induction pre as [|c pre IH]; simpl; [reflexivity | exact IH]. Qed.

(** A match at the head is recorded and the scan resumes behind it. *)
Lemma findall_match {B} (m : str -> option (nat * B)) x s b :
  x <> [] -> m (x ++ s) = Some (length x, b) ->
  findall m (x ++ s) = b :: findall m s.
Proof.
  intros Hx Hm. destruct x as [|c x]; [contradiction|].
  unfold findall. change ((c :: x) ++ s) with (c :: (x ++ s)) in *.
  cbn [scan_from]. rewrite Hm. cbn [length pred].
  now rewrite scan_from_skip.
Qed.

Lemma findall_keep {B} (m : str -> option (nat * B)) c s :
  m (c :: s) = None -> findall m (c :: s) = findall m s.
Proof. intros Hm. unfold findall. cbn [scan_from]. now rewrite Hm. Qed.

Lemma is_sigil_not_name_char c :
  is_sigil c = true -> is_name_char c = false /\ c <> "{"%char.
Proof.
  unfold is_sigil. intros H.
  apply orb_true_iff in H as [H|H]; [apply orb_true_iff in H as [H|H]|];
    apply chr_is_true in H as ->; split; (reflexivity || discriminate).
Qed.

Lemma not_name_char_not_word c : is_name_char c = false -> is_word c = false.
Proof.
  unfold is_name_char. intros H. now apply orb_false_iff in H as [? _].
Qed.

Lemma brace_group_length_after_run t c more :
  all_chars (not_chr "{") t -> is_name_char c = false -> c <> "{"%char ->
  brace_group_length (drop_while is_name_char (t ++ c :: more)) = 0.
Proof.
  intros Ht Hc Hb. induction Ht as [|e t He _ IH]; cbn [app drop_while].
  - rewrite Hc. apply brace_group_length_none. now intros ? ? [= <- _].
  - destruct (is_name_char e); [exact IH|].
    apply brace_group_length_none. intros ? ? [= <- _].
    now apply not_chr_true.
Qed.

(** Inside text without annotation no pattern matches, whatever follows
    that text behind a character that is neither a name character nor an
    opening brace. *)
Lemma match_annotation_prefix_none sigil empty_ok d t c more :
  is_sigil sigil = true -> no_annotation (d :: t) = true ->
  is_name_char c = false -> c <> "{"%char ->
  match_annotation sigil empty_ok ((d :: t) ++ c :: more) = None.
Proof.
  intros Hs H Hc Hb. unfold match_annotation. cbn [app].
  destruct (chr_is d sigil) eqn:Hd; [|reflexivity].
  apply chr_is_true in Hd as ->.
  rewrite brace_group_length_after_run; [|
    apply no_annotation_no_brace in H; now apply Forall_inv_tail in H
    | assumption..].
  rewrite andb_false_r.
  pose proof (no_annotation_after_sigil _ _ H Hs) as Hw.
  destruct t as [|w t]; cbn [app take_while] in *.
  - now rewrite (not_name_char_not_word _ Hc).
  - destruct (is_word w); [discriminate Hw | reflexivity].
Qed.

Lemma findall_annotation_prefix sigil empty_ok pre c more :
  is_sigil sigil = true -> no_annotation pre = true ->
  is_name_char c = false -> c <> "{"%char ->
  findall (match_annotation sigil empty_ok) (pre ++ c :: more) =
  findall (match_annotation sigil empty_ok) (c :: more).
Proof.
  intros Hs Hpre Hc Hb. induction pre as [|d t IH]; [reflexivity|].
  change ((d :: t) ++ c :: more) with (d :: (t ++ c :: more)).
  rewrite findall_keep.
  - apply IH. eapply no_annotation_tail, Hpre.
  - now apply (match_annotation_prefix_none sigil empty_ok d t c more).
Qed.

Lemma match_annotation_braced sigil empty_ok run body rest :
  all_chars is_name_char run -> (empty_ok = false -> run <> []) ->
  all_chars (not_chr "}") body ->
  match_annotation sigil empty_ok
    ((sigil :: run ++ "{"%char :: body ++ ["}"%char]) ++ rest) =
  Some (length (sigil :: run ++ "{"%char :: body ++ ["}"%char]),
        Annotation (sigil :: run ++ "{"%char :: body ++ ["}"%char]) run).
Proof.
  intros Hrun Hne Hbody. unfold match_annotation. cbn [app].
  rewrite chr_is_refl, !app_cons_assoc.
  rewrite take_while_stop, drop_while_stop by (assumption || reflexivity).
  rewrite brace_group_length_braced by assumption.
  assert (Hok : empty_ok || negb (length run =? 0) = true).
  { destruct empty_ok; [reflexivity|].
    destruct run; [now destruct Hne | reflexivity]. }
  rewrite Hok. replace (length body + 2 =? 0) with false
    by (symmetry; apply Nat.eqb_neq; lia).
  cbn [andb negb]. f_equal. f_equal; [len|]. f_equal.
  cbn [Nat.add take]. f_equal.
  rewrite take_app_add'; [|reflexivity]. f_equal. apply take_braced.
Qed.

Lemma match_annotation_word sigil empty_ok w word rest :
  all_chars is_word (w :: word) ->
  (forall c t, rest = c :: t -> is_word c = false) ->
  brace_group_length (drop_while is_name_char (w :: word ++ rest)) = 0 ->
  match_annotation sigil empty_ok ((sigil :: w :: word) ++ rest) =
  Some (length (sigil :: w :: word), Annotation (sigil :: w :: word) []).
Proof.
  intros Hword Hrest Hb. unfold match_annotation. cbn [app].
  rewrite chr_is_refl. cbn [app] in Hb. rewrite Hb. rewrite andb_false_r.
  assert (Ht : take_while is_word (w :: word ++ rest) = w :: word).
  { change (w :: word ++ rest) with ((w :: word) ++ rest).
    destruct rest as [|c t].
    - rewrite app_nil_r. now apply take_while_whole.
    - apply take_while_stop; [assumption | now apply (Hrest c t)]. }
  now rewrite Ht.
Qed.

(** X16.  An annotation behind text without annotation is found by the
    pattern of its sigil, and the search goes on behind it.  A braced
    annotation is found with the run of name characters between the
    sigil and the brace as its name (the run may be empty for a timer
    only); a sigil and a word are found as such when no brace group
    follows the name characters behind the word. *)
Theorem X16_annotations_are_found (sigil : ascii) (empty_ok : bool)
    (pre rest : str) :
  is_sigil sigil = true -> no_annotation pre = true ->
  (forall run body : str,
     all_chars is_name_char run -> (empty_ok = false -> run <> []) ->
     all_chars (not_chr "}") body ->
     findall (match_annotation sigil empty_ok)
       (pre ++ sigil :: run ++ "{"%char :: body ++ "}"%char :: rest) =
     Annotation (sigil :: run ++ "{"%char :: body ++ ["}"%char]) run
     :: findall (match_annotation sigil empty_ok) rest) /\
  (forall (w : ascii) (word : str),
     all_chars is_word (w :: word) ->
     (forall c t, rest = c :: t -> is_word c = false) ->
     brace_group_length (drop_while is_name_char rest) = 0 ->
     findall (match_annotation sigil empty_ok)
       (pre ++ sigil :: w :: word ++ rest) =
     Annotation (sigil :: w :: word) []
     :: findall (match_annotation sigil empty_ok) rest).
Proof.
  intros Hs Hpre.
  destruct (is_sigil_not_name_char _ Hs) as [Hc Hb]. split.
  - intros run body Hrun Hne Hbody.
    rewrite findall_annotation_prefix by assumption.
    replace (sigil :: run ++ "{"%char :: body ++ "}"%char :: rest)
      with ((sigil :: run ++ "{"%char :: body ++ ["}"%char]) ++ rest)
      by (cbn [app]; now rewrite !app_cons_assoc).
    apply findall_match; [discriminate|].
    now apply match_annotation_braced.
  - intros w word Hword Hrest Hbrace.
    rewrite findall_annotation_prefix by assumption.
    change (sigil :: w :: word ++ rest) with ((sigil :: w :: word) ++ rest).
    apply findall_match; [discriminate|].
    apply match_annotation_word; [assumption..|].
    change (w :: word ++ rest) with ((w :: word) ++ rest).
    destruct rest as [|c t].
    + rewrite app_nil_r, drop_while_whole; [reflexivity|].
      eapply all_chars_weaken; [apply is_word_name_char | exact Hword].
    + assert (Hall : all_chars is_name_char (w :: word))
        by (eapply all_chars_weaken; [apply is_word_name_char | exact Hword]).
      clear -Hall Hbrace. induction Hall as [|e l He _ IH]; [exact Hbrace|].
      cbn [app drop_while]. now rewrite He.
Qed.

Lemma X16_annotations_are_found_witness :
  findall cookware_pat "Place other things in the #large bowl{}" =
  [Annotation "#large bowl{}" "large bowl"].
Proof.
  refine (proj1 (X16_annotations_are_found "#" false
                   "Place other things in the " "" _ _)
            "large bowl" "" _ _ _);
    try reflexivity; try discriminate; unfold all_chars; repeat constructor.
Defined.

(** ** A step with one ingredient *)

Lemma starts_with_app p s : starts_with p (p ++ s) = true.
Proof.
  induction p as [|a p IH]; [reflexivity|].
  cbn. now rewrite chr_is_refl, IH.
Qed.

(** A text that holds the name holds a first occurrence of it. *)
Lemma find_sub_occurs name pre rest :
  exists offset,
    find_sub name (pre ++ name ++ rest) = Some offset /\ offset <= length pre.
Proof.
  induction pre as [|c pre (offset & IH & Hle)].
  - exists 0. cbn [app]. split; [|lia].
    destruct (name ++ rest) eqn:E; cbn [find_sub];
      rewrite <- E, starts_with_app; reflexivity.
  - cbn [app find_sub].
    destruct (starts_with name (c :: pre ++ name ++ rest)).
    + exists 0. split; [reflexivity | lia].
    + exists (S offset). rewrite IH. split; [reflexivity | cbn; lia].
Qed.

Lemma match_annotation_other_sigil sigil empty_ok c s :
  c <> sigil -> match_annotation sigil empty_ok (c :: s) = None.
Proof.
  intros Hc. unfold match_annotation.
  destruct (chr_is c sigil) eqn:E; [|reflexivity].
  now apply chr_is_true in E.
Qed.

(** A pattern finds nothing in text without its sigil. *)
Lemma findall_without_sigil sigil empty_ok pre s :
  all_chars (not_chr sigil) pre ->
  findall (match_annotation sigil empty_ok) (pre ++ s) =
  findall (match_annotation sigil empty_ok) s.
Proof.
  intros Hp. induction Hp as [|c pre Hc _ IH]; [reflexivity|].
  cbn [app]. rewrite findall_keep; [exact IH|].
  apply match_annotation_other_sigil. now apply not_chr_true.
Qed.

Lemma plain_not_sigil sigil s :
  is_sigil sigil = true -> all_chars plain s -> all_chars (not_chr sigil) s.
Proof.
  intros Hs. apply all_chars_weaken. intros c Hc. apply not_chr_true.
  intros ->. unfold plain, no_name_sigil, not_chr in Hc. unfold is_sigil in Hs.
  destruct (chr_is sigil "~"), (chr_is sigil "@"), (chr_is sigil "#");
    discriminate.
Qed.

Section OneIngredient.
Context {F : PyFloat}.

Lemma Ingredient_parse_braced name body steps step q offset :
  all_chars is_name_char name -> name <> [] ->
  all_chars (not_chr "}") body ->
  steps !! 0 = Some step ->
  find_sub name step = Some offset ->
  _get_quantity (findall match_quantity body) = Ok q ->
  Ingredient_parse ("@"%char :: name ++ "{"%char :: body ++ ["}"%char])
    0 steps [] =
  Ok (mkIngredient name (0, offset, offset + length name) q).
Proof.
  intros Hname Hne Hbody Hstep Hfind Hq. unfold Ingredient_parse.
  rewrite (name_and_amount_braced "@" false name body);
    [| eapply all_chars_weaken; [apply is_name_char_not_brace | exact Hname]
     | assumption | auto].
  rewrite Hstep. cbn [List.filter last]. rewrite drop_0, Hfind, Hq. cbn.
  now rewrite !Nat.add_0_r.
Qed.

End OneIngredient.

(** X17.  A text of one step line that holds one braced ingredient
    annotation, around it and between its braces no sigil, parses to the
    recipe with that step, the annotation replaced by the name, and that
    ingredient: its name is the text between "@" and the brace, its
    quantity what [_get_quantity] reads between the braces, and its
    location the first occurrence of the name in the rendered step, which
    is where the annotation stood unless the text before it holds the
    name already. *)
Theorem X17_a_step_with_one_ingredient `{F : PyFloat}
    (raw pre run body rest : str) (w : ascii) (q : option Quantity) :
  let name := w :: run in
  let line := pre ++ "@"%char :: name ++ "{"%char :: body ++ "}"%char :: rest in
  paragraphs raw = [line] ->
  is_metadata_line line = false ->
  is_word w = true -> all_chars is_name_char run ->
  all_chars (not_chr "}") body ->
  all_chars plain pre -> all_chars plain body -> all_chars plain rest ->
  _get_quantity (findall match_quantity body) = Ok q ->
  exists offset,
    find_sub name (pre ++ name ++ rest) = Some offset /\
    offset <= length pre /\
    ((forall k, k < length pre ->
        starts_with name (drop k (pre ++ name ++ rest)) = false) ->
     offset = length pre) /\
    Recipe_parse raw =
      Ok (mkRecipe ∅
            [mkIngredient name (0, offset, offset + length name) q]
            [pre ++ name ++ rest] [] []).
Proof.
  intros name line Hpar Hmeta Hw Hrun Hbody Hpre Hb Hrest Hq.
  destruct (find_sub_occurs name pre rest) as (offset & Hfind & Hle).
  exists offset. split; [exact Hfind|]. split; [exact Hle|]. split.
  { intros Hfirst. apply find_sub_Some in Hfind as [Hat _].
    destruct (decide (offset = length pre)) as [|Hne]; [assumption|].
    rewrite Hfirst in Hat by lia. discriminate. }
  assert (Hname : all_chars is_name_char name).
  { constructor; [now apply is_word_name_char | exact Hrun]. }
  assert (Hrender : render_step line = pre ++ name ++ rest).
  { apply (render_step_name_markup_braced "@" w pre run body rest);
      try assumption; try reflexivity;
      first [now apply plain_no_name_sigil | now apply plain_no_tilde]. }
  assert (Hline : forall sigil, is_sigil sigil = true -> sigil <> "@"%char ->
            all_chars (not_chr sigil) line).
  { intros sigil Hs Hat. unfold line.
    apply all_chars_app; [now apply plain_not_sigil|].
    constructor; [apply not_chr_true; congruence|].
    apply all_chars_app.
    { eapply all_chars_weaken; [|exact Hname]. intros c Hc.
      apply not_chr_true. intros ->.
      apply is_sigil_not_name_char in Hs as [Hs _]. congruence. }
    constructor; [apply not_chr_true; intros <-; discriminate Hs|].
    apply all_chars_app; [now apply plain_not_sigil|].
    constructor; [apply not_chr_true; intros <-; discriminate Hs|].
    now apply plain_not_sigil. }
  assert (Hnone : forall sigil empty_ok,
            is_sigil sigil = true -> sigil <> "@"%char ->
            findall (match_annotation sigil empty_ok) line = []).
  { intros sigil empty_ok Hs Hat.
    rewrite <- (app_nil_r line).
    now rewrite findall_without_sigil by now apply Hline. }
  assert (Hingr : findall ingr_pat line =
                  [Annotation ("@"%char :: name ++ "{"%char :: body ++ ["}"%char])
                     name]).
  { unfold ingr_pat, line.
    rewrite findall_without_sigil by now apply plain_not_sigil.
    replace ("@"%char :: name ++ "{"%char :: body ++ "}"%char :: rest)
      with (("@"%char :: name ++ "{"%char :: body ++ ["}"%char]) ++ rest)
      by (cbn [app]; now rewrite !app_cons_assoc).
    rewrite (findall_match _ _ _
               (Annotation ("@"%char :: name ++ "{"%char :: body ++ ["}"%char])
                  name)).
    - f_equal. rewrite <- (app_nil_r rest).
      now rewrite findall_without_sigil by now apply plain_not_sigil.
    - discriminate.
    - apply match_annotation_braced; [assumption | discriminate | assumption]. }
  unfold Recipe_parse. rewrite Hpar. unfold assemble.
  cbn [List.filter]. fold line. rewrite Hmeta. cbn [negb map].
  rewrite Hrender. cbn [scan_steps]. rewrite Hingr. cbn [scan_step matched].
  rewrite (Ingredient_parse_braced name body _ (pre ++ name ++ rest) q offset)
    by (assumption || discriminate || reflexivity).
  cbn [mbind result_bind].
  unfold step_cookware, cookware_pat.
  rewrite (Hnone "#"%char false) by (reflexivity || discriminate).
  change (mapM step_timers [line])
    with (y ← step_timers line; k ← mapM step_timers []; Ok (y :: k)).
  unfold step_timers, timer_pat.
  rewrite (Hnone "~"%char true) by (reflexivity || discriminate).
  reflexivity.
Qed.

Lemma X17_a_step_with_one_ingredient_witness :
  exists offset,
    find_sub ("sugar" : str) ("Place " ++ "sugar" ++ " in the pan") =
      Some offset /\
    offset <= 6 /\
    ((forall k, k < 6 ->
        starts_with ("sugar" : str)
          (drop k ("Place " ++ "sugar" ++ " in the pan")) = false) ->
     offset = 6) /\
    Recipe_parse (F := Tenths) "Place @sugar{42%grams} in the pan" =
      Ok (mkRecipe ∅
            [mkIngredient "sugar" (0, offset, offset + 5)
               (Some (mkQuantity (a_int 42) (Some ("grams" : str))))]
            ["Place " ++ "sugar" ++ " in the pan"] [] []).
Proof.
  refine (X17_a_step_with_one_ingredient (F := Tenths)
            "Place @sugar{42%grams} in the pan"
            "Place " "ugar" "42%grams" " in the pan" "s"
            (Some (mkQuantity (a_int 42) (Some ("grams" : str))))
            _ _ _ _ _ _ _ _ _);
    try reflexivity; unfold all_chars; repeat constructor.
Defined.

(** ** The steps of a recipe *)

Lemma sub_from_nonempty m s :
  (forall t n r, m t = Some (n, r) -> r <> []) ->
  s <> [] -> sub_from m 0 s <> [].
Proof.
  intros Hm Hs. destruct s as [|c s]; [contradiction|]. cbn [sub_from].
  destruct (m (c :: s)) as [[n r]|] eqn:E; [|discriminate].
  apply Hm in E. destruct r; [contradiction | discriminate].
Qed.

Lemma sub_from_all_chars p m s : forall k,
  (forall t n r, all_chars p t -> m t = Some (n, r) -> all_chars p r) ->
  all_chars p s -> all_chars p (sub_from m k s).
Proof.
  induction s as [|c s IH]; intros k Hm Hs; cbn [sub_from]; [constructor|].
  pose proof (Forall_inv_tail Hs) as Hs'.
  destruct k as [|k]; [|now apply IH].
  destruct (m (c :: s)) as [[n r]|] eqn:E.
  - apply all_chars_app; [now apply (Hm _ _ _ Hs E) | now apply IH].
  - constructor; [exact (Forall_inv Hs) | now apply IH].
Qed.

Lemma all_chars_tail p c s : all_chars p (c :: s) -> all_chars p s.
Proof. apply Forall_inv_tail. Qed.

Lemma match_timer_markup_replacement p t n r :
  p " "%char = true -> all_chars p t ->
  match_timer_markup t = Some (n, r) -> r <> [] /\ all_chars p r.
Proof.
  intros Hsp Ht. unfold match_timer_markup.
  destruct t as [|c t]; [discriminate|].
  destruct (chr_is c "~"); [|discriminate].
  apply all_chars_tail in Ht.
  pose proof (all_chars_drop_while p is_name_char t Ht) as Hd.
  destruct (drop_while is_name_char t) as [|b u]; [discriminate|].
  destruct (chr_is b "{"); [|discriminate].
  apply all_chars_tail in Hd.
  pose proof (all_chars_take_while p not_brace_pct u Hd) as Hg1.
  pose proof (all_chars_drop_while p not_brace_pct u Hd) as Hd1.
  destruct (drop_while not_brace_pct u) as [|e v]; [discriminate|].
  apply all_chars_tail in Hd1.
  destruct (chr_is e "}").
  - intros [= <- <-]. split; [now destruct (take_while not_brace_pct u)|].
    apply all_chars_app; [assumption | now repeat constructor].
  - pose proof (all_chars_take_while p (not_chr "}") v Hd1) as Hg2.
    destruct (take_while (not_chr "}") v) as [|g g2]; [discriminate|].
    destruct (drop_while (not_chr "}") v); [discriminate|].
    intros [= <- <-]. split; [now destruct (take_while not_brace_pct u)|].
    apply all_chars_app; [assumption | now constructor].
Qed.

Lemma match_name_markup_replacement p t n r :
  all_chars p t ->
  match_name_markup t = Some (n, r) -> r <> [] /\ all_chars p r.
Proof.
  intros Ht. unfold match_name_markup.
  destruct t as [|c [|w t]]; try discriminate.
  destruct ((chr_is c "@" || chr_is c "#") && is_word w); [|discriminate].
  intros [= <- <-]. split; [discriminate|].
  apply all_chars_tail in Ht. constructor; [exact (Forall_inv Ht)|].
  apply all_chars_take_while. now apply all_chars_tail in Ht.
Qed.

(** Rendering keeps a step line a line, and does not empty it. *)
Lemma render_step_line raw_step :
  raw_step <> [] -> all_chars (not_chr newline) raw_step ->
  render_step raw_step <> [] /\ all_chars (not_chr newline) (render_step raw_step).
Proof.
  intros Hne Hnl. unfold render_step, re_sub.
  assert (H1 : sub_from match_timer_markup 0 raw_step <> [] /\
               all_chars (not_chr newline)
                 (sub_from match_timer_markup 0 raw_step)).
  { split.
    - apply sub_from_nonempty; [|assumption]. intros t n r E.
      eapply (match_timer_markup_replacement (fun _ => true));
        [reflexivity | | exact E].
      apply Forall_forall. reflexivity.
    - apply sub_from_all_chars; [|assumption]. intros t n r Ht E.
      now apply (match_timer_markup_replacement _ t n r eq_refl Ht). }
  destruct H1 as [H1 H2]. split.
  - apply sub_from_nonempty; [|assumption]. intros t n r E.
    eapply (match_name_markup_replacement (fun _ => true)); [|exact E].
    apply Forall_forall. reflexivity.
  - apply sub_from_all_chars; [|assumption]. intros t n r Ht E.
    now apply (match_name_markup_replacement _ t n r Ht).
Qed.

(** X18.  The steps of a parsed recipe are the rendered step lines of
    the text, one for one: no step is empty and no step holds a line
    break. *)
Theorem X18_steps_are_lines `{F : PyFloat} (raw : str) (r : Recipe) :
  Recipe_parse raw = Ok r ->
  Recipe_steps r = map render_step (raw_steps_of (paragraphs raw)) /\
  Forall (fun step => step <> [] /\ all_chars (not_chr newline) step)
    (Recipe_steps r).
Proof.
  unfold Recipe_parse. intros H.
  apply assemble_Ok in H as (ms & tbs & ingr & _ & _ & _ & ->).
  cbn [Recipe_steps]. split; [reflexivity|].
  apply Forall_forall. intros step Hstep.
  apply list_elem_of_fmap in Hstep as (line & -> & Hline).
  unfold raw_steps_of in Hline.
  apply list_elem_of_In, filter_In in Hline as [Hline _].
  apply list_elem_of_In, paragraphs_lines in Hline as [Hnl Hne].
  now apply render_step_line.
Qed.

Lemma X18_steps_are_lines_witness :
  Forall (fun step : str => step <> [] /\ all_chars (not_chr newline) step)
    [(" " : str)].
Proof.
  exact (proj2 (X18_steps_are_lines (F := Tenths) "~{}"
                  (mkRecipe ∅ [] [" " : str] [] [mkTimer [] None])
                  eq_refl)).
Defined.

(** ** Text without braces *)

Lemma split_lines_all_chars p s :
  all_chars p s -> Forall (all_chars p) (split_lines s).
Proof.
  induction 1 as [|c s Hc Hs IH]; cbn [split_lines].
  - repeat constructor.
  - destruct (chr_is c newline); [constructor; [constructor | exact IH]|].
    destruct (split_lines s) as [|l ls]; [repeat constructor; assumption|].
    apply Forall_cons in IH as [Hl Hls].
    constructor; [now constructor | exact Hls].
Qed.

(** Every paragraph is made of characters of the text. *)
Lemma paragraphs_all_chars p raw :
  all_chars p raw -> Forall (all_chars p) (paragraphs raw).
Proof.
  intros H. unfold paragraphs. apply Forall_forall. intros line Hline.
  apply list_elem_of_In, filter_In in Hline as [Hline _].
  apply in_map_iff in Hline as (l & <- & Hl).
  apply all_chars_strip.
  assert (Hall : Forall (all_chars p) (split_lines (strip_comments raw))).
  { apply split_lines_all_chars. unfold strip_comments, re_sub.
    now apply sub_from_comment_all_chars. }
  rewrite Forall_forall in Hall. apply Hall. now apply list_elem_of_In.
Qed.

Lemma match_timer_markup_no_brace s :
  all_chars (not_chr "{") s -> match_timer_markup s = None.
Proof.
  intros H. unfold match_timer_markup. destruct s as [|c t]; [reflexivity|].
  destruct (chr_is c "~"); [|reflexivity].
  destruct (drop_while is_name_char t) as [|b u] eqn:Hd; [reflexivity|].
  assert (Hb : all_chars (not_chr "{") (b :: u)).
  { rewrite <- Hd. apply all_chars_drop_while. now apply Forall_inv_tail in H. }
  apply Forall_inv in Hb. unfold not_chr in Hb. apply negb_true_iff in Hb.
  now rewrite Hb.
Qed.

Lemma re_sub_timer_no_brace s :
  all_chars (not_chr "{") s -> re_sub match_timer_markup s = s.
Proof.
  induction 1 as [|c s Hc Hs IH]; [reflexivity|].
  rewrite re_sub_keep, IH; [reflexivity|].
  apply match_timer_markup_no_brace. now constructor.
Qed.

(** In text without braces the renderer takes away the sigil in front of
    a word and nothing else. *)
Lemma re_sub_name_sigil_no_brace sigil w t :
  chr_is sigil "@" || chr_is sigil "#" = true -> is_word w = true ->
  all_chars (not_chr "{") t ->
  re_sub match_name_markup (sigil :: w :: t) =
  re_sub match_name_markup (w :: t).
Proof.
  intros Hs Hw Ht.
  assert (Hrun : all_chars no_name_sigil (w :: take_while is_name_char t)).
  { constructor.
    - unfold no_name_sigil, not_chr.
      destruct (chr_is w "@") eqn:E1;
        [apply chr_is_true in E1 as ->; discriminate Hw|].
      destruct (chr_is w "#") eqn:E2;
        [apply chr_is_true in E2 as ->; discriminate Hw|].
      reflexivity.
    - eapply all_chars_weaken; [|apply take_while_all].
      intros c Hc. unfold no_name_sigil, not_chr.
      destruct (chr_is c "@") eqn:E1;
        [apply chr_is_true in E1 as ->; discriminate Hc|].
      destruct (chr_is c "#") eqn:E2;
        [apply chr_is_true in E2 as ->; discriminate Hc|].
      reflexivity. }
  rewrite <- (take_drop_while is_name_char t) at 2.
  change (w :: take_while is_name_char t ++ drop_while is_name_char t)
    with ((w :: take_while is_name_char t) ++ drop_while is_name_char t).
  rewrite re_sub_name_prefix by assumption.
  unfold re_sub at 1. cbn [sub_from match_name_markup].
  rewrite Hs, Hw. cbn [andb].
  rewrite brace_group_length_no_brace by now apply all_chars_drop_while.
  rewrite Nat.add_0_r. cbn [Nat.add pred length]. cbn [app]. f_equal.
  f_equal.
  rewrite <- (take_drop_while is_name_char t) at 2.
  change (w :: take_while is_name_char t ++ drop_while is_name_char t)
    with ((w :: take_while is_name_char t) ++ drop_while is_name_char t).
  change (S (length (take_while is_name_char t)))
    with (length (w :: take_while is_name_char t)).
  apply sub_from_skip.
Qed.

Lemma match_name_markup_Some_inv s n r :
  match_name_markup s = Some (n, r) ->
  exists sigil w t,
    s = sigil :: w :: t /\ chr_is sigil "@" || chr_is sigil "#" = true /\
    is_word w = true.
Proof.
  unfold match_name_markup. destruct s as [|c [|w t]]; try discriminate.
  destruct ((chr_is c "@" || chr_is c "#") && is_word w) eqn:E;
    [|discriminate].
  apply andb_true_iff in E as [Hc Hw]. intros _. exists c, w, t. auto.
Qed.

(** One step of the renderer on text without braces: the character at
    the head is kept, or it is a sigil that goes. *)
Lemma re_sub_name_no_brace_head c t :
  all_chars (not_chr "{") t ->
  re_sub match_name_markup (c :: t) = c :: re_sub match_name_markup t \/
  re_sub match_name_markup (c :: t) = re_sub match_name_markup t.
Proof.
  intros Ht. destruct (match_name_markup (c :: t)) as [[n r]|] eqn:E.
  - right.
    apply match_name_markup_Some_inv in E as (sigil & w & t' & [= -> ->] & Hs & Hw).
    apply re_sub_name_sigil_no_brace; [assumption..|].
    now apply Forall_inv_tail in Ht.
  - left. now apply re_sub_keep.
Qed.

Lemma is_word_no_name_sigil s : all_chars is_word s -> all_chars no_name_sigil s.
Proof.
  apply all_chars_weaken. intros c Hc. unfold no_name_sigil, not_chr.
  destruct (chr_is c "@") eqn:E1;
    [apply chr_is_true in E1 as ->; discriminate Hc|].
  destruct (chr_is c "#") eqn:E2;
    [apply chr_is_true in E2 as ->; discriminate Hc|].
  reflexivity.
Qed.

(** A match of an annotation pattern in text without braces is the
    sigil and a word. *)
Lemma match_annotation_no_brace sigil empty_ok s n m :
  all_chars (not_chr "{") s ->
  match_annotation sigil empty_ok s = Some (n, m) ->
  exists w word rest,
    s = sigil :: w :: word ++ rest /\ all_chars is_word (w :: word) /\
    matched m = sigil :: w :: word /\ n = length (sigil :: w :: word).
Proof.
  intros Hs H. apply match_annotation_inv in H as (Hn & Htake & [H|H]).
  - exfalso. destruct H as (run & body & Hm & _).
    assert (Hin : "{"%char ∈ s).
    { rewrite <- (take_drop n s), Htake, Hm.
      apply elem_of_app. left. right. apply elem_of_app. right. left. }
    unfold all_chars in Hs. rewrite Forall_forall in Hs.
    apply Hs in Hin. discriminate Hin.
  - destruct H as ([|w word] & Hm & Hne & Hword & _); [contradiction|].
    exists w, word, (drop n s). split; [|rewrite Hm in Hn; auto].
    rewrite <- (take_drop n s) at 1. now rewrite Htake, Hm.
Qed.

Lemma scan_from_elem_suffix {B} (pat : str -> option (nat * B)) s :
  forall k b,
  b ∈ scan_from pat k s ->
  exists pre s' n, s = pre ++ s' /\ pat s' = Some (n, b).
Proof.
  induction s as [|c s IH]; intros k b Hin; cbn [scan_from] in Hin.
  - now apply elem_of_nil in Hin.
  - assert (Hrec : forall k', b ∈ scan_from pat k' s ->
              exists pre s' n, c :: s = pre ++ s' /\ pat s' = Some (n, b)).
    { intros k' H. apply IH in H as (pre & s' & n & -> & Hp).
      exists (c :: pre), s', n. auto. }
    destruct k as [|k]; [|eauto].
    destruct (pat (c :: s)) as [[n b']|] eqn:Hp; [|eauto].
    apply elem_of_cons in Hin as [->|Hin]; [|eauto].
    exists [], (c :: s), n. auto.
Qed.

Lemma mapM_all_Ok {A B} (f : A -> result B) (P : B -> Prop) l :
  Forall (fun x => exists y, f x = Ok y /\ P y) l ->
  exists k, mapM f l = Ok k /\ Forall P k.
Proof.
  induction 1 as [|x l (y & Hy & Py) _ (k & Hk & Pk)].
  - exists []. split; [reflexivity | constructor].
  - exists (y :: k). split; [|now constructor].
    change (mapM f (x :: l)) with (y' ← f x; k' ← mapM f l; Ok (y' :: k')).
    now rewrite Hy, Hk.
Qed.

Lemma dict_set_Forall {V} (P : str * V -> Prop) k v (d : list (str * V)) :
  Forall P d -> P (k, v) -> Forall P (dict_set k v d).
Proof.
  intros Hd Hv. induction Hd as [|[k' v'] d Hkv Hd IH]; cbn [dict_set].
  - now repeat constructor.
  - case_bool_decide; constructor; assumption.
Qed.

Section NoBrace.
Context {F : PyFloat}.

Lemma Ingredient_parse_bare word steps k cur R done rest :
  word <> [] -> all_chars is_word word ->
  steps !! k = Some R -> R = done ++ word ++ rest ->
  previous_end k cur <= length done ->
  exists i,
    Ingredient_parse ("@"%char :: word) k steps cur = Ok i /\
    step_of i = k /\ Ingredient_quantity i = None /\
    end_of i <= length (done ++ word).
Proof.
  intros Hne Hword Hstep HR Hprev. unfold Ingredient_parse.
  rewrite (name_and_amount_word "@" false word);
    [| eapply all_chars_weaken; [apply is_word_not_brace | exact Hword]
     | assumption].
  fold (previous_end k cur). rewrite Hstep.
  assert (Hdrop : drop (previous_end k cur) R =
                  drop (previous_end k cur) done ++ word ++ rest).
  { rewrite HR. now apply drop_app_le. }
  destruct (find_sub_occurs word (drop (previous_end k cur) done) rest)
    as (offset & Hfind & Hle).
  rewrite Hdrop, Hfind. cbn.
  eexists. split; [reflexivity|]. cbn.
  split; [reflexivity|]. split; [reflexivity|].
  unfold end_of. cbn. rewrite length_drop in Hle. rewrite length_app. lia.
Qed.

Lemma scan_step_no_brace steps k R :
  steps !! k = Some R ->
  forall n s done acc,
    length s <= n ->
    all_chars (not_chr "{") s ->
    R = done ++ re_sub match_name_markup s ->
    previous_end k acc <= length done ->
    exists new,
      scan_step steps k (findall ingr_pat s) acc = Ok (acc ++ new) /\
      Forall (fun b => step_of b = k /\ Ingredient_quantity b = None) new.
Proof.
  intros Hstep. induction n as [|n IH]; intros s done acc Hlen Hs HR Hprev.
  { destruct s; [|cbn in Hlen; lia].
    exists []. split; [cbn; now rewrite app_nil_r | constructor]. }
  destruct s as [|c t].
  { exists []. split; [cbn; now rewrite app_nil_r | constructor]. }
  pose proof (Forall_inv_tail Hs) as Ht. cbn [length] in Hlen.
  destruct (ingr_pat (c :: t)) as [[len m]|] eqn:Hm.
  - destruct (match_annotation_no_brace "@" false _ _ _ Hs Hm)
      as (w & word & rest & Heq & Hword & Hmatched & ->).
    injection Heq as -> ->.
    assert (Hrest : all_chars (not_chr "{") rest).
    { apply Forall_inv_tail in Ht. now apply Forall_app in Ht as [_ ?]. }
    assert (Hrender : re_sub match_name_markup ("@"%char :: w :: word ++ rest) =
                      (w :: word) ++ re_sub match_name_markup rest).
    { rewrite re_sub_name_sigil_no_brace;
        [| reflexivity | exact (Forall_inv Hword)
         | now apply Forall_inv_tail in Ht].
      change (w :: word ++ rest) with ((w :: word) ++ rest).
      apply re_sub_name_prefix. now apply is_word_no_name_sigil. }
    rewrite Hrender in HR.
    destruct (Ingredient_parse_bare (w :: word) steps k acc R done
                (re_sub match_name_markup rest))
      as (i & Hi & Hk & Hq & Hend); [discriminate | assumption..|].
    change ("@"%char :: w :: word ++ rest)
      with (("@"%char :: w :: word) ++ rest).
    rewrite (findall_match _ _ _ m);
      [| discriminate
       | change (("@"%char :: w :: word) ++ rest)
           with ("@"%char :: w :: word ++ rest); exact Hm].
    cbn [scan_step]. rewrite Hmatched, Hi. cbn [mbind result_bind].
    destruct (IH rest (done ++ w :: word) (acc ++ [i])) as (new & Hnew & Hall).
    + cbn [length] in Hlen. rewrite length_app in Hlen. lia.
    + exact Hrest.
    + now rewrite <- app_assoc.
    + now rewrite previous_end_snoc_same.
    + exists (i :: new). rewrite Hnew, <- app_assoc. split; [reflexivity|].
      constructor; auto.
  - rewrite findall_keep by exact Hm.
    destruct (re_sub_name_no_brace_head c t Ht) as [Hr|Hr]; rewrite Hr in HR.
    + apply (IH t (done ++ [c]) acc); [lia | assumption | |].
      * now rewrite <- app_assoc.
      * rewrite length_app. lia.
    + apply (IH t done acc); [lia | assumption..].
Qed.

Lemma previous_end_fresh k acc :
  Forall (fun b => step_of b < k) acc -> previous_end k acc = 0.
Proof.
  intros H. unfold previous_end.
  assert (Hf : List.filter (fun i => step_of i =? k) acc = []).
  { induction H as [|b acc Hb _ IH]; [reflexivity|].
    cbn [List.filter]. replace (step_of b =? k) with false; [exact IH|].
    symmetry. apply Nat.eqb_neq. lia. }
  now rewrite Hf.
Qed.

Lemma scan_steps_no_brace steps lines : forall k acc,
  (forall j line, lines !! j = Some line ->
     steps !! (k + j) = Some (render_step line)) ->
  Forall (all_chars (not_chr "{")) lines ->
  Forall (fun b => step_of b < k) acc ->
  exists new,
    scan_steps steps k lines acc = Ok (acc ++ new) /\
    Forall (fun b => Ingredient_quantity b = None) new.
Proof.
  induction lines as [|line lines IH]; intros k acc Hsteps Hlines Hacc.
  { exists []. split; [cbn; now rewrite app_nil_r | constructor]. }
  apply Forall_cons in Hlines as [Hline Hlines]. cbn [scan_steps].
  pose proof (Hsteps 0 line eq_refl) as Hk. rewrite Nat.add_0_r in Hk.
  destruct (scan_step_no_brace steps k _ Hk (length line) line [] acc)
    as (new1 & H1 & Hall1); [lia | assumption | | |].
  { cbn [app]. unfold render_step. now rewrite re_sub_timer_no_brace. }
  { rewrite previous_end_fresh by assumption. cbn. lia. }
  rewrite H1. cbn [mbind result_bind].
  destruct (IH (S k) (acc ++ new1)) as (new2 & H2 & Hall2).
  - intros j l Hl. replace (S k + j) with (k + S j) by lia.
    now apply Hsteps.
  - exact Hlines.
  - apply Forall_app. split.
    + eapply Forall_impl; [exact Hacc|]. cbn. intros; lia.
    + eapply Forall_impl; [exact Hall1|]. cbn. intros b [-> _]. lia.
  - exists (new1 ++ new2). rewrite H2, <- app_assoc. split; [reflexivity|].
    apply Forall_app. split; [|exact Hall2].
    eapply Forall_impl; [exact Hall1|]. now intros b [_ ?].
Qed.

End NoBrace.

Section NoBraceRecipe.
Context {F : PyFloat}.

Lemma step_timers_no_brace line :
  all_chars (not_chr "{") line ->
  exists ts,
    step_timers line = Ok ts /\ Forall (fun t => Timer_quantity t = None) ts.
Proof.
  intros Hline. unfold step_timers. apply mapM_all_Ok.
  apply Forall_forall. intros x Hx.
  apply list_elem_of_fmap in Hx as (m & -> & Hm).
  apply scan_from_elem_suffix in Hm as (pre & s' & n & -> & Hp).
  apply Forall_app in Hline as [_ Hs'].
  apply match_annotation_no_brace in Hp as (w & word & _ & _ & Hword & -> & _);
    [|assumption].
  exists (mkTimer (w :: word) None). split; [|reflexivity].
  apply Timer_parse_bare.
  eapply all_chars_weaken; [apply is_word_not_brace | exact Hword].
Qed.

Lemma merge_into_no_quantity ms : forall d,
  dict_keyed d ->
  Forall (fun kv : str * Ingredient => Ingredient_quantity kv.2 = None) d ->
  Forall (fun i => Ingredient_quantity i = None) ms ->
  exists d',
    merge_into d ms = Ok d' /\
    Forall (fun kv : str * Ingredient => Ingredient_quantity kv.2 = None) d'.
Proof.
  induction ms as [|i ms IH]; intros d Hkeyed Hd Hms; cbn [merge_into].
  { exists d. auto. }
  apply Forall_cons in Hms as [Hi Hms].
  destruct (dict_get (Ingredient_name i) d) as [seen|] eqn:Hget.
  - pose proof (dict_keyed_get _ _ _ Hkeyed Hget) as Hname.
    assert (Hseen : Ingredient_quantity seen = None).
    { apply dict_get_Some_elem in Hget. rewrite Forall_forall in Hd.
      exact (Hd _ Hget). }
    unfold Ingredient_add. rewrite bool_decide_eq_true_2 by exact Hname.
    rewrite Hi, Quantity_add_optional_None_r. cbn [mbind result_bind].
    apply IH; [| |exact Hms].
    + apply dict_keyed_set; [assumption | exact Hname].
    + apply dict_set_Forall; [assumption | exact Hseen].
  - apply IH; [| |exact Hms].
    + now apply dict_keyed_set.
    + now apply dict_set_Forall.
Qed.

End NoBraceRecipe.

(** X19.  A text without an opening brace always parses: [Recipe.parse]
    raises nothing on it, and no ingredient and no timer of the recipe
    bears a quantity. *)
Theorem X19_text_without_braces_parses `{F : PyFloat} (raw : str) :
  all_chars (not_chr "{") raw ->
  exists r,
    Recipe_parse raw = Ok r /\
    Forall (fun e => Ingredient_quantity e = None) (Recipe_ingredients r) /\
    Forall (fun t => Timer_quantity t = None) (Recipe_timers r).
Proof.
  intros Hraw.
  pose proof (paragraphs_all_chars _ _ Hraw) as Hps.
  unfold Recipe_parse, assemble. fold (raw_steps_of (paragraphs raw)).
  assert (Hlines : Forall (all_chars (not_chr "{"))
                     (raw_steps_of (paragraphs raw))).
  { apply Forall_forall. intros line Hline. unfold raw_steps_of in Hline.
    apply list_elem_of_In, filter_In in Hline as [Hline _].
    rewrite Forall_forall in Hps. now apply Hps, list_elem_of_In. }
  destruct (scan_steps_no_brace
              (map render_step (raw_steps_of (paragraphs raw)))
              (raw_steps_of (paragraphs raw)) 0 [])
    as (ms & Hms & Hnone); [|assumption|constructor|].
  { intros j line Hj. cbn [Nat.add].
    change (map render_step (raw_steps_of (paragraphs raw)))
      with (render_step <$> raw_steps_of (paragraphs raw)).
    now rewrite list_lookup_fmap, Hj. }
  cbn [app] in Hms. rewrite Hms. cbn [mbind result_bind].
  destruct (mapM_all_Ok step_timers
              (Forall (fun t => Timer_quantity t = None))
              (raw_steps_of (paragraphs raw))) as (tbs & Htbs & Htimers).
  { eapply Forall_impl; [exact Hlines|]. apply step_timers_no_brace. }
  rewrite Htbs. cbn [mbind result_bind].
  destruct (merge_into_no_quantity ms []) as (d & Hd & Hquant);
    [constructor | constructor | assumption|].
  unfold _remove_duplicates. rewrite Hd. cbn [mbind result_bind].
  eexists. split; [reflexivity|]. cbn [Recipe_ingredients Recipe_timers].
  split.
  - apply Forall_forall. intros e He.
    apply list_elem_of_fmap in He as (kv & -> & Hkv).
    rewrite Forall_forall in Hquant. exact (Hquant _ Hkv).
  - apply Forall_forall. intros t Ht.
    apply elem_of_concat in Ht as (ts & Hts & Ht).
    rewrite Forall_forall in Htimers. specialize (Htimers _ Hts).
    rewrite Forall_forall in Htimers. exact (Htimers _ Ht).
Qed.

Lemma X19_text_without_braces_parses_witness :
  exists r,
    Recipe_parse (F := Tenths) "Season with @salt and @pepper for ~a while"
      = Ok r /\
    Forall (fun e => Ingredient_quantity e = None) (Recipe_ingredients r) /\
    Forall (fun t => Timer_quantity t = None) (Recipe_timers r).
Proof.
  apply (X19_text_without_braces_parses (F := Tenths)
           "Season with @salt and @pepper for ~a while").
  unfold all_chars. repeat constructor.
Defined.

(** ** A step with one timer or one piece of cookware *)

Lemma findall_none_without_sigil sigil empty_ok s :
  all_chars (not_chr sigil) s ->
  findall (match_annotation sigil empty_ok) s = [].
Proof.
  intros H. rewrite <- (app_nil_r s). now rewrite findall_without_sigil.
Qed.

Lemma is_word_not_sigil sigil s :
  is_sigil sigil = true -> all_chars is_word s -> all_chars (not_chr sigil) s.
Proof.
  intros Hs. apply all_chars_weaken. intros c Hc. apply not_chr_true.
  intros ->. apply is_sigil_not_name_char in Hs as [Hs _].
  apply is_word_name_char in Hc. congruence.
Qed.

Lemma is_name_char_not_sigil sigil s :
  is_sigil sigil = true -> all_chars is_name_char s ->
  all_chars (not_chr sigil) s.
Proof.
  intros Hs. apply all_chars_weaken. intros c Hc. apply not_chr_true.
  intros ->. apply is_sigil_not_name_char in Hs as [Hs _]. congruence.
Qed.

(** A sigil and a word, found in front of text without braces. *)
Lemma findall_bare sigil empty_ok pre w word rest :
  is_sigil sigil = true ->
  all_chars plain pre -> all_chars is_word (w :: word) ->
  (forall c t, rest = c :: t -> is_word c = false) ->
  all_chars plain rest -> all_chars (not_chr "{") rest ->
  findall (match_annotation sigil empty_ok)
    (pre ++ sigil :: w :: word ++ rest) =
  [Annotation (sigil :: w :: word) []].
Proof.
  intros Hs Hpre Hword Hstop Hrest Hbrace.
  rewrite findall_without_sigil by now apply plain_not_sigil.
  change (sigil :: w :: word ++ rest) with ((sigil :: w :: word) ++ rest).
  rewrite (findall_match _ _ _ (Annotation (sigil :: w :: word) [])).
  - f_equal. apply findall_none_without_sigil. now apply plain_not_sigil.
  - discriminate.
  - apply match_annotation_word; [assumption..|].
    apply brace_group_length_no_brace, all_chars_drop_while.
    change (w :: word ++ rest) with ((w :: word) ++ rest).
    apply all_chars_app; [|assumption].
    eapply all_chars_weaken; [apply is_word_not_brace | exact Hword].
Qed.

Section Single.
Context {F : PyFloat}.

(** [Recipe.parse] on one step line, given what the passes find on it. *)
Lemma assemble_one_line line cookware timers :
  is_metadata_line line = false ->
  findall ingr_pat line = [] ->
  step_cookware line = cookware ->
  step_timers line = Ok timers ->
  assemble [line] =
  Ok (mkRecipe ∅ [] [render_step line] (cookware ++ []) (timers ++ [])).
Proof.
  intros Hmeta Hingr Hcook Htimers. unfold assemble.
  cbn [List.filter]. rewrite Hmeta. cbn [negb map scan_steps].
  rewrite Hingr. cbn [scan_step mbind result_bind].
  change (mapM step_timers [line])
    with (y ← step_timers line; k ← mapM step_timers []; Ok (y :: k)).
  rewrite Htimers, Hcook. reflexivity.
Qed.

End Single.

(** X20.  A timer without braces is extracted but not rendered: a text
    of one step line that holds "~" and a word, around it no sigil and
    behind it no brace, parses to the recipe with one timer, named by the
    word and without quantity, and with the line itself as its step, the
    tilde still in it. *)
Theorem X20_a_timer_without_braces `{F : PyFloat}
    (raw pre word rest : str) (w : ascii) :
  let line := pre ++ "~"%char :: w :: word ++ rest in
  paragraphs raw = [line] ->
  is_metadata_line line = false ->
  all_chars is_word (w :: word) ->
  (forall c t, rest = c :: t -> is_word c = false) ->
  all_chars plain pre -> all_chars plain rest ->
  all_chars (not_chr "{") rest ->
  render_step line = line /\
  Recipe_parse raw =
    Ok (mkRecipe ∅ [] [line] [] [mkTimer (w :: word) None]).
Proof.
  intros line Hpar Hmeta Hword Hstop Hpre Hrest Hbrace.
  assert (Hsig : forall sigil, is_sigil sigil = true -> sigil <> "~"%char ->
            all_chars (not_chr sigil) line).
  { intros sigil Hs Hne. unfold line.
    apply all_chars_app; [now apply plain_not_sigil|].
    constructor; [apply not_chr_true; congruence|].
    change (w :: word ++ rest) with ((w :: word) ++ rest).
    apply all_chars_app; [now apply is_word_not_sigil|].
    now apply plain_not_sigil. }
  assert (Hrender : render_step line = line).
  { unfold render_step.
    assert (Ht : re_sub match_timer_markup line = line).
    { unfold line. rewrite re_sub_timer_prefix by now apply plain_no_tilde.
      f_equal. apply re_sub_timer_no_brace.
      constructor; [reflexivity|].
      change (w :: word ++ rest) with ((w :: word) ++ rest).
      apply all_chars_app; [|assumption].
      eapply all_chars_weaken; [apply is_word_not_brace | exact Hword]. }
    rewrite Ht. apply re_sub_name_plain.
    pose proof (Hsig "@"%char eq_refl ltac:(discriminate)) as H1.
    pose proof (Hsig "#"%char eq_refl ltac:(discriminate)) as H2.
    unfold all_chars in *. rewrite Forall_forall in *.
    intros c Hc. unfold no_name_sigil. now rewrite (H1 c Hc), (H2 c Hc). }
  split; [exact Hrender|].
  unfold Recipe_parse. rewrite Hpar.
  rewrite (assemble_one_line line [] [mkTimer (w :: word) None]);
    [now rewrite Hrender | assumption | | |].
  - apply findall_none_without_sigil, Hsig; [reflexivity | discriminate].
  - unfold step_cookware, cookware_pat.
    rewrite findall_none_without_sigil; [reflexivity|].
    apply Hsig; [reflexivity | discriminate].
  - unfold step_timers, timer_pat, line.
    rewrite findall_bare by (assumption || reflexivity).
    change (mapM Timer_parse (map matched [Annotation ("~"%char :: w :: word) []]))
      with (y ← Timer_parse ("~"%char :: w :: word);
            k ← mapM Timer_parse []; Ok (y :: k)).
    rewrite Timer_parse_bare; [reflexivity|].
    eapply all_chars_weaken; [apply is_word_not_brace | exact Hword].
Qed.

Lemma X20_a_timer_without_braces_witness :
  render_step "Simmer for ~10 minutes" = "Simmer for ~10 minutes" /\
  Recipe_parse (F := Tenths) "Simmer for ~10 minutes" =
    Ok (mkRecipe ∅ [] ["Simmer for ~10 minutes" : str] []
          [mkTimer "10" None]).
Proof.
  refine (X20_a_timer_without_braces (F := Tenths) "Simmer for ~10 minutes"
            "Simmer for " "0" " minutes" "1" _ _ _ _ _ _ _);
    try reflexivity; try (intros c t [= <- _]; reflexivity);
    unfold all_chars; repeat constructor.
Defined.

(** X21.  A text of one step line that holds one piece of cookware,
    around it no sigil, parses to the recipe with that step, the sigil
    taken away (and the brace group, if there is one), and that piece of
    cookware: braced, its name is the run of name characters between "#"
    and the brace; without braces, it is the word behind "#". *)
Theorem X21_a_step_with_one_piece_of_cookware `{F : PyFloat}
    (raw pre rest : str) (w : ascii) :
  all_chars plain pre -> all_chars plain rest -> is_word w = true ->
  (forall run body : str,
     let line :=
       pre ++ "#"%char :: w :: run ++ "{"%char :: body ++ "}"%char :: rest in
     paragraphs raw = [line] -> is_metadata_line line = false ->
     all_chars is_name_char run ->
     all_chars (not_chr "}") body -> all_chars plain body ->
     Recipe_parse raw =
       Ok (mkRecipe ∅ [] [pre ++ w :: run ++ rest] [w :: run] [])) /\
  (forall word : str,
     let line := pre ++ "#"%char :: w :: word ++ rest in
     paragraphs raw = [line] -> is_metadata_line line = false ->
     all_chars is_word word ->
     (forall c t, rest = c :: t -> is_word c = false) ->
     all_chars (not_chr "{") rest ->
     Recipe_parse raw =
       Ok (mkRecipe ∅ [] [pre ++ w :: word ++ rest] [w :: word] [])).
Proof.
  intros Hpre Hrest Hw. split.
  - intros run body line Hpar Hmeta Hrun Hbody Hplain.
    assert (Hname : all_chars is_name_char (w :: run)).
    { constructor; [now apply is_word_name_char | exact Hrun]. }
    assert (Hsig : forall sigil, is_sigil sigil = true -> sigil <> "#"%char ->
              all_chars (not_chr sigil) line).
    { intros sigil Hs Hne. unfold line.
      apply all_chars_app; [now apply plain_not_sigil|].
      constructor; [apply not_chr_true; congruence|].
      change (w :: run ++ "{"%char :: body ++ "}"%char :: rest)
        with ((w :: run) ++ "{"%char :: body ++ "}"%char :: rest).
      apply all_chars_app; [now apply is_name_char_not_sigil|].
      constructor; [apply not_chr_true; intros <-; discriminate Hs|].
      apply all_chars_app; [now apply plain_not_sigil|].
      constructor; [apply not_chr_true; intros <-; discriminate Hs|].
      now apply plain_not_sigil. }
    unfold Recipe_parse. rewrite Hpar.
    rewrite (assemble_one_line line [w :: run] []); [|assumption| | |].
    + unfold line.
      rewrite (render_step_name_markup_braced "#" w pre run body rest);
        try assumption; try reflexivity;
        first [now apply plain_no_name_sigil | now apply plain_no_tilde].
    + apply findall_none_without_sigil, Hsig; [reflexivity | discriminate].
    + unfold step_cookware, cookware_pat, line.
      rewrite findall_without_sigil by now apply plain_not_sigil.
      replace ("#"%char :: w :: run ++ "{"%char :: body ++ "}"%char :: rest)
        with (("#"%char :: (w :: run) ++ "{"%char :: body ++ ["}"%char])
              ++ rest)
        by (cbn [app]; now rewrite !app_cons_assoc).
      rewrite (findall_match _ _ _
                 (Annotation ("#"%char :: (w :: run) ++ "{"%char :: body
                              ++ ["}"%char]) (w :: run))).
      * rewrite findall_none_without_sigil by now apply plain_not_sigil.
        reflexivity.
      * discriminate.
      * apply match_annotation_braced; [assumption | discriminate | assumption].
    + unfold step_timers, timer_pat.
      rewrite findall_none_without_sigil; [reflexivity|].
      apply Hsig; [reflexivity | discriminate].
  - intros word line Hpar Hmeta Hword Hstop Hbrace.
    assert (Hword' : all_chars is_word (w :: word)) by now constructor.
    assert (Hsig : forall sigil, is_sigil sigil = true -> sigil <> "#"%char ->
              all_chars (not_chr sigil) line).
    { intros sigil Hs Hne. unfold line.
      apply all_chars_app; [now apply plain_not_sigil|].
      constructor; [apply not_chr_true; congruence|].
      change (w :: word ++ rest) with ((w :: word) ++ rest).
      apply all_chars_app; [now apply is_word_not_sigil|].
      now apply plain_not_sigil. }
    assert (Hrender : render_step line = pre ++ w :: word ++ rest).
    { unfold render_step.
      rewrite re_sub_timer_plain
        by (apply Hsig; [reflexivity | discriminate]).
      unfold line. rewrite re_sub_name_prefix by now apply plain_no_name_sigil.
      f_equal. rewrite re_sub_name_sigil_no_brace; [|reflexivity|assumption|].
      - apply re_sub_name_plain.
        change (w :: word ++ rest) with ((w :: word) ++ rest).
        apply all_chars_app; [now apply is_word_no_name_sigil|].
        now apply plain_no_name_sigil.
      - apply all_chars_app; [|assumption].
        eapply all_chars_weaken; [apply is_word_not_brace | exact Hword]. }
    unfold Recipe_parse. rewrite Hpar.
    rewrite (assemble_one_line line [w :: word] []); [|assumption| | |].
    + now rewrite Hrender.
    + apply findall_none_without_sigil, Hsig; [reflexivity | discriminate].
    + unfold step_cookware, cookware_pat, line.
      rewrite findall_bare by (assumption || reflexivity). reflexivity.
    + unfold step_timers, timer_pat.
      rewrite findall_none_without_sigil; [reflexivity|].
      apply Hsig; [reflexivity | discriminate].
Qed.

Lemma X21_a_step_with_one_piece_of_cookware_witness :
  Recipe_parse (F := Tenths) "Place other things in the #large bowl{}" =
  Ok (mkRecipe ∅ [] ["Place other things in the large bowl" : str]
        ["large bowl" : str] []).
Proof.
  refine (proj1 (X21_a_step_with_one_piece_of_cookware (F := Tenths)
                   "Place other things in the #large bowl{}"
                   "Place other things in the " "" "l" _ _ _)
            "arge bowl" "" _ _ _ _ _);
    try reflexivity; unfold all_chars; repeat constructor.
Defined.
